(** * Red Team Timeline: the layout core, the import boundary and the
    document state

    A shallow embedding of the positioning code of [Timeline.tsx]
    (the two Time-Axis Mappers, [getEventPositions] with its inner
    [assignPositions], the overflow aggregation, [renderEvent], the ticks
    of the axis and the width of the timeline), of the document import of
    [importFromJson] / [validateEvent], of the operations of
    [useTimelineState], of the handlers of [EventForm] and [EventEditor],
    and of the order and the selection of [EventList].

    Data model.
    - A JavaScript [Date] that carries a calendar day is a day number in
      [Z]; [differenceInCalendarDays] is subtraction and [addDays] is
      addition.
    - A JavaScript number that holds a percentage is the rational that
      the double is ([Q]), and equalities between percentages are stated
      with [==].  The two mappers are given in exact arithmetic; the
      subtraction of the cluster test of [assignPositions] is rounded to
      the nearest double by [toDouble], which follows IEEE 754 binary64
      with ties to even.
    - Strings are [string]; records are Rocq records with the field names
      of [types.ts]; a value of TypeScript type [unknown] is a [JsValue];
      a [Set] of identifiers is a [gset string].
    - A state setter of React is the function from the previous state to
      the next one; a handler of a component takes the cells of the
      component and the document state to the next ones.
    - Functions of the host that the code calls but does not define
      ([parseISO], [eachWeekOfInterval], [eachDayOfInterval],
      [isWithinInterval], [String.prototype.trim], [localeCompare],
      [uuidv4]) are section variables, so every property holds for each
      of them; the modules [IsoDate], [Calendar], [Days], [Sample] and
      [Demo] give instances that run the code on concrete documents. *)

From Stdlib Require Import ZArith QArith Qabs Qround Qpower Lia Lqa.
From Stdlib Require Import Ascii DecimalString Sorted SpecFloat.
From stdpp Require Import gmap strings list fin_maps.

#[local] Open Scope Z_scope.

(** ** Numbers *)

Definition Qltb (x y : Q) : bool :=
  match (x ?= y)%Q with Lt => true | _ => false end.

Definition ofZ (z : Z) : Q := inject_Z z.
Definition ofNat (n : nat) : Q := inject_Z (Z.of_nat n).

(** ** Doubles

    A JavaScript number is an IEEE 754 double, and every finite double is
    a rational.  [toDouble q] is the double nearest to the rational [q],
    ties going to the even significand: it is what an arithmetic operation
    of the code holds when its exact result is [q].  The significand has
    53 bits; below [2 ^ -1022] the spacing stays [2 ^ -1074] (subnormal
    numbers).  A result of [2 ^ 1024] or more stands for [Infinity]; it
    compares with every finite number as [Infinity] does. *)
Definition pow2 (e : Z) : Q := (2 ^ e)%Q.

(** The exponent [e] of a positive [q]: [2 ^ e <= q < 2 ^ (e + 1)]. *)
Definition exponent (q : Q) : Z :=
  let k := Z.log2 (Qnum q) - Z.log2 (Z.pos (Qden q)) in
  if Qle_bool (pow2 k) q then k else k - 1.

(** The integer nearest to [q], the even one of two that are as near. *)
Definition roundHalfEven (q : Q) : Z :=
  let f := Qfloor q in
  match (q - inject_Z f ?= 1 # 2)%Q with
  | Lt => f
  | Gt => f + 1
  | Eq => if Z.even f then f else f + 1
  end.

(** The double nearest to a positive [a]. *)
Definition magnitude (a : Q) : Q :=
  let e := Z.max (exponent a) (-1022) in
  (inject_Z (roundHalfEven (a / pow2 (e - 52))) * pow2 (e - 52))%Q.

Definition toDouble (q : Q) : Q :=
  if Qeq_bool q 0 then 0%Q
  else if Qltb q 0 then (- magnitude (Qabs q))%Q
  else magnitude (Qabs q).

(** The rational that a finite double of the Standard Library's
    specification of IEEE 754 arithmetic is. *)
Definition ofFloat (f : spec_float) : Q :=
  match f with
  | S754_finite s m e =>
      if s then (- (inject_Z (Z.pos m) * pow2 e))%Q
      else (inject_Z (Z.pos m) * pow2 e)%Q
  | _ => 0%Q
  end.

(** ** date-fns on day numbers *)

(** A [Date] is its day number. *)
Abbreviation Date := Z.

Definition differenceInCalendarDays (dateLeft dateRight : Date) : Z :=
  dateLeft - dateRight.

Definition addDays (d : Date) (amount : Z) : Date := d + amount.

(** [arr[i]] for an index that the code keeps in range. *)
Definition at_ (arr : list Date) (i : nat) : Date := nth i arr 0.

(** ** Time-Axis Mapper *)

(** The scan [for (let i = weekStarts.length - 1; i >= 0; i--)] of
    [dayToEvenPercent]: [findWeekIdx day weekStarts k] looks at the indices
    [k-1], [k-2], ..., [0] and stops at the first [i] with
    [day >= weekStarts[i]]; [weekIdx] stays [0] when there is none. *)
Fixpoint findWeekIdx (day : Date) (weekStarts : list Date) (k : nat) : nat :=
  match k with
  | O => O
  | S i =>
      match weekStarts !! i with
      | Some w => if (w <=? day)%Z then i else findWeekIdx day weekStarts i
      | None => findWeekIdx day weekStarts i
      end
  end.

Definition dayToEvenPercent (day : Date) (weekStarts : list Date)
    (endDate : Date) : Q :=
  if (length weekStarts =? 0)%nat then 0%Q
  else
    let numWeeks := length weekStarts in
    let weekIdx := findWeekIdx day weekStarts (length weekStarts) in
    let weekStart := at_ weekStarts weekIdx in
    let weekEnd :=
      if (weekIdx <? numWeeks - 1)%nat then at_ weekStarts (weekIdx + 1)
      else addDays endDate 1 in
    let weekDays := differenceInCalendarDays weekEnd weekStart in
    let dayInWeek := differenceInCalendarDays day weekStart in
    let fractionalPos :=
      if (0 <? weekDays)%Z then (ofZ dayInWeek / ofZ weekDays)%Q else 0%Q in
    let weekWidth := (100 / ofNat numWeeks)%Q in
    (ofNat weekIdx * weekWidth + fractionalPos * weekWidth)%Q.

(** The [weekEnd] and [weekDays] of [dayToEvenPercent] for the week of
    index [weekIdx]. *)
Definition weekEndOf (weekStarts : list Date) (endDate : Date) (weekIdx : nat)
    : Date :=
  if (weekIdx <? length weekStarts - 1)%nat then at_ weekStarts (weekIdx + 1)
  else addDays endDate 1.

Definition weekLengthInDays (weekStarts : list Date) (endDate : Date)
    (weekIdx : nat) : Z :=
  differenceInCalendarDays (weekEndOf weekStarts endDate weekIdx)
                           (at_ weekStarts weekIdx).

Definition dayToLinearPercent (day startDate : Date) (totalDays : Z) : Q :=
  if (totalDays <=? 0)%Z then 0%Q
  else
    let dayIndex := differenceInCalendarDays day startDate in
    ((ofZ dayIndex / ofZ totalDays) * 100)%Q.

(** ** Document model ([types.ts]) *)

(** [lane] is declared [1 | 2 | 3 | 4]; the code reads it as
    [event.lane ?? 1], so a missing lane is [None]. *)
Record TimelineEvent := {
  id : string;
  date : string;
  team : string;
  description : string;
  lane : option Z
}.

Record TimelineConfig := {
  startDate : string;
  endDate : string;
  title : string
}.

Record AppState := {
  config : TimelineConfig;
  events : list TimelineEvent
}.

Inductive TimeScale := days | weeks.

(** ** Event Position Resolver *)

Record PositionedEvent := {
  event : TimelineEvent;
  percent : Q;
  stackIndex : nat;
  clusterSize : nat;
  truncated : bool
}.

Definition CLUSTER_VISIBLE_LIMIT : nat := 3.
Definition PROXIMITY_THRESHOLD_PCT : Q := 1.5.

(** The [{ event, percent }] pairs of [redEvents] and [blueEvents]. *)
Module TeamEvent.
Record t := mk { event : TimelineEvent; percent : Q }.
End TeamEvent.

(** [Array.prototype.sort] with a comparator: the sort is stable, so its
    result is the insertion of each element, from the right, before the
    first element it does not compare greater than. *)
Fixpoint sortInsert {A} (cmp : A -> A -> Z) (a : A) (l : list A) : list A :=
  match l with
  | [] => [a]
  | x :: l' => if (0 <? cmp a x)%Z then x :: sortInsert cmp a l' else a :: l
  end.

Definition sort {A} (cmp : A -> A -> Z) (l : list A) : list A :=
  foldr (sortInsert cmp) [] l.

(** [Math.abs(ev.percent - first.percent) < PROXIMITY_THRESHOLD_PCT]: the
    two percentages are the doubles that the records hold, the
    subtraction gives the double nearest to their difference, and
    [Math.abs] and the comparison with the double 1.5 are exact. *)
Definition near (first ev : TeamEvent.t) : bool :=
  Qltb (Qabs (toDouble (TeamEvent.percent ev - TeamEvent.percent first)))
       PROXIMITY_THRESHOLD_PCT.

(** The grouping loop of [assignPositions]: [lastCluster.push(ev)] updates
    the last cluster in place, [clusters.push([ev])] opens a new one.  The
    case of an empty last cluster cannot arise ([formClusters_nonempty]). *)
Definition clusterStep (clusters : list (list TeamEvent.t)) (ev : TeamEvent.t)
    : list (list TeamEvent.t) :=
  match last clusters with
  | Some (first :: rest) =>
      if near first ev
      then <[(length clusters - 1)%nat := (first :: rest) ++ [ev]]> clusters
      else clusters ++ [[ev]]
  | _ => clusters ++ [[ev]]
  end.

Definition formClusters (teamEvents : list TeamEvent.t)
    : list (list TeamEvent.t) :=
  fold_left clusterStep teamEvents [].

(** The body of [cluster.forEach((ev, i) => result.push({...}))]. *)
Definition place (clusterSize : nat) (i : nat) (ev : TeamEvent.t)
    : PositionedEvent :=
  {| event := TeamEvent.event ev;
     percent := TeamEvent.percent ev;
     stackIndex := i;
     clusterSize := clusterSize;
     truncated := (CLUSTER_VISIBLE_LIMIT <? clusterSize)%nat
                  && (CLUSTER_VISIBLE_LIMIT <=? i)%nat |}.

Definition stackCluster (cluster : list TeamEvent.t) : list PositionedEvent :=
  imap (place (length cluster)) cluster.

Definition assignPositions (teamEvents : list TeamEvent.t)
    : list PositionedEvent :=
  fold_left (fun result cluster => result ++ stackCluster cluster)
            (formClusters teamEvents) [].

(** The pair a placement record was made from. *)
Definition teamEventOf (p : PositionedEvent) : TeamEvent.t :=
  TeamEvent.mk (event p) (percent p).

Module Positions.
Record t := mk { red : list PositionedEvent; blue : list PositionedEvent }.
End Positions.

Section Resolver.
Variable parseISO : string -> Date.

(** [getTime] is in milliseconds; the comparator only uses the difference
    of two of them.  A [Date] of this model is a calendar day, the date
    of the forms and of the data model, and its timestamp is that of the
    start of the day; the time of day that a date-time string carries is
    not kept. *)
Definition getTime (d : Date) : Z := d * 86400000.

Definition byDate (a b : TimelineEvent) : Z :=
  getTime (parseISO (date a)) - getTime (parseISO (date b)).

(** The same comparator over the timestamps of the host themselves:
    [time s] stands for [parseISO(s).getTime()], in milliseconds, with
    the time of day when the string carries one. *)
Definition byTimestamp (time : string -> Z) (a b : TimelineEvent) : Z :=
  time (date a) - time (date b).

(** The day of an event. *)
Definition dayOf (ev : TimelineEvent) : Date := parseISO (date ev).

(** [event.team === "red"]. *)
Definition isRed (ev : TimelineEvent) : bool := String.eqb (team ev) "red".

Definition notRed (ev : TimelineEvent) : bool := negb (isRed ev).

(** The pair [{ event, percent }] that the loop pushes for [ev]. *)
Definition withPercent (toPercent : Date -> Q) (ev : TimelineEvent)
    : TeamEvent.t :=
  TeamEvent.mk ev (toPercent (parseISO (date ev))).

(** The body of [for (const event of sorted)]. *)
Definition teamStep (toPercent : Date -> Q)
    (acc : list TeamEvent.t * list TeamEvent.t) (ev : TimelineEvent)
    : list TeamEvent.t * list TeamEvent.t :=
  let percent := toPercent (parseISO (date ev)) in
  if isRed ev
  then (acc.1 ++ [TeamEvent.mk ev percent], acc.2)
  else (acc.1, acc.2 ++ [TeamEvent.mk ev percent]).

Definition getEventPositions (events : list TimelineEvent)
    (toPercent : Date -> Q) : Positions.t :=
  let sorted := sort byDate events in
  let '(redEvents, blueEvents) :=
    fold_left (teamStep toPercent) sorted ([], []) in
  Positions.mk (assignPositions redEvents) (assignPositions blueEvents).
End Resolver.

(** ** Cluster Overflow Aggregation *)

Definition poleHeight : Z := 30.
Definition stackSpacing : Z := 32.

Module Overflow.
Record t := mk {
  percent : Q;
  count : nat;
  offset : Z;
  events : list TimelineEvent
}.
End Overflow.

(** The predicate of [red.filter((r) => r.truncated && r.event.date === d)]. *)
Definition hiddenOn (d : string) (r : PositionedEvent) : bool :=
  truncated r && String.eqb (date (event r)) d.

(** The loop [for (const p of red)] of [redOverflows] (and, word for word,
    of [blueOverflows]) over the remaining records [todo], with the set
    [seen] of date strings and the whole team list [all]. *)
Fixpoint overflowLoop (all : list PositionedEvent) (seen : gset string)
    (todo : list PositionedEvent) : list Overflow.t :=
  match todo with
  | [] => []
  | p :: todo' =>
      if negb (truncated p) || bool_decide (date (event p) ∈ seen)
      then overflowLoop all seen todo'
      else
        let hidden := List.filter (hiddenOn (date (event p))) all in
        let offset :=
          poleHeight + Z.of_nat CLUSTER_VISIBLE_LIMIT * stackSpacing in
        Overflow.mk (percent p) (length hidden) offset (map event hidden)
        :: overflowLoop all ({[date (event p)]} ∪ seen) todo'
  end.

Definition overflows (all : list PositionedEvent) : list Overflow.t :=
  overflowLoop all ∅ all.

(** The [offset] of every overflow descriptor. *)
Definition overflowOffset : Z :=
  poleHeight + Z.of_nat CLUSTER_VISIBLE_LIMIT * stackSpacing.

Definition redOverflows (pos : Positions.t) : list Overflow.t :=
  overflows (Positions.red pos).

Definition blueOverflows (pos : Positions.t) : list Overflow.t :=
  overflows (Positions.blue pos).

(** ** Render Layer: [renderEvent] *)

(** The geometry that [renderEvent] writes into the styles of a flag. *)
Module Flag.
Record t := mk {
  left : Q;
  zIndex : Z;
  offset : Z;
  poleStyleHeight : Z;
  labelOffset : Z;
  isRed : bool
}.
End Flag.

Definition flagHeadHeight : Z := 10.

Definition renderEvent (positioned : PositionedEvent) (team : string)
    : option Flag.t :=
  if truncated positioned then None
  else
    let lane := default 1 (lane (event positioned)) - 1 in
    let offset := poleHeight + lane * stackSpacing in
    Some (Flag.mk (percent positioned) (5 - lane) offset
                  (offset + flagHeadHeight) (offset - 2)
                  (String.eqb team "red")).

(** ** The [Timeline] component: choice of the mapper *)

Section Timeline.
Variable parseISO : string -> Date.
(** [eachWeekOfInterval({ start, end }, { weekStartsOn: 1 })]. *)
Variable eachWeekOfInterval : Date -> Date -> list Date.

Definition totalDays (config : TimelineConfig) : Z :=
  differenceInCalendarDays (parseISO (endDate config))
                           (parseISO (startDate config)).

Definition weekStarts (config : TimelineConfig) : list Date :=
  if (totalDays config <=? 0)%Z then []
  else eachWeekOfInterval (parseISO (startDate config))
                          (parseISO (endDate config)).

Definition toPercent (config : TimelineConfig) (timeScale : TimeScale)
    : Date -> Q :=
  match timeScale with
  | days =>
      fun day =>
        dayToLinearPercent day (parseISO (startDate config))
                           (totalDays config)
  | weeks =>
      fun day =>
        dayToEvenPercent day (weekStarts config) (parseISO (endDate config))
  end.

(** [const { red, blue } = getEventPositions(events, toPercent)]. *)
Definition timelinePositions (config : TimelineConfig)
    (events : list TimelineEvent) (timeScale : TimeScale) : Positions.t :=
  getEventPositions parseISO events (toPercent config timeScale).
End Timeline.

(** ** Calendar dates in the format of [<input type="date">]

    [parseISO] of date-fns on the extended calendar-date format
    [YYYY-MM-DD], as a day number counted from 1970-01-01.  The theorems
    below hold for every [parseISO]; this one runs the code on concrete
    documents. *)
Module IsoDate.

Definition digit (a : ascii) : option Z :=
  let n := Z.of_N (N_of_ascii a) in
  if (48 <=? n) && (n <=? 57) then Some (n - 48) else None.

Definition isLeapYear (y : Z) : bool :=
  ((y mod 4 =? 0) && negb (y mod 100 =? 0)) || (y mod 400 =? 0).

Definition daysInMonth (y m : Z) : Z :=
  if m =? 2 then (if isLeapYear y then 29 else 28)
  else if (m =? 4) || (m =? 6) || (m =? 9) || (m =? 11) then 30
  else 31.

Definition daysFromCivil (y m d : Z) : Z :=
  let y' := if m <=? 2 then y - 1 else y in
  let era := y' / 400 in
  let yoe := y' - era * 400 in
  let mp := if 2 <? m then m - 3 else m + 9 in
  let doy := (153 * mp + 2) / 5 + d - 1 in
  let doe := yoe * 365 + yoe / 4 - yoe / 100 + doy in
  era * 146097 + doe - 719468.

Definition parse (s : string) : option Date :=
  match String.list_ascii_of_string s with
  | [y1; y2; y3; y4; dash1; m1; m2; dash2; d1; d2] =>
      if Ascii.eqb dash1 "-" && Ascii.eqb dash2 "-" then
        match digit y1, digit y2, digit y3, digit y4,
              digit m1, digit m2, digit d1, digit d2 with
        | Some a, Some b, Some c, Some d, Some e, Some f, Some g, Some h =>
            let y := 1000 * a + 100 * b + 10 * c + d in
            let m := 10 * e + f in
            let dd := 10 * g + h in
            if (1 <=? m) && (m <=? 12) && (1 <=? dd) && (dd <=? daysInMonth y m)
            then Some (daysFromCivil y m dd)
            else None
        | _, _, _, _, _, _, _, _ => None
        end
      else None
  | _ => None
  end.

(** The parse of a date that was validated upstream. *)
Definition parseValid (s : string) : Date := default 0 (parse s).

End IsoDate.

(** ** Weeks that start on Monday

    [startOfWeek] and [eachWeekOfInterval] of date-fns with
    [weekStartsOn: 1], on day numbers (day 0, 1970-01-01, is a Thursday):
    the Mondays from the week of the start to the week of the end.  The
    properties of [dayToEvenPercent] are stated for every list of week
    starts; this one gives the list of a configuration. *)
Module Calendar.

Definition startOfWeek (d : Date) : Date := d - (d + 3) mod 7.

Definition eachWeekOfInterval (start finish : Date) : list Date :=
  let first := startOfWeek start in
  let final := startOfWeek finish in
  map (fun k => first + 7 * Z.of_nat k)
      (seq 0 (Z.to_nat ((final - first) / 7 + 1))).

End Calendar.

(** ** Import boundary: [validateEvent] and [importFromJson] *)

(** A value produced by [JSON.parse].  Reading a property that is not
    there gives [undefined], which is [None] here. *)
#[warnings="-register-all"]
Inductive JsValue :=
  | JNull
  | JBool (b : bool)
  | JNum (q : Q)
  | JStr (s : string)
  | JArr (items : list JsValue)
  | JObj (fields : gmap string JsValue).

(** [v.k] for one of the keys the import reads; none of them is a
    property of an array. *)
Definition prop (v : JsValue) (k : string) : option JsValue :=
  match v with
  | JObj fields => fields !! k
  | _ => None
  end.

(** [typeof v === "object" && v !== null]. *)
Definition isObject (v : option JsValue) : bool :=
  match v with
  | Some (JObj _) | Some (JArr _) => true
  | _ => false
  end.

(** [typeof v === "string"]. *)
Definition isString (v : option JsValue) : bool :=
  match v with
  | Some (JStr _) => true
  | _ => false
  end.

(** The cast [v as string], applied to values checked to be strings. *)
Definition asString (v : option JsValue) : string :=
  match v with
  | Some (JStr s) => s
  | _ => EmptyString
  end.

(** [v === s] for a string literal [s]. *)
Definition strictEqStr (v : option JsValue) (s : string) : bool :=
  match v with
  | Some (JStr s') => String.eqb s' s
  | _ => false
  end.

(** [v === n] for a number literal [n]. *)
Definition strictEqNum (v : option JsValue) (n : Z) : bool :=
  match v with
  | Some (JNum q) => Qeq_bool q (inject_Z n)
  | _ => false
  end.

Definition dq : string := String "034"%char EmptyString.
Definition quoted (s : string) : string := dq +:+ s +:+ dq.
Definition show (n : nat) : string := NilEmpty.string_of_uint (Nat.to_uint n).

(** A computation of the import: it draws identifiers from the generator
    (the state is the number drawn so far) and may throw an [Error] with a
    message. *)
Definition Import (A : Type) : Type := nat -> string + (A * nat).

#[export] Instance Import_ret : MRet Import :=
  fun A a n => inr (a, n).

#[export] Instance Import_bind : MBind Import :=
  fun A B k m n =>
    match m n with
    | inl err => inl err
    | inr (a, n') => k a n'
    end.

Definition throw {A} (message : string) : Import A := fun _ => inl message.

(** The messages of the errors that the import throws. *)
Definition msgEventNotObject (index : nat) : string :=
  "Event at index " +:+ show index +:+ " is not an object".

Definition msgEventDate (index : nat) : string :=
  "Event at index " +:+ show index +:+ ": " +:+ quoted "date"
  +:+ " must be a valid ISO date string".

Definition msgEventTeam (index : nat) : string :=
  "Event at index " +:+ show index +:+ ": " +:+ quoted "team"
  +:+ " must be " +:+ quoted "red" +:+ " or " +:+ quoted "blue".

Definition msgEventDescription (index : nat) : string :=
  "Event at index " +:+ show index +:+ ": " +:+ quoted "description"
  +:+ " must be a non-empty string".

Definition msgRoot : string := "JSON root must be an object".

Definition msgConfig : string :=
  "Missing or invalid " +:+ quoted "config" +:+ " object".

Definition msgTitle : string := "config.title must be a non-empty string".

Definition msgStartDate : string :=
  "config.startDate must be a valid ISO date string".

Definition msgEndDate : string :=
  "config.endDate must be a valid ISO date string".

Definition msgEvents : string := quoted "events" +:+ " must be an array".

Section ImportJson.
(** [parseISO] gives [None] for an Invalid Date, so [isValid] is [is_Some]. *)
Variable parseISO : string -> option Date.
Variable trim : string -> string.
(** [uuidv4 n] is the identifier that the [n]-th call returns. *)
Variable uuidv4 : nat -> string.

Definition isValid (d : option Date) : bool :=
  match d with Some _ => true | None => false end.

Definition isValidISODate (value : option JsValue) : bool :=
  if negb (isString value) then false
  else
    let parsed := parseISO (asString value) in
    isValid parsed.

Definition newId : Import string := fun n => inr (uuidv4 n, S n).

(** [e.lane === 1 || ... || e.lane === 4 ? e.lane : 1]. *)
Definition laneOr1 (v : option JsValue) : Z :=
  if strictEqNum v 1 then 1
  else if strictEqNum v 2 then 2
  else if strictEqNum v 3 then 3
  else if strictEqNum v 4 then 4
  else 1.

Definition validateEvent (event : JsValue) (index : nat)
    : Import TimelineEvent :=
  if negb (isObject (Some event)) then throw (msgEventNotObject index)
  else
    let e := event in
    if negb (isValidISODate (prop e "date")) then throw (msgEventDate index)
    else if negb (strictEqStr (prop e "team") "red")
            && negb (strictEqStr (prop e "team") "blue") then
      throw (msgEventTeam index)
    else if negb (isString (prop e "description"))
            || String.eqb (trim (asString (prop e "description"))) EmptyString
    then throw (msgEventDescription index)
    else
      id ← (if isString (prop e "id")
                && negb (String.eqb (trim (asString (prop e "id"))) EmptyString)
            then mret (asString (prop e "id"))
            else newId);
      let lane := laneOr1 (prop e "lane") in
      mret {| id := id;
              date := asString (prop e "date");
              team := asString (prop e "team");
              description := asString (prop e "description");
              lane := Some lane |}.

(** [items.map((event, i) => validateEvent(event, i))], from index [i]. *)
Fixpoint validateEvents (items : list JsValue) (i : nat)
    : Import (list TimelineEvent) :=
  match items with
  | [] => mret []
  | event :: rest =>
      ev ← validateEvent event i;
      evs ← validateEvents rest (S i);
      mret (ev :: evs)
  end.

(** The body of [reader.onload] after [JSON.parse]: [data] is the parsed
    document. *)
Definition importData (data : JsValue) : Import AppState :=
  if negb (isObject (Some data)) then throw msgRoot
  else if negb (isObject (prop data "config")) then throw msgConfig
  else
    let config := default JNull (prop data "config") in
    if negb (isString (prop config "title"))
       || String.eqb (trim (asString (prop config "title"))) EmptyString
    then throw msgTitle
    else if negb (isValidISODate (prop config "startDate")) then
      throw msgStartDate
    else if negb (isValidISODate (prop config "endDate")) then
      throw msgEndDate
    else
      match prop data "events" with
      | Some (JArr items) =>
          events ← validateEvents items 0;
          mret {| config :=
                    {| title := asString (prop config "title");
                       startDate := asString (prop config "startDate");
                       endDate := asString (prop config "endDate") |};
                  events := events |}
      | _ => throw msgEvents
      end.

(** [importFromJson]: the promise resolves with the state or rejects with
    the error; [n] identifiers were drawn before. *)
Definition importFromJson (data : JsValue) (n : nat) : string + AppState :=
  match importData data n with
  | inl err => inl err
  | inr (state, _) => inr state
  end.

(** The record that [validateEvent] returns when no check throws, and the
    number of identifiers drawn after it. *)
Definition accepted (e : JsValue) (n : nat) : TimelineEvent * nat :=
  ({| id := if isString (prop e "id")
               && negb (String.eqb (trim (asString (prop e "id")))
                                   EmptyString)
            then asString (prop e "id") else uuidv4 n;
      date := asString (prop e "date");
      team := asString (prop e "team");
      description := asString (prop e "description");
      lane := Some (laneOr1 (prop e "lane")) |},
   if isString (prop e "id")
      && negb (String.eqb (trim (asString (prop e "id"))) EmptyString)
   then n else S n).

(** *** The valid documents of the specification

    Following the words of the specification: a string is non-empty when
    it is a string that is not empty after trimming; an event is valid
    when it is an object with a valid date, a team "red" or "blue" and a
    non-empty description; a document is valid when its root is an
    object, its config is an object with a non-empty title and valid start
    and end dates, and its events are an array of valid events. *)
Definition nonEmptyString (v : option JsValue) : bool :=
  match v with
  | Some (JStr s) => negb (String.eqb (trim s) EmptyString)
  | _ => false
  end.

Definition validDate (v : option JsValue) : bool :=
  match v with
  | Some (JStr s) => match parseISO s with Some _ => true | None => false end
  | _ => false
  end.

Definition redOrBlue (v : option JsValue) : bool :=
  match v with
  | Some (JStr s) => String.eqb s "red" || String.eqb s "blue"
  | _ => false
  end.

Definition eventOk (e : JsValue) : bool :=
  isObject (Some e) && validDate (prop e "date") && redOrBlue (prop e "team")
  && nonEmptyString (prop e "description").




(** The valid states of the specification: every event has an identifier
    and a description that are not empty after trimming, a valid date, a
    team "red" or "blue" and a lane from 1 to 4; the title is not empty
    after trimming and the two dates of the config are valid. *)
Definition stateEventOk (e : TimelineEvent) : bool :=
  negb (String.eqb (trim (id e)) EmptyString)
  && isValid (parseISO (date e))
  && (String.eqb (team e) "red" || String.eqb (team e) "blue")
  && negb (String.eqb (trim (description e)) EmptyString)
  && match lane e with
     | Some l => (1 <=? l)%Z && (l <=? 4)%Z
     | None => false
     end.

Definition stateConfigOk (c : TimelineConfig) : bool :=
  negb (String.eqb (trim (title c)) EmptyString)
  && isValid (parseISO (startDate c)) && isValid (parseISO (endDate c)).

Definition stateOk (state : AppState) : bool :=
  stateConfigOk (config state) && forallb stateEventOk (events state).
End ImportJson.

(** ** Document state: [useTimelineState] *)

(** [structuredClone(state)]. *)
Definition exportState (state : AppState) : AppState := state.

Definition loadState (newState : AppState) : AppState :=
  {| config := config newState;
     events :=
       map (fun e =>
              {| id := id e; date := date e; team := team e;
                 description := description e;
                 lane := Some (default 1 (lane e)) |})
           (events newState) |}.

(** Modelled from the spec: the serialisation of the exported state by the
    toolbar ([Toolbar.tsx] is not among the sources).  The persisted
    document is a record with [config: {title, startDate, endDate}] and
    [events: [{id, date, team, description, lane}]]; a field that is
    [undefined] is left out, as [JSON.stringify] does.  [jsonOfEvent],
    [jsonOfConfig] and [exportDocument] give the value that [JSON.parse]
    reads back from the exported file. *)
Definition jsonOfEvent (e : TimelineEvent) : JsValue :=
  JObj (<["id" := JStr (id e)]>
        (<["date" := JStr (date e)]>
         (<["team" := JStr (team e)]>
          (<["description" := JStr (description e)]>
           (match lane e with
            | Some l => {["lane" := JNum (inject_Z l)]}
            | None => ∅
            end))))).

(** Modelled from the spec: the [config] record of the persisted
    document. *)
Definition jsonOfConfig (c : TimelineConfig) : JsValue :=
  JObj (<["title" := JStr (title c)]>
        (<["startDate" := JStr (startDate c)]>
         {["endDate" := JStr (endDate c)]})).

(** Modelled from the spec: the persisted document of
    [handleExportState], [{ ...exportState(), colors }]. *)
Definition exportDocument (state : AppState) (colors : JsValue) : JsValue :=
  let exported := exportState state in
  JObj (<["config" := jsonOfConfig (config exported)]>
        (<["events" := JArr (map jsonOfEvent (events exported))]>
         {["colors" := colors]})).

(** ** Sample documents *)

Module Sample.

(** [String.prototype.trim] on strings of ASCII characters. *)
Definition isWhiteSpace (a : ascii) : bool :=
  let n := N_of_ascii a in
  ((9 <=? n) && (n <=? 13))%N || (n =? 32)%N.

Fixpoint trimStart (s : string) : string :=
  match s with
  | EmptyString => EmptyString
  | String a s' => if isWhiteSpace a then trimStart s' else s
  end.

Definition trim (s : string) : string :=
  String.rev (trimStart (String.rev (trimStart s))).

Definition uuidv4 (n : nat) : string := "generated-" +:+ show n.

(** No week is needed in days mode. *)
Definition noWeeks (start finish : Date) : list Date := [].

Definition mkEvent (i d t : string) (l : Z) : TimelineEvent :=
  {| id := i; date := d; team := t; description := "step " +:+ i;
     lane := Some l |}.

(** A range of 200 days. *)
Definition longConfig : TimelineConfig :=
  {| startDate := "2024-01-01"; endDate := "2024-07-19";
     title := "Assessment" |}.

(** January 2024. *)
Definition monthConfig : TimelineConfig :=
  {| startDate := "2024-01-01"; endDate := "2024-01-31";
     title := "Assessment" |}.

(** A range of a single day. *)
Definition singleDayConfig : TimelineConfig :=
  {| startDate := "2024-01-01"; endDate := "2024-01-01";
     title := "Assessment" |}.

Definition fiveSameDay : list TimelineEvent :=
  [mkEvent "a" "2024-01-01" "red" 1; mkEvent "b" "2024-01-01" "red" 2;
   mkEvent "c" "2024-01-01" "red" 3; mkEvent "d" "2024-01-01" "red" 4;
   mkEvent "e" "2024-01-01" "red" 1].

Definition fiveCloseDays : list TimelineEvent :=
  [mkEvent "a" "2024-01-01" "red" 1; mkEvent "b" "2024-01-01" "red" 2;
   mkEvent "c" "2024-01-01" "red" 3; mkEvent "d" "2024-01-02" "red" 1;
   mkEvent "e" "2024-01-03" "red" 1].

(** The Mondays 2024-01-01, 2024-01-08 and 2024-01-15. *)
Definition threeWeeks : list Date := [19723; 19730; 19737].

Definition twoLanes : list TimelineEvent :=
  [mkEvent "a" "2024-01-01" "red" 1; mkEvent "b" "2024-01-01" "red" 3].

(** A valid state, and a document whose second event has no valid team. *)
Definition goodState : AppState :=
  {| config := monthConfig;
     events := [mkEvent "a" "2024-01-05" "red" 2;
                mkEvent "b" "2024-01-09" "blue" 4] |}.

Definition jsonEvent (i d t text : string) : JsValue :=
  JObj (<["id" := JStr i]>
        (<["date" := JStr d]>
         (<["team" := JStr t]> {["description" := JStr text]}))).

Definition documentWith (items : list JsValue) : JsValue :=
  JObj (<["config" := jsonOfConfig monthConfig]> {["events" := JArr items]}).

Definition greenTeamDocument : JsValue :=
  documentWith [jsonEvent "a" "2024-01-05" "red" "recon";
                jsonEvent "b" "2024-01-09" "green" "alert"].

End Sample.

(** ** The rest of the [Timeline] component *)

(** The comparator of [[...red].sort((a, b) => (b.event.lane ?? 1) -
    (a.event.lane ?? 1))]: the higher lanes come first. *)
Definition byLaneDesc (a b : PositionedEvent) : Z :=
  default 1 (lane (event b)) - default 1 (lane (event a)).

(** [[...team].sort(...).map((p) => renderEvent(p, name))]: the elements
    that the component draws for a team; a truncated record gives [null],
    which is [None] and draws nothing. *)
Definition renderTeam (positions : list PositionedEvent) (name : string)
    : list (option Flag.t) :=
  map (fun p => renderEvent p name) (sort byLaneDesc positions).

(** The flags that are drawn. *)
Definition drawn (rendered : list (option Flag.t)) : list Flag.t :=
  omap Datatypes.id rendered.

Definition BASE_PX_PER_WEEK : Q := 120.
Definition BASE_PX_PER_DAY : Q := 60.

Definition Qmax (x y : Q) : Q := if Qltb x y then y else x.

(** [timelineWidth], from the number of week starts, [totalDays], the
    policy and the zoom factor. *)
Definition timelineWidth (isDaysMode : bool) (weekStartsLength : nat)
    (totalDays : Z) (zoom : Q) : Q :=
  let numWeeks := Nat.max 1 weekStartsLength in
  let numDays := Z.max 1 totalDays in
  if isDaysMode
  then Qmax 400 (ofZ numDays * BASE_PX_PER_DAY * zoom + 80)
  else Qmax 400 (ofNat numWeeks * BASE_PX_PER_WEEK * zoom + 80).

Module WeekTick.
Record t := mk { percent : Q; label : string; dateRange : string }.
End WeekTick.

Module DayColumn.
Record t := mk {
  percent : Q;
  label : string;
  dateLabel : string;
  dayOfWeek : string;
  isWeekend : bool
}.
End DayColumn.

Module DayTick.
Record t := mk { percent : Q; dayOfMonth : Z }.
End DayTick.

Section Ticks.
Variable parseISO : string -> Date.
Variable eachWeekOfInterval : Date -> Date -> list Date.
(** [eachDayOfInterval({ start, end })]. *)
Variable eachDayOfInterval : Date -> Date -> list Date.
(** [format(day, pattern)], [day.getDay()] and [day.getDate()]. *)
Variable format : Date -> string -> string.
Variable getDay : Date -> Z.
Variable getDate : Date -> Z.

(** The memo [weeks]: one tick per week start, none in days mode. *)
Definition weekTicks (config : TimelineConfig) (timeScale : TimeScale)
    : list WeekTick.t :=
  let weekStarts := weekStarts parseISO eachWeekOfInterval config in
  match timeScale with
  | days => []
  | weeks =>
      if (length weekStarts =? 0)%nat then []
      else
        let numWeeks := length weekStarts in
        imap (fun i weekStart =>
                let percent := (ofNat i / ofNat numWeeks * 100)%Q in
                let weekEnd := addDays weekStart 6 in
                WeekTick.mk percent ("Week " +:+ show (i + 1))
                  (format weekStart "MMM d" +:+ " – "
                   +:+ format weekEnd "MMM d"))
             weekStarts
  end.

(** The memo [days]: one column per day of the range, in days mode. *)
Definition dayColumns (config : TimelineConfig) (timeScale : TimeScale)
    : list DayColumn.t :=
  match timeScale with
  | weeks => []
  | days =>
      if (totalDays parseISO config <=? 0)%Z then []
      else
        let allDays :=
          eachDayOfInterval (parseISO (startDate config))
                            (parseISO (endDate config)) in
        imap (fun i day =>
                let percent :=
                  dayToLinearPercent day (parseISO (startDate config))
                                     (totalDays parseISO config) in
                DayColumn.mk percent ("Day " +:+ show (i + 1))
                  (format day "MMM d") (format day "EEE")
                  ((getDay day =? 0)%Z || (getDay day =? 6)%Z))
             allDays
  end.

(** The memo [dayTicks]: one small tick per day of the range, in weeks
    mode. *)
Definition dayTicks (config : TimelineConfig) (timeScale : TimeScale)
    : list DayTick.t :=
  match timeScale with
  | days => []
  | weeks =>
      if (totalDays parseISO config <=? 0)%Z then []
      else
        let allDays :=
          eachDayOfInterval (parseISO (startDate config))
                            (parseISO (endDate config)) in
        map (fun day =>
               DayTick.mk
                 (dayToEvenPercent day
                    (weekStarts parseISO eachWeekOfInterval config)
                    (parseISO (endDate config)))
                 (getDate day))
            allDays
  end.
End Ticks.

(** ** Days of a range

    [eachDayOfInterval] of date-fns on day numbers, for a range whose end
    is not before its start: every day from the start to the end, both
    included.  Day 0, 1970-01-01, is a Thursday, which [getDay] numbers
    4. *)
Module Days.

Definition eachDayOfInterval (start finish : Date) : list Date :=
  map (fun k => start + Z.of_nat k) (seq 0 (Z.to_nat (finish - start + 1))).

Definition getDay (d : Date) : Z := (d + 4) mod 7.

(** A stand-in for [format] and for [getDate]: the day number. *)
Definition format (d : Date) (pattern : string) : string :=
  show (Z.to_nat d).

Definition getDate (d : Date) : Z := d.

End Days.

(** ** The states that the import gives *)

Section ImportedState.
Variable parseISO : string -> option Date.
Variable trim : string -> string.
Variable uuidv4 : nat -> string.

(** An item of the document and the event the import makes of it, when
    the identifiers of index [lo] and more are those drawn for it. *)
Definition importedFrom (lo : nat) (item : JsValue) (ev : TimelineEvent)
    : Prop :=
  date ev = asString (prop item "date")
  /\ team ev = asString (prop item "team")
  /\ description ev = asString (prop item "description")
  /\ lane ev = Some (laneOr1 (prop item "lane"))
  /\ (nonEmptyString trim (prop item "id") = true
      /\ id ev = asString (prop item "id")
      \/ nonEmptyString trim (prop item "id") = false
         /\ exists k : nat, (lo <= k)%nat /\ id ev = uuidv4 k).

(** What the layout and the forms rely on. *)
Definition wellFormed (ev : TimelineEvent) : Prop :=
  isValid (parseISO (date ev)) = true
  /\ (team ev = "red" \/ team ev = "blue")
  /\ trim (description ev) <> EmptyString
  /\ exists l : Z, lane ev = Some l /\ 1 <= l <= 4.
End ImportedState.

(** ** The operations of [useTimelineState]

    Each operation is the function that it passes to [setState]: from the
    previous state to the next one. *)

(** [Omit<TimelineEvent, "id">]. *)
Module NewEvent.
Record t := mk {
  date : string;
  team : string;
  description : string;
  lane : option Z
}.
End NewEvent.

(** [Partial<Omit<TimelineEvent, "id">>]: a field that the object does not
    have is [None]. *)
Module Updates.
Record t := mk {
  date : option string;
  team : option string;
  description : option string;
  lane : option Z
}.
End Updates.

(** [{ ...event, id }]. *)
Definition withId (event : NewEvent.t) (newId : string) : TimelineEvent :=
  {| id := newId;
     date := NewEvent.date event;
     team := NewEvent.team event;
     description := NewEvent.description event;
     lane := NewEvent.lane event |}.

(** [addEvent]; [uuid] is the identifier that [uuidv4()] returns. *)
Definition addEvent (uuid : string) (event : NewEvent.t) (prev : AppState)
    : AppState :=
  {| config := config prev;
     events := events prev ++ [withId event uuid] |}.

(** [{ ...e, ...updates }]. *)
Definition applyUpdates (e : TimelineEvent) (updates : Updates.t)
    : TimelineEvent :=
  {| id := id e;
     date := default (date e) (Updates.date updates);
     team := default (team e) (Updates.team updates);
     description := default (description e) (Updates.description updates);
     lane := match Updates.lane updates with
             | Some l => Some l
             | None => lane e
             end |}.

Definition updateEvent (i : string) (updates : Updates.t) (prev : AppState)
    : AppState :=
  {| config := config prev;
     events :=
       map (fun e => if String.eqb (id e) i then applyUpdates e updates else e)
           (events prev) |}.

Definition deleteEvent (i : string) (prev : AppState) : AppState :=
  {| config := config prev;
     events := List.filter (fun e => negb (String.eqb (id e) i))
                           (events prev) |}.


(** ** The forms: [EventForm] and [EventEditor]

    A form is the record of its [useState] cells; a handler takes the
    form and the document state to the next form and the next state.
    [parseISO] gives [None] for an Invalid Date, as in the import;
    [isWithinInterval] is the function of date-fns, which in some
    versions throws a [RangeError] for an interval that is not valid:
    [None] is the throw, and a handler in which it happens sets
    nothing. *)

(** The object [next] of [validate]: a key that is absent is [None]. *)
Module FieldErrors.
Record t := mk { date : option string; description : option string }.
End FieldErrors.

Module Form.
Record t := mk {
  date : string;
  team : string;
  description : string;
  lane : Z;
  errors : FieldErrors.t
}.
End Form.

(** The editor has the cells of the form and [confirmDelete]; [isOpen]
    stands for the [editingEvent] of [App], which [onClose] sets to
    [null], taking the editor away. *)
Module Editor.
Record t := mk {
  date : string;
  team : string;
  description : string;
  lane : Z;
  errors : FieldErrors.t;
  confirmDelete : bool;
  isOpen : bool
}.
End Editor.

(** What the user does with the delete button of the editor. *)
Inductive DeleteButton := click | blur.

(** [Object.keys(next).length === 0]. *)
Definition noErrors (next : FieldErrors.t) : bool :=
  match FieldErrors.date next, FieldErrors.description next with
  | None, None => true
  | _, _ => false
  end.

Section Forms.
Variable parseISO : string -> option Date.
Variable isWithinInterval :
  option Date -> option Date -> option Date -> option bool.
Variable trim : string -> string.

(** [validate] of both forms, without its [setErrors(next)]: the object
    [next]. *)
Definition validate (config : TimelineConfig) (date description : string)
    : option FieldErrors.t :=
  dateError ←
    (if String.eqb date EmptyString then Some (Some "Date is required")
     else
       within ← isWithinInterval (parseISO date)
                  (parseISO (startDate config)) (parseISO (endDate config));
       Some (if negb within
             then Some "Date must be within the assessment range"
             else None));
  Some (FieldErrors.mk dateError
          (if String.eqb (trim description) EmptyString
           then Some "Description is required" else None)).

(** [handleSubmit] of [EventForm]; [uuid] is the identifier that
    [addEvent] draws. *)
Definition handleSubmit (config : TimelineConfig) (uuid : string)
    (form : Form.t) (state : AppState) : Form.t * AppState :=
  match validate config (Form.date form) (Form.description form) with
  | None => (form, state)
  | Some next =>
      if negb (noErrors next)
      then (Form.mk (Form.date form) (Form.team form)
              (Form.description form) (Form.lane form) next,
            state)
      else (Form.mk EmptyString (Form.team form) EmptyString 1
              (FieldErrors.mk None None),
            addEvent uuid
              (NewEvent.mk (Form.date form) (Form.team form)
                 (trim (Form.description form)) (Some (Form.lane form)))
              state)
  end.

(** The cells of the editor when it opens for [event]. *)
Definition openEditor (event : TimelineEvent) : Editor.t :=
  Editor.mk (date event) (team event) (description event)
    (default 1 (lane event)) (FieldErrors.mk None None) false true.

Definition withErrors (ed : Editor.t) (next : FieldErrors.t) : Editor.t :=
  Editor.mk (Editor.date ed) (Editor.team ed) (Editor.description ed)
    (Editor.lane ed) next (Editor.confirmDelete ed) (Editor.isOpen ed).

Definition setConfirmDelete (ed : Editor.t) (b : bool) : Editor.t :=
  Editor.mk (Editor.date ed) (Editor.team ed) (Editor.description ed)
    (Editor.lane ed) (Editor.errors ed) b (Editor.isOpen ed).

Definition onClose (ed : Editor.t) : Editor.t :=
  Editor.mk (Editor.date ed) (Editor.team ed) (Editor.description ed)
    (Editor.lane ed) (Editor.errors ed) (Editor.confirmDelete ed) false.

(** [handleSave] of [EventEditor]. *)
Definition handleSave (config : TimelineConfig) (event : TimelineEvent)
    (ed : Editor.t) (state : AppState) : Editor.t * AppState :=
  match validate config (Editor.date ed) (Editor.description ed) with
  | None => (ed, state)
  | Some next =>
      if negb (noErrors next) then (withErrors ed next, state)
      else (onClose (withErrors ed next),
            updateEvent (id event)
              (Updates.mk (Some (Editor.date ed)) (Some (Editor.team ed))
                 (Some (trim (Editor.description ed)))
                 (Some (Editor.lane ed)))
              state)
  end.
End Forms.

(** [handleDelete] of [EventEditor]. *)
Definition handleDelete (event : TimelineEvent) (ed : Editor.t)
    (state : AppState) : Editor.t * AppState :=
  if negb (Editor.confirmDelete ed) then (setConfirmDelete ed true, state)
  else (onClose ed, deleteEvent (id event) state).

(** One use of the delete button: [onClick] is [handleDelete], [onBlur]
    is [setConfirmDelete(false)]; an editor that is closed has no
    button. *)
Definition deleteButtonStep (event : TimelineEvent)
    (st : Editor.t * AppState) (action : DeleteButton)
    : Editor.t * AppState :=
  if negb (Editor.isOpen st.1) then st
  else
    match action with
    | click => handleDelete event st.1 st.2
    | blur => (setConfirmDelete st.1 false, st.2)
    end.

Definition deleteButton (event : TimelineEvent) (actions : list DeleteButton)
    (st : Editor.t * AppState) : Editor.t * AppState :=
  fold_left (deleteButtonStep event) actions st.

(** ** The list view: [EventList] *)

Inductive SortField := dateField | teamField | descriptionField.
Inductive SortDirection := asc | desc.

Section ListView.
(** [a.localeCompare(b)]. *)
Variable localeCompare : string -> string -> Z.

(** The comparator of [sortedEvents]. *)
Definition compareRows (sortField : SortField)
    (sortDirection : SortDirection) (a b : TimelineEvent) : Z :=
  let cmp :=
    match sortField with
    | dateField => localeCompare (date a) (date b)
    | teamField => localeCompare (team a) (team b)
    | descriptionField => localeCompare (description a) (description b)
    end in
  match sortDirection with
  | asc => cmp
  | desc => - cmp
  end.

Definition sortedEvents (events : list TimelineEvent) (sortField : SortField)
    (sortDirection : SortDirection) : list TimelineEvent :=
  sort (compareRows sortField sortDirection) events.
End ListView.

(** The string that a column shows. *)
Definition column (sortField : SortField) (e : TimelineEvent) : string :=
  match sortField with
  | dateField => date e
  | teamField => team e
  | descriptionField => description e
  end.

(** [toggleOne]: the function that it passes to [setSelected]. *)
Definition toggleOne (i : string) (prev : gset string) : gset string :=
  if bool_decide (i ∈ prev) then prev ∖ {[i]} else prev ∪ {[i]}.

Definition toggleAll (events : list TimelineEvent) (selected : gset string)
    : gset string :=
  if (size selected =? length events)%nat then ∅
  else list_to_set (map id events).

Definition allChecked (events : list TimelineEvent) (selected : gset string)
    : bool :=
  (0 <? length events)%nat && (size selected =? length events)%nat.

(** ** Placement records up to their events *)

(** The placement record [p] with the event [f (event p)]. *)
Definition withEvent (f : TimelineEvent -> TimelineEvent)
    (p : PositionedEvent) : PositionedEvent :=
  {| event := f (event p);
     percent := percent p;
     stackIndex := stackIndex p;
     clusterSize := clusterSize p;
     truncated := truncated p |}.

(** The pair of [f ev] with the percentage of [ev]. *)
Definition mapEvent (f : TimelineEvent -> TimelineEvent) (te : TeamEvent.t)
    : TeamEvent.t :=
  TeamEvent.mk (f (TeamEvent.event te)) (TeamEvent.percent te).

(** The event that [loadState] makes of [e]: [{ ...e, lane: e.lane ?? 1 }]. *)
Definition migrated (e : TimelineEvent) : TimelineEvent :=
  {| id := id e; date := date e; team := team e;
     description := description e;
     lane := Some (default 1 (lane e)) |}.

(** Where a placement record puts its event. *)
Definition placement (p : PositionedEvent) : Q * nat * nat * bool :=
  (percent p, stackIndex p, clusterSize p, truncated p).

(** ** More sample data *)

Module Demo.

(** Three red events of one day, at 0 percent, and the record of the
    third. *)
Definition threeNear : list TeamEvent.t :=
  [TeamEvent.mk (Sample.mkEvent "a" "2024-01-01" "red" 1) 0;
   TeamEvent.mk (Sample.mkEvent "b" "2024-01-01" "red" 2) 0;
   TeamEvent.mk (Sample.mkEvent "c" "2024-01-01" "red" 3) 0].

Definition third : PositionedEvent :=
  place 3 2 (TeamEvent.mk (Sample.mkEvent "c" "2024-01-01" "red" 3) 0).

(** The event [e] without its description. *)
Definition blanked (e : TimelineEvent) : TimelineEvent :=
  {| id := id e; date := date e; team := team e;
     description := EmptyString; lane := lane e |}.

(** A comparator for examples: shorter strings first. *)
Definition byLength (a b : string) : Z :=
  Z.of_nat (String.length a) - Z.of_nat (String.length b).

(** [(dayIndex / totalDays) * 100] as the doubles compute it: the
    quotient is rounded, and so is the product. *)
Definition linearDouble (dayIndex totalDays : Z) : Q :=
  toDouble (toDouble (ofZ dayIndex / ofZ totalDays) * 100).

(** The doubles 0.33333333333333337, 1.8333333333333333 and
    3.5000000000000004. *)
Definition day2of600 : Q := 3002399751580331 # 9007199254740992.
Definition day11of600 : Q := 8256599316845909 # 4503599627370496.
Definition day7of200 : Q := 7881299347898369 # 2251799813685248.

(** A range that starts on a Friday. *)
Definition fromFriday : TimelineConfig :=
  {| startDate := "2024-01-05"; endDate := "2024-01-31";
     title := "Assessment" |}.

End Demo.

(** * Properties *)

(** ** Rational arithmetic of the mappers *)

Lemma Qltb_lt (x y : Q) : Qltb x y = true <-> (x < y)%Q.
Proof.
  unfold Qltb. rewrite Qlt_alt.
  destruct (x ?= y)%Q; split; congruence.
Qed.

Lemma Qltb_ge (x y : Q) : Qltb x y = false <-> (y <= x)%Q.
Proof.
  rewrite <- not_true_iff_false, Qltb_lt. split.
  - apply Qnot_lt_le.
  - apply Qle_not_lt.
Qed.

Lemma ofZ_pos (t : Z) : 0 < t -> (0 < ofZ t)%Q.
Proof.
  intros H. unfold ofZ. change 0%Q with (inject_Z 0).
  rewrite <- Zlt_Qlt. exact H.
Qed.

Lemma ratio_mono (x y t : Z) :
  0 < t -> x <= y -> (ofZ x / ofZ t <= ofZ y / ofZ t)%Q.
Proof.
  intros Ht Hxy. unfold Qdiv. apply Qmult_le_compat_r.
  - unfold ofZ. rewrite <- Zle_Qle. exact Hxy.
  - apply Qlt_le_weak, Qinv_lt_0_compat, ofZ_pos, Ht.
Qed.

Lemma ratio_lt (x y t : Z) :
  0 < t -> x < y -> (ofZ x / ofZ t < ofZ y / ofZ t)%Q.
Proof.
  intros Ht Hxy. unfold Qdiv. apply Qmult_lt_compat_r.
  - apply Qinv_lt_0_compat, ofZ_pos, Ht.
  - unfold ofZ. rewrite <- Zlt_Qlt. exact Hxy.
Qed.

Lemma ratio_zero (t : Z) : (ofZ 0 / ofZ t == 0)%Q.
Proof. unfold Qdiv, ofZ. change (inject_Z 0) with 0%Q. ring. Qed.

Lemma ratio_one (t : Z) : 0 < t -> (ofZ t / ofZ t == 1)%Q.
Proof.
  intros Ht. unfold Qdiv. apply Qmult_inv_r.
  intros E. pose proof (ofZ_pos t Ht) as P. rewrite E in P. discriminate.
Qed.

Lemma ratio_one_inv (x t : Z) : 0 < t -> (ofZ x / ofZ t == 1)%Q -> x = t.
Proof.
  intros Ht H. pose proof (ratio_one t Ht) as One.
  destruct (Z.lt_trichotomy x t) as [L | [E | G]]; [| exact E |].
  - pose proof (ratio_lt x t t Ht L). lra.
  - pose proof (ratio_lt t x t Ht G). lra.
Qed.

(** ** Rounding to the nearest double *)

Lemma pow2_pos (e : Z) : (0 < pow2 e)%Q.
Proof. apply Qpower_0_lt. reflexivity. Qed.

Lemma pow2_add (a b : Z) : (pow2 (a + b) == pow2 a * pow2 b)%Q.
Proof. apply Qpower_plus. discriminate. Qed.

Lemma pow2_le (a b : Z) : a <= b -> (pow2 a <= pow2 b)%Q.
Proof. intros H. apply Qpower_le_compat_l; [exact H | discriminate]. Qed.

Lemma pow2_Z (e : Z) : 0 <= e -> (pow2 e == inject_Z (2 ^ e))%Q.
Proof. intros H. unfold pow2. rewrite (Zpower_Qpower 2 e H). reflexivity. Qed.

Lemma pow2_sub_Z (a b : Z) :
  0 <= a -> 0 <= b -> (pow2 (a - b) == inject_Z (2 ^ a) / inject_Z (2 ^ b))%Q.
Proof.
  intros Ha Hb. replace (a - b) with (a + - b) by lia.
  rewrite pow2_add. unfold pow2 at 2. rewrite Qpower_opp.
  fold (pow2 b). rewrite (pow2_Z a Ha), (pow2_Z b Hb). reflexivity.
Qed.

(** [2 ^ exponent q <= q < 2 ^ (exponent q + 1)]. *)
Lemma exponent_spec (q : Q) :
  (0 < q)%Q -> (pow2 (exponent q) <= q)%Q /\ (q < pow2 (exponent q + 1))%Q.
Proof.
  intros Hq. destruct q as [n d]. unfold exponent. cbn [Qnum Qden].
  assert (0 < n) as Hn.
  { unfold Qlt in Hq. cbn in Hq. lia. }
  pose proof (Z.log2_spec n Hn) as [Ln Un].
  pose proof (Z.log2_spec (Z.pos d) ltac:(lia)) as [Ld Ud].
  pose proof (Z.log2_nonneg n) as Nn.
  pose proof (Z.log2_nonneg (Z.pos d)) as Nd.
  set (ln := Z.log2 n) in *. set (ld := Z.log2 (Z.pos d)) in *.
  assert (0 < 2 ^ ln) as Pn by (apply Z.pow_pos_nonneg; lia).
  assert (0 < 2 ^ ld) as Pd by (apply Z.pow_pos_nonneg; lia).
  assert (pow2 (ln - ld - 1) <= n # d)%Q as Hlow.
  { replace (ln - ld - 1) with (ln - (ld + 1)) by lia.
    rewrite pow2_sub_Z by lia.
    apply Qle_shift_div_r.
    - change 0%Q with (inject_Z 0). rewrite <- Zlt_Qlt.
      apply Z.pow_pos_nonneg; lia.
    - replace (Z.succ ld) with (ld + 1) in Ud by lia.
      remember (2 ^ ln) as A. remember (2 ^ (ld + 1)) as B.
      unfold Qle, Qmult, inject_Z. cbn [Qnum Qden].
      rewrite Pos.mul_1_r. nia. }
  assert (n # d < pow2 (ln - ld + 1))%Q as Hup.
  { replace (ln - ld + 1) with ((ln + 1) - ld) by lia.
    rewrite pow2_sub_Z by lia.
    apply Qlt_shift_div_l.
    - change 0%Q with (inject_Z 0). rewrite <- Zlt_Qlt. exact Pd.
    - replace (Z.succ ln) with (ln + 1) in Un by lia.
      remember (2 ^ (ln + 1)) as A. remember (2 ^ ld) as B.
      unfold Qlt, Qmult, inject_Z. cbn [Qnum Qden].
      rewrite Pos.mul_1_r. nia. }
  destruct (Qle_bool (pow2 (ln - ld)) (n # d)) eqn:E.
  - apply Qle_bool_iff in E. split; assumption.
  - split; [exact Hlow |].
    replace (ln - ld - 1 + 1) with (ln - ld) by lia.
    apply Qnot_le_lt. intros H. apply Qle_bool_iff in H. congruence.
Qed.

Lemma inject_Z_pred (k : Z) : (inject_Z (k - 1) == inject_Z k - 1)%Q.
Proof.
  unfold Z.sub. rewrite inject_Z_plus, inject_Z_opp. reflexivity.
Qed.

Lemma roundHalfEven_bounds (q : Q) :
  Qfloor q <= roundHalfEven q <= Qfloor q + 1.
Proof.
  unfold roundHalfEven.
  destruct (q - inject_Z (Qfloor q) ?= 1 # 2)%Q; [| lia | lia].
  destruct (Z.even (Qfloor q)); lia.
Qed.

Lemma roundHalfEven_ge (q : Q) (k : Z) :
  (inject_Z k <= q)%Q -> k <= roundHalfEven q.
Proof.
  intros H. pose proof (roundHalfEven_bounds q) as [B _].
  apply Qfloor_resp_le in H. rewrite Qfloor_Z in H. lia.
Qed.

Lemma roundHalfEven_le (q : Q) (k : Z) :
  (q <= inject_Z k)%Q -> roundHalfEven q <= k.
Proof.
  intros H. pose proof (roundHalfEven_bounds q) as [_ B].
  pose proof (Qfloor_le q) as Hf.
  assert (Qfloor q <= k) as Hk.
  { apply Qfloor_resp_le in H. rewrite Qfloor_Z in H. exact H. }
  destruct (Z.eq_dec (Qfloor q) k) as [E | E]; [| lia].
  unfold roundHalfEven. rewrite E.
  assert (q - inject_Z k <= 0)%Q as H0 by lra.
  destruct (q - inject_Z k ?= 1 # 2)%Q eqn:C; [| lia |].
  - apply Qeq_alt in C. lra.
  - apply Qgt_alt in C. lra.
Qed.

Lemma roundHalfEven_below (q : Q) (k : Z) :
  (q < inject_Z k - (1 # 2))%Q -> roundHalfEven q < k.
Proof.
  intros H. pose proof (roundHalfEven_bounds q) as [_ B].
  pose proof (Qfloor_le q) as Hf.
  assert (Qfloor q < k) as Hk.
  { rewrite Zlt_Qlt. lra. }
  destruct (Z.eq_dec (Qfloor q) (k - 1)) as [E | E]; [| lia].
  unfold roundHalfEven. rewrite E.
  assert (q - inject_Z (k - 1) < 1 # 2)%Q as H0.
  { rewrite inject_Z_pred. lra. }
  destruct (q - inject_Z (k - 1) ?= 1 # 2)%Q eqn:C; [| lia |].
  - apply Qeq_alt in C. lra.
  - apply Qgt_alt in C. lra.
Qed.

Lemma roundHalfEven_above (q : Q) (k : Z) :
  Z.even k = true -> (inject_Z k - (1 # 2) <= q)%Q -> k <= roundHalfEven q.
Proof.
  intros Hev H. pose proof (roundHalfEven_bounds q) as [B _].
  pose proof (Qlt_floor q) as Hf.
  assert (k - 1 <= Qfloor q) as Hk.
  { assert (inject_Z (k - 1) <= q)%Q as H1.
    { rewrite inject_Z_pred. lra. }
    apply Qfloor_resp_le in H1. rewrite Qfloor_Z in H1. exact H1. }
  destruct (Z.eq_dec (Qfloor q) (k - 1)) as [E | E]; [| lia].
  unfold roundHalfEven. rewrite E.
  assert (1 # 2 <= q - inject_Z (k - 1))%Q as H0.
  { rewrite inject_Z_pred. lra. }
  destruct (q - inject_Z (k - 1) ?= 1 # 2)%Q eqn:C; [| | lia].
  - replace (Z.even (k - 1)) with false; [lia |].
    rewrite Z.even_sub, Hev. reflexivity.
  - apply Qlt_alt in C. lra.
Qed.

Lemma magnitude_nonneg (a : Q) : (0 <= a)%Q -> (0 <= magnitude a)%Q.
Proof.
  intros Ha. unfold magnitude. cbv zeta.
  apply Qmult_le_0_compat; [| apply Qlt_le_weak, pow2_pos].
  change 0%Q with (inject_Z 0). rewrite <- Zle_Qle.
  apply roundHalfEven_ge. change (inject_Z 0) with 0%Q.
  apply Qle_shift_div_l; [apply pow2_pos |]. rewrite Qmult_0_l. exact Ha.
Qed.

Lemma toDouble_abs (q : Q) :
  ~ (q == 0)%Q -> (Qabs (toDouble q) == magnitude (Qabs q))%Q.
Proof.
  intros Hq. unfold toDouble.
  destruct (Qeq_bool q 0) eqn:E; [apply Qeq_bool_iff in E; contradiction |].
  pose proof (magnitude_nonneg (Qabs q) (Qabs_nonneg q)) as Hr.
  destruct (Qltb q 0).
  - rewrite Qabs_opp. apply Qabs_pos, Hr.
  - apply Qabs_pos, Hr.
Qed.

(** Where the rounded magnitude falls below 1.5: the doubles next to 1.5
    are [1.5 - 2 ^ -52] and 1.5 itself, and the midpoint goes to 1.5,
    whose significand is even. *)
Lemma magnitude_threshold (a : Q) :
  (0 < a)%Q ->
  (magnitude a < 3 # 2)%Q <-> (a < (3 # 2) - pow2 (-53))%Q.
Proof.
  intros Ha. destruct (exponent_spec a Ha) as [Hlo Hhi].
  unfold magnitude. cbv zeta.
  set (e' := exponent a) in *. set (e := Z.max e' (-1022)).
  pose proof (pow2_pos (e - 52)) as Hu.
  set (u := pow2 (e - 52)) in *.
  set (m := (a / u)%Q).
  assert (a == m * u)%Q as Ham.
  { unfold m. field. intros Z0. rewrite Z0 in Hu. discriminate. }
  assert (pow2 (-53) == 1 # 9007199254740992)%Q as E53 by reflexivity.
  destruct (Z_lt_le_dec e' 0) as [Hneg | Hnn].
  - (* a < 1: the result is at most 1 *)
    assert (a < 1)%Q as Ha1.
    { eapply Qlt_le_trans; [exact Hhi |].
      change 1%Q with (pow2 0). apply pow2_le. lia. }
    assert (e <= -1) as He by lia.
    assert (m <= inject_Z (2 ^ 53))%Q as Hm.
    { unfold m. apply Qle_shift_div_r; [exact Hu |].
      rewrite <- (pow2_Z 53) by lia. unfold u. rewrite <- pow2_add.
      apply Qlt_le_weak. eapply Qlt_le_trans; [exact Hhi |].
      apply pow2_le. lia. }
    apply roundHalfEven_le in Hm.
    assert (inject_Z (roundHalfEven m) * u <= 1)%Q as Hr.
    { apply Qle_trans with (inject_Z (2 ^ 53) * u)%Q.
      - apply Qmult_le_compat_r; [| apply Qlt_le_weak, Hu].
        rewrite <- Zle_Qle. exact Hm.
      - rewrite <- (pow2_Z 53) by lia. unfold u. rewrite <- pow2_add.
        change 1%Q with (pow2 0). apply pow2_le. lia. }
    rewrite E53. split; intros _; lra.
  - destruct (Z.eq_dec e' 0) as [E0 | E0].
    + (* 1 <= a < 2 *)
      assert (e = 0) as He by lia.
      assert (u == 1 # 4503599627370496)%Q as Eu.
      { unfold u. rewrite He. reflexivity. }
      rewrite E53. split.
      * intros H. apply Qnot_le_lt. intros Hge.
        assert (3 * 2 ^ 51 <= roundHalfEven m) as Hk.
        { apply roundHalfEven_above; [reflexivity |].
          unfold m. apply Qle_shift_div_l; [exact Hu |]. rewrite Eu.
          change (inject_Z (3 * 2 ^ 51)) with (6755399441055744 # 1)%Q.
          lra. }
        rewrite Zle_Qle in Hk.
        change (inject_Z (3 * 2 ^ 51)) with (6755399441055744 # 1)%Q in Hk.
        rewrite Eu in H. lra.
      * intros H.
        assert (roundHalfEven m < 3 * 2 ^ 51) as Hk.
        { apply roundHalfEven_below.
          unfold m. apply Qlt_shift_div_r; [exact Hu |]. rewrite Eu.
          change (inject_Z (3 * 2 ^ 51)) with (6755399441055744 # 1)%Q.
          lra. }
        assert (roundHalfEven m <= 3 * 2 ^ 51 - 1) as Hk' by lia.
        rewrite Zle_Qle in Hk'.
        change (inject_Z (3 * 2 ^ 51 - 1)) with (6755399441055743 # 1)%Q in Hk'.
        rewrite Eu. lra.
    + (* 2 <= a: the result is at least 2 *)
      assert (1 <= e') as Hpos by lia. assert (e = e') as He by lia.
      assert (2 <= a)%Q as Ha2.
      { eapply Qle_trans; [| exact Hlo].
        change 2%Q with (pow2 1). apply pow2_le. lia. }
      assert (inject_Z (2 ^ 52) <= m)%Q as Hm.
      { unfold m. apply Qle_shift_div_l; [exact Hu |].
        rewrite <- (pow2_Z 52) by lia. unfold u. rewrite <- pow2_add.
        replace (52 + (e - 52)) with e' by lia. exact Hlo. }
      apply roundHalfEven_ge in Hm.
      assert (2 <= inject_Z (roundHalfEven m) * u)%Q as Hr.
      { apply Qle_trans with (inject_Z (2 ^ 52) * u)%Q.
        - rewrite <- (pow2_Z 52) by lia. unfold u. rewrite <- pow2_add.
          change 2%Q with (pow2 1). apply pow2_le. lia.
        - apply Qmult_le_compat_r; [| apply Qlt_le_weak, Hu].
          rewrite <- Zle_Qle. exact Hm. }
      rewrite E53. split; intros H; lra.
Qed.

(** The rounded difference is below 1.5 in absolute value exactly when
    the difference itself is below [1.5 - 2 ^ -53]. *)
Lemma toDouble_threshold (d : Q) :
  (Qabs (toDouble d) < 3 # 2)%Q <-> (Qabs d < (3 # 2) - pow2 (-53))%Q.
Proof.
  destruct (Qeq_dec d 0) as [E | E].
  - assert (toDouble d = 0%Q) as ->.
    { unfold toDouble. apply Qeq_bool_iff in E. rewrite E. reflexivity. }
    rewrite E. split; intros _; reflexivity.
  - rewrite (toDouble_abs d E). apply magnitude_threshold.
    destruct (Qlt_le_dec 0 d) as [Hp | Hn].
    + rewrite Qabs_pos by lra. exact Hp.
    + rewrite Qabs_neg by exact Hn.
      assert (d < 0)%Q; [| lra].
      apply Qle_lteq in Hn as [Hn | Hn]; [exact Hn | contradiction].
Qed.

Lemma near_exact (first ev : TeamEvent.t) :
  near first ev = true
  <-> (Qabs (TeamEvent.percent ev - TeamEvent.percent first)
       < (3 # 2) - pow2 (-53))%Q.
Proof.
  unfold near. rewrite Qltb_lt.
  assert (PROXIMITY_THRESHOLD_PCT == 3 # 2)%Q as E by reflexivity.
  rewrite E. apply toDouble_threshold.
Qed.

Lemma near_rounded (first ev : TeamEvent.t) :
  near first ev = true
  <-> (Qabs (toDouble (TeamEvent.percent ev - TeamEvent.percent first))
       < PROXIMITY_THRESHOLD_PCT)%Q.
Proof. unfold near. apply Qltb_lt. Qed.

(** ** The linear-by-day mapper *)

Lemma dayToLinearPercent_degenerate (day start total : Z) :
  total <= 0 -> dayToLinearPercent day start total = 0%Q.
Proof.
  intros H. unfold dayToLinearPercent.
  destruct (Z.leb_spec total 0); [reflexivity | lia].
Qed.

Lemma dayToLinearPercent_formula (day start total : Z) :
  0 < total ->
  dayToLinearPercent day start total
  = (ofZ (day - start) / ofZ total * 100)%Q.
Proof.
  intros H. unfold dayToLinearPercent, differenceInCalendarDays.
  destruct (Z.leb_spec total 0); [lia | reflexivity].
Qed.

Lemma dayToLinearPercent_mono (a b start total : Z) :
  a <= b ->
  (dayToLinearPercent a start total <= dayToLinearPercent b start total)%Q.
Proof.
  intros Hab. destruct (Z.leb_spec total 0) as [Ht | Ht].
  - rewrite !dayToLinearPercent_degenerate by exact Ht. apply Qle_refl.
  - rewrite !dayToLinearPercent_formula by exact Ht.
    apply Qmult_le_compat_r; [| discriminate].
    apply ratio_mono; lia.
Qed.

Lemma dayToLinearPercent_start (start total : Z) :
  (dayToLinearPercent start start total == 0)%Q.
Proof.
  destruct (Z.leb_spec total 0) as [Ht | Ht].
  - rewrite dayToLinearPercent_degenerate by exact Ht. reflexivity.
  - rewrite dayToLinearPercent_formula by exact Ht.
    rewrite Z.sub_diag, ratio_zero. reflexivity.
Qed.

Lemma dayToLinearPercent_end (start total : Z) :
  0 < total -> (dayToLinearPercent (start + total)%Z start total == 100)%Q.
Proof.
  intros Ht. rewrite dayToLinearPercent_formula by exact Ht.
  replace (start + total - start) with total by lia.
  rewrite ratio_one by exact Ht. reflexivity.
Qed.

(** ** The clusters of [assignPositions] *)

Lemma clusterStep_nil (ev : TeamEvent.t) : clusterStep [] ev = [[ev]].
Proof. reflexivity. Qed.

Lemma clusterStep_open (closed : list (list TeamEvent.t))
    (first : TeamEvent.t) (rest : list TeamEvent.t) (ev : TeamEvent.t) :
  clusterStep (closed ++ [first :: rest]) ev
  = if near first ev then closed ++ [first :: rest ++ [ev]]
    else closed ++ [first :: rest; [ev]].
Proof.
  unfold clusterStep. rewrite last_snoc.
  destruct (near first ev).
  - rewrite length_app. simpl length.
    rewrite insert_app_r_alt by lia.
    replace (length closed + 1 - 1 - length closed)%nat with 0%nat by lia.
    reflexivity.
  - rewrite <- app_assoc. reflexivity.
Qed.

Lemma formClusters_snoc (tes : list TeamEvent.t) (ev : TeamEvent.t) :
  formClusters (tes ++ [ev]) = clusterStep (formClusters tes) ev.
Proof. unfold formClusters. rewrite fold_left_app. reflexivity. Qed.

(** After the first event there is always an open cluster, and it has a
    first member. *)
Lemma formClusters_open (tes : list TeamEvent.t) :
  tes <> [] ->
  exists closed first rest, formClusters tes = closed ++ [first :: rest].
Proof.
  induction tes as [| ev tes IH] using rev_ind; [congruence |].
  intros _. rewrite formClusters_snoc.
  destruct tes as [| t0 tes0].
  - exists [], ev, []. reflexivity.
  - destruct IH as (closed & first & rest & E); [destruct tes0; discriminate |].
    rewrite E, clusterStep_open. destruct (near first ev).
    + exists closed, first, (rest ++ [ev]). reflexivity.
    + exists (closed ++ [first :: rest]), ev, [].
      rewrite <- app_assoc. reflexivity.
Qed.

Lemma formClusters_nonempty (tes : list TeamEvent.t) :
  Forall (fun cluster => cluster <> []) (formClusters tes).
Proof.
  induction tes as [| ev tes IH] using rev_ind; [constructor |].
  rewrite formClusters_snoc.
  destruct tes as [| t0 tes0].
  - repeat constructor. discriminate.
  - destruct (formClusters_open (t0 :: tes0)) as (closed & first & rest & E);
      [discriminate |].
    rewrite E in IH |- *. rewrite clusterStep_open.
    apply Forall_app in IH as [Hc _].
    destruct (near first ev); apply Forall_app; split; try exact Hc;
      repeat constructor; discriminate.
Qed.

Lemma formClusters_concat (tes : list TeamEvent.t) :
  concat (formClusters tes) = tes.
Proof.
  induction tes as [| ev tes IH] using rev_ind; [reflexivity |].
  rewrite formClusters_snoc.
  destruct tes as [| t0 tes0]; [reflexivity |].
  destruct (formClusters_open (t0 :: tes0)) as (closed & first & rest & E);
    [discriminate |].
  rewrite E in IH |- *. rewrite clusterStep_open, <- IH.
  destruct (near first ev); rewrite !concat_app; simpl;
    rewrite ?app_nil_r, <- ?app_assoc; reflexivity.
Qed.

Lemma fold_left_push {A B} (f : A -> list B) (l : list A) (acc : list B) :
  fold_left (fun result x => result ++ f x) l acc = acc ++ concat (map f l).
Proof.
  revert acc. induction l as [| x l IH]; intros acc; simpl.
  - rewrite app_nil_r. reflexivity.
  - rewrite IH, <- app_assoc. reflexivity.
Qed.

Lemma assignPositions_concat (tes : list TeamEvent.t) :
  assignPositions tes = concat (map stackCluster (formClusters tes)).
Proof. unfold assignPositions. rewrite fold_left_push. reflexivity. Qed.

Lemma imap_teamEventOf (g : nat -> TeamEvent.t -> PositionedEvent)
    (cluster : list TeamEvent.t) :
  (forall i ev, teamEventOf (g i ev) = ev) ->
  map teamEventOf (imap g cluster) = cluster.
Proof.
  revert g. induction cluster as [| ev cluster IH]; intros g Hg; simpl.
  - reflexivity.
  - rewrite Hg, IH; [reflexivity |]. intros i ev'. apply Hg.
Qed.

Lemma stackCluster_teamEventOf (cluster : list TeamEvent.t) :
  map teamEventOf (stackCluster cluster) = cluster.
Proof.
  unfold stackCluster. apply imap_teamEventOf.
  intros i [e p]. reflexivity.
Qed.

(** [assignPositions] keeps every pair, in order. *)
Lemma assignPositions_teamEventOf (tes : list TeamEvent.t) :
  map teamEventOf (assignPositions tes) = tes.
Proof.
  rewrite assignPositions_concat.
  rewrite <- (formClusters_concat tes) at 2.
  induction (formClusters tes) as [| c cs IH]; simpl; [reflexivity |].
  rewrite map_app, stackCluster_teamEventOf, IH. reflexivity.
Qed.

(** ** The resolver: sorting and the split by team *)

Lemma sortInsert_perm {A} (cmp : A -> A -> Z) (a : A) (l : list A) :
  sortInsert cmp a l ≡ₚ a :: l.
Proof.
  induction l as [| x l IH]; simpl; [reflexivity |].
  destruct (0 <? cmp a x)%Z; [| reflexivity].
  rewrite IH. apply Permutation_swap.
Qed.

Lemma sort_perm {A} (cmp : A -> A -> Z) (l : list A) : sort cmp l ≡ₚ l.
Proof.
  induction l as [| a l IH]; simpl; [reflexivity |].
  rewrite sortInsert_perm, IH. reflexivity.
Qed.

Lemma filter_perm {A} (f : A -> bool) (l l' : list A) :
  l ≡ₚ l' -> List.filter f l ≡ₚ List.filter f l'.
Proof.
  induction 1 as [| x l l' _ IH | x y l | l l' l'' _ IH1 _ IH2]; simpl.
  - reflexivity.
  - destruct (f x); [constructor |]; exact IH.
  - destruct (f x), (f y); try reflexivity. apply Permutation_swap.
  - etransitivity; eassumption.
Qed.

Lemma filter_split_perm {A} (f : A -> bool) (l : list A) :
  List.filter f l ++ List.filter (fun x => negb (f x)) l ≡ₚ l.
Proof.
  induction l as [| x l IH]; simpl; [reflexivity |].
  destruct (f x); simpl.
  - constructor. exact IH.
  - rewrite <- Permutation_middle. constructor. exact IH.
Qed.

Section SortFacts.
Variable parseISO : string -> Date.

Lemma byDate_pos (a b : TimelineEvent) :
  (0 <? byDate parseISO a b) = (dayOf parseISO b <? dayOf parseISO a).
Proof.
  unfold byDate, getTime, dayOf.
  destruct (Z.ltb_spec 0 (parseISO (date a) * 86400000
                          - parseISO (date b) * 86400000)),
    (Z.ltb_spec (parseISO (date b)) (parseISO (date a)));
    try reflexivity; lia.
Qed.

(** The timestamp that the comparator reads from an event. *)
Lemma byTimestamp_pos (time : string -> Z) (a b : TimelineEvent) :
  (0 <? byTimestamp time a b) = (time (date b) <? time (date a)).
Proof.
  unfold byTimestamp.
  destruct (Z.ltb_spec 0 (time (date a) - time (date b))),
    (Z.ltb_spec (time (date b)) (time (date a)));
    try reflexivity; lia.
Qed.

Lemma byDate_byTimestamp :
  byDate parseISO = byTimestamp (fun s => getTime (parseISO s)).
Proof. reflexivity. Qed.

Lemma sortInsert_sorted (time : string -> Z) (a : TimelineEvent)
    (l : list TimelineEvent) :
  Sorted (fun x y => time (date x) <= time (date y)) l ->
  Sorted (fun x y => time (date x) <= time (date y))
         (sortInsert (byTimestamp time) a l).
Proof.
  induction 1 as [| x l Hs IH Hhd]; simpl.
  - repeat constructor.
  - rewrite byTimestamp_pos.
    destruct (Z.ltb_spec (time (date x)) (time (date a))) as [Hlt | Hge].
    + constructor; [exact IH |].
      destruct l as [| y l]; simpl.
      * constructor. lia.
      * rewrite byTimestamp_pos.
        destruct (Z.ltb_spec (time (date y)) (time (date a))).
        -- constructor. inversion Hhd; assumption.
        -- constructor. lia.
    + constructor; [constructor; assumption |]. constructor. exact Hge.
Qed.

Lemma sortInsert_stable (time : string -> Z) (k : Z) (a : TimelineEvent)
    (l : list TimelineEvent) :
  List.filter (fun e => time (date e) =? k)
              (sortInsert (byTimestamp time) a l)
  = List.filter (fun e => time (date e) =? k) (a :: l).
Proof.
  induction l as [| x l IH]; [reflexivity |].
  cbn [sortInsert]. rewrite byTimestamp_pos.
  destruct (Z.ltb_spec (time (date x)) (time (date a))) as [Hlt | Hge];
    [| reflexivity].
  cbn [List.filter] in *. rewrite IH.
  destruct (Z.eqb_spec (time (date x)) k),
    (Z.eqb_spec (time (date a)) k); try reflexivity.
  lia.
Qed.

(** The sort of [getEventPositions] is the stable sort by timestamp.  For
    every reading [time] of [parseISO(date).getTime()], with or without a
    time of day, the result is a permutation of the events in
    non-decreasing order of their timestamps, and the events that have
    one timestamp keep their order.  The comparator [byDate] is the one
    whose timestamps are those of the start of the day. *)
Theorem sort_by_date_is_stable (events : list TimelineEvent) :
  (forall time : string -> Z,
     sort (byTimestamp time) events ≡ₚ events
     /\ Sorted (fun x y => time (date x) <= time (date y))
               (sort (byTimestamp time) events)
     /\ (forall k : Z,
           List.filter (fun e => time (date e) =? k)
                       (sort (byTimestamp time) events)
           = List.filter (fun e => time (date e) =? k) events))
  /\ sort (byDate parseISO) events
     = sort (byTimestamp (fun s => getTime (parseISO s))) events.
Proof.
  split; [| reflexivity].
  intros time. split; [apply sort_perm |]. split.
  - induction events as [| a l IH]; simpl; [constructor |].
    apply sortInsert_sorted, IH.
  - intros k. induction events as [| a l IH]; [reflexivity |].
    cbn [sort foldr]. fold (sort (byTimestamp time) l).
    rewrite sortInsert_stable. cbn [List.filter]. rewrite IH. reflexivity.
Qed.
End SortFacts.

Section ResolverFacts.
Variable parseISO : string -> Date.
Variable toPercent : Date -> Q.

Lemma teamStep_fold (l : list TimelineEvent) (r b : list TeamEvent.t) :
  fold_left (teamStep parseISO toPercent) l (r, b)
  = (r ++ map (withPercent parseISO toPercent) (List.filter isRed l),
     b ++ map (withPercent parseISO toPercent) (List.filter notRed l)).
Proof.
  revert r b. induction l as [| ev l IH]; intros r b; simpl.
  - rewrite !app_nil_r. reflexivity.
  - unfold teamStep at 2, notRed. simpl. destruct (isRed ev); simpl;
      rewrite IH, <- app_assoc; reflexivity.
Qed.

Lemma getEventPositions_red (events : list TimelineEvent) :
  Positions.red (getEventPositions parseISO events toPercent)
  = assignPositions
      (map (withPercent parseISO toPercent)
           (List.filter isRed (sort (byDate parseISO) events))).
Proof. unfold getEventPositions. rewrite teamStep_fold. reflexivity. Qed.

Lemma getEventPositions_blue (events : list TimelineEvent) :
  Positions.blue (getEventPositions parseISO events toPercent)
  = assignPositions
      (map (withPercent parseISO toPercent)
           (List.filter notRed (sort (byDate parseISO) events))).
Proof. unfold getEventPositions. rewrite teamStep_fold. reflexivity. Qed.

Lemma assignPositions_events (l : list TimelineEvent) :
  map event (assignPositions (map (withPercent parseISO toPercent) l)) = l.
Proof.
  transitivity
    (map TeamEvent.event
       (map teamEventOf
          (assignPositions (map (withPercent parseISO toPercent) l)))).
  - rewrite map_map. reflexivity.
  - rewrite assignPositions_teamEventOf, map_map. simpl. apply map_id.
Qed.

(** The percentage of a placement record is the mapper's value at the
    record's own date. *)
Lemma assignPositions_percent (l : list TimelineEvent) (p : PositionedEvent) :
  In p (assignPositions (map (withPercent parseISO toPercent) l)) ->
  percent p = toPercent (parseISO (date (event p))).
Proof.
  intros Hin.
  assert (In (teamEventOf p) (map (withPercent parseISO toPercent) l)) as H.
  { rewrite <- assignPositions_teamEventOf. apply in_map. exact Hin. }
  apply in_map_iff in H as (ev & E & _).
  unfold withPercent, teamEventOf in E. injection E as E1 E2.
  rewrite <- E2, E1. reflexivity.
Qed.
End ResolverFacts.

(** ** Stacking inside a cluster *)

Lemma stackCluster_lookup (cluster : list TeamEvent.t) (i : nat)
    (ev : TeamEvent.t) :
  cluster !! i = Some ev ->
  stackCluster cluster !! i = Some (place (length cluster) i ev).
Proof.
  intros H. unfold stackCluster. rewrite list_lookup_imap, H. reflexivity.
Qed.

Lemma place_truncated (size i : nat) (ev : TeamEvent.t) :
  truncated (place size i ev) = true
  <-> (CLUSTER_VISIBLE_LIMIT < size)%nat /\ (CLUSTER_VISIBLE_LIMIT <= i)%nat.
Proof.
  cbn [truncated place].
  rewrite andb_true_iff, Nat.ltb_lt, Nat.leb_le. reflexivity.
Qed.

(** Five events within the threshold of the first one form one cluster. *)
Lemma formClusters_five (a0 a1 a2 a3 a4 : TeamEvent.t) :
  near a0 a1 = true -> near a0 a2 = true ->
  near a0 a3 = true -> near a0 a4 = true ->
  formClusters [a0; a1; a2; a3; a4] = [[a0; a1; a2; a3; a4]].
Proof.
  intros H1 H2 H3 H4.
  pose proof (clusterStep_open [] a0 []) as S1.
  pose proof (clusterStep_open [] a0 [a1]) as S2.
  pose proof (clusterStep_open [] a0 [a1; a2]) as S3.
  pose proof (clusterStep_open [] a0 [a1; a2; a3]) as S4.
  simpl in S1, S2, S3, S4.
  unfold formClusters. simpl.
  rewrite S1, H1, S2, H2, S3, H3, S4, H4. reflexivity.
Qed.

Lemma assignPositions_five (a0 a1 a2 a3 a4 : TeamEvent.t) :
  near a0 a1 = true -> near a0 a2 = true ->
  near a0 a3 = true -> near a0 a4 = true ->
  assignPositions [a0; a1; a2; a3; a4]
  = [place 5 0 a0; place 5 1 a1; place 5 2 a2; place 5 3 a3; place 5 4 a4].
Proof.
  intros H1 H2 H3 H4. rewrite assignPositions_concat.
  rewrite formClusters_five by assumption. reflexivity.
Qed.

(** ** Overflow aggregation of a five-member cluster *)

Lemma overflows_five (a0 a1 a2 a3 a4 : TeamEvent.t) :
  overflows
    [place 5 0 a0; place 5 1 a1; place 5 2 a2; place 5 3 a3; place 5 4 a4]
  = if String.eqb (date (TeamEvent.event a4)) (date (TeamEvent.event a3))
    then [Overflow.mk (TeamEvent.percent a3) 2 overflowOffset
            [TeamEvent.event a3; TeamEvent.event a4]]
    else [Overflow.mk (TeamEvent.percent a3) 1 overflowOffset
            [TeamEvent.event a3];
          Overflow.mk (TeamEvent.percent a4) 1 overflowOffset
            [TeamEvent.event a4]].
Proof.
  unfold overflows. simpl. unfold hiddenOn. simpl.
  rewrite (bool_decide_eq_false_2 (date (TeamEvent.event a3) ∈ (∅ : gset string)))
    by set_solver.
  rewrite String.eqb_refl.
  destruct (String.eqb_spec (date (TeamEvent.event a4))
                            (date (TeamEvent.event a3))) as [E | N].
  - rewrite bool_decide_eq_true_2 by set_solver. reflexivity.
  - rewrite bool_decide_eq_false_2.
    2:{ rewrite elem_of_union, elem_of_singleton, elem_of_empty. tauto. }
    rewrite String.eqb_refl.
    destruct (String.eqb_spec (date (TeamEvent.event a3))
                              (date (TeamEvent.event a4))) as [E' | _];
      [congruence | reflexivity].
Qed.

(** ** Cluster formation *)

(** The doubles of the samples, by the Standard Library's specification
    of IEEE 754 arithmetic ([SFsub], [SFdiv], [SFmul] at 53 bits): the
    two subtractions at the threshold, and [(dayIndex / totalDays) * 100]
    for day 7 of 200 and for days 2 and 11 of 600. *)
Lemma toDouble_follows_IEEE_on_samples :
  (ofFloat (SFsub 53 1024 (S754_finite false 8256599316845909 (-52))
                          (S754_finite false 6004799503160662 (-54)))
   == toDouble (Demo.day11of600 - Demo.day2of600))%Q
  /\ (ofFloat (SFsub 53 1024 (S754_finite false 5629499534213120 (-50))
                             (S754_finite false 7881299347898369 (-51)))
      == toDouble (5 - Demo.day7of200))%Q
  /\ (ofFloat (SFmul 53 1024
                 (SFdiv 53 1024 (binary_normalize 53 1024 7 0 false)
                                (binary_normalize 53 1024 200 0 false))
                 (binary_normalize 53 1024 100 0 false))
      == Demo.linearDouble 7 200)%Q
  /\ (ofFloat (SFmul 53 1024
                 (SFdiv 53 1024 (binary_normalize 53 1024 2 0 false)
                                (binary_normalize 53 1024 600 0 false))
                 (binary_normalize 53 1024 100 0 false))
      == Demo.linearDouble 2 600)%Q
  /\ (ofFloat (SFmul 53 1024
                 (SFdiv 53 1024 (binary_normalize 53 1024 11 0 false)
                                (binary_normalize 53 1024 600 0 false))
                 (binary_normalize 53 1024 100 0 false))
      == Demo.linearDouble 11 600)%Q
  /\ (Demo.linearDouble 7 200 == Demo.day7of200)%Q
  /\ (Demo.linearDouble 2 600 == Demo.day2of600)%Q
  /\ (Demo.linearDouble 11 600 == Demo.day11of600)%Q
  /\ (Demo.linearDouble 10 200 == 5)%Q.
Proof. vm_compute. repeat split. Qed.

(** C1. Cluster formation is anchored to the first member of the open
    cluster: the first event of a team opens a cluster; every later event
    [ev] meets an open cluster [first :: rest], joins it exactly when the
    absolute difference of [percent ev] and [percent first], the double
    that [Math.abs(ev.percent - first.percent)] computes, is strictly
    below 1.5, and opens a new cluster after it otherwise.  Events at the
    percentages 0, 1 and 2.9 give the clusters [0, 1] and [2.9]; events at
    0, 1 and 2 give [0, 1] and [2], although 2 is within 1.5 of its
    predecessor. *)
Theorem C1_cluster_anchored_to_first_member :
  (forall ev : TeamEvent.t, formClusters [ev] = [[ev]])
  /\ (forall (tes : list TeamEvent.t) (ev : TeamEvent.t),
        tes <> [] ->
        exists closed first rest,
          formClusters tes = closed ++ [first :: rest]
          /\ ((Qabs (toDouble
                       (TeamEvent.percent ev - TeamEvent.percent first))
               < PROXIMITY_THRESHOLD_PCT)%Q
              /\ formClusters (tes ++ [ev])
                 = closed ++ [first :: rest ++ [ev]]
              \/ (PROXIMITY_THRESHOLD_PCT
                  <= Qabs (toDouble
                             (TeamEvent.percent ev
                              - TeamEvent.percent first)))%Q
                 /\ formClusters (tes ++ [ev])
                    = closed ++ [first :: rest; [ev]]))
  /\ (PROXIMITY_THRESHOLD_PCT == 3 # 2)%Q
  /\ (forall e0 e1 e2 : TimelineEvent,
        formClusters
          [TeamEvent.mk e0 0; TeamEvent.mk e1 1; TeamEvent.mk e2 2.9]
        = [[TeamEvent.mk e0 0; TeamEvent.mk e1 1]; [TeamEvent.mk e2 2.9]])
  /\ (forall e0 e1 e2 : TimelineEvent,
        formClusters
          [TeamEvent.mk e0 0; TeamEvent.mk e1 1; TeamEvent.mk e2 2]
        = [[TeamEvent.mk e0 0; TeamEvent.mk e1 1]; [TeamEvent.mk e2 2]]).
Proof.
  assert (PROXIMITY_THRESHOLD_PCT == 3 # 2)%Q as E15 by reflexivity.
  split; [reflexivity |]. split; [| split; [exact E15 | split]].
  - intros tes ev Hne.
    destruct (formClusters_open tes Hne) as (closed & first & rest & E).
    exists closed, first, rest. split; [exact E |].
    rewrite formClusters_snoc, E, clusterStep_open.
    pose proof (near_rounded first ev) as Hr.
    destruct (near first ev) eqn:N.
    + left. split; [apply Hr; reflexivity | reflexivity].
    + right. split; [| reflexivity].
      apply Qnot_lt_le. intros H. apply Hr in H. discriminate.
  - intros e0 e1 e2. vm_compute. reflexivity.
  - intros e0 e1 e2. vm_compute. reflexivity.
Qed.

(** The step of C1 at the sample of the specification: after the events at
    0 and 1, the event at 2.9 meets the open cluster whose first member is
    at 0. *)
Lemma C1_cluster_anchored_witness :
  exists closed first rest,
    formClusters
      [TeamEvent.mk (Sample.mkEvent "a" "2024-01-01" "red" 1) 0;
       TeamEvent.mk (Sample.mkEvent "b" "2024-01-02" "red" 1) 1]
    = closed ++ [first :: rest]
    /\ ((Qabs (toDouble (2.9 - TeamEvent.percent first))
         < PROXIMITY_THRESHOLD_PCT)%Q
        /\ formClusters
             ([TeamEvent.mk (Sample.mkEvent "a" "2024-01-01" "red" 1) 0;
               TeamEvent.mk (Sample.mkEvent "b" "2024-01-02" "red" 1) 1]
              ++ [TeamEvent.mk (Sample.mkEvent "c" "2024-01-04" "red" 1) 2.9])
           = closed ++ [first :: rest
                        ++ [TeamEvent.mk
                              (Sample.mkEvent "c" "2024-01-04" "red" 1) 2.9]]
        \/ (PROXIMITY_THRESHOLD_PCT
            <= Qabs (toDouble (2.9 - TeamEvent.percent first)))%Q
           /\ formClusters
                ([TeamEvent.mk (Sample.mkEvent "a" "2024-01-01" "red" 1) 0;
                  TeamEvent.mk (Sample.mkEvent "b" "2024-01-02" "red" 1) 1]
                 ++ [TeamEvent.mk (Sample.mkEvent "c" "2024-01-04" "red" 1)
                                  2.9])
              = closed
                ++ [first :: rest;
                    [TeamEvent.mk (Sample.mkEvent "c" "2024-01-04" "red" 1)
                                  2.9]]).
Proof.
  apply (proj1 (proj2 C1_cluster_anchored_to_first_member)
           [TeamEvent.mk (Sample.mkEvent "a" "2024-01-01" "red" 1) 0;
            TeamEvent.mk (Sample.mkEvent "b" "2024-01-02" "red" 1) 1]
           (TeamEvent.mk (Sample.mkEvent "c" "2024-01-04" "red" 1) 2.9)).
  discriminate.
Defined.

(** The test at the threshold, on the doubles of two ranges.  On a range
    of 600 days the records of days 2 and 11 hold 0.33333333333333337 and
    1.8333333333333333; the subtraction gives 1.5 and the second event
    opens a new cluster.  On a range of 200 days the records of days 7
    and 10 hold 3.5000000000000004 and 5; the subtraction gives
    1.4999999999999996 and the two events form one cluster. *)
Lemma cluster_test_at_the_threshold :
  ((Demo.linearDouble 2 600 == Demo.day2of600)%Q
   /\ (Demo.linearDouble 11 600 == Demo.day11of600)%Q
   /\ (toDouble (Demo.day11of600 - Demo.day2of600) == 3 # 2)%Q
   /\ formClusters
        [TeamEvent.mk (Sample.mkEvent "a" "2024-01-03" "red" 1)
                      Demo.day2of600;
         TeamEvent.mk (Sample.mkEvent "b" "2024-01-12" "red" 1)
                      Demo.day11of600]
      = [[TeamEvent.mk (Sample.mkEvent "a" "2024-01-03" "red" 1)
                       Demo.day2of600];
         [TeamEvent.mk (Sample.mkEvent "b" "2024-01-12" "red" 1)
                       Demo.day11of600]])
  /\ ((Demo.linearDouble 7 200 == Demo.day7of200)%Q
      /\ (Demo.linearDouble 10 200 == 5)%Q
      /\ (toDouble (5 - Demo.day7of200) == (3 # 2) - pow2 (-51))%Q
      /\ formClusters
           [TeamEvent.mk (Sample.mkEvent "a" "2024-01-08" "red" 1)
                         Demo.day7of200;
            TeamEvent.mk (Sample.mkEvent "b" "2024-01-11" "red" 1) 5]
         = [[TeamEvent.mk (Sample.mkEvent "a" "2024-01-08" "red" 1)
                          Demo.day7of200;
             TeamEvent.mk (Sample.mkEvent "b" "2024-01-11" "red" 1) 5]]).
Proof. vm_compute. repeat split. Qed.

(** ** The resolver keeps every event *)

(** C10. The resolver neither drops nor duplicates an event: the events of
    the red list are the events of team "red" of the input, in date order,
    the events of the blue list are all the other events, in date order,
    and the two lists together are a permutation of the input.  Each
    placement record holds the input record itself. *)
Theorem C10_resolver_keeps_every_event (parseISO : string -> Date)
    (events : list TimelineEvent) (toPercent : Date -> Q) :
  map event (Positions.red (getEventPositions parseISO events toPercent))
  = List.filter isRed (sort (byDate parseISO) events)
  /\ map event (Positions.blue (getEventPositions parseISO events toPercent))
     = List.filter notRed (sort (byDate parseISO) events)
  /\ map event (Positions.red (getEventPositions parseISO events toPercent))
     ≡ₚ List.filter isRed events
  /\ map event (Positions.blue (getEventPositions parseISO events toPercent))
     ≡ₚ List.filter notRed events
  /\ map event (Positions.red (getEventPositions parseISO events toPercent))
     ++ map event
          (Positions.blue (getEventPositions parseISO events toPercent))
     ≡ₚ events.
Proof.
  rewrite getEventPositions_red, getEventPositions_blue.
  rewrite !assignPositions_events.
  split; [reflexivity |]. split; [reflexivity |].
  split; [apply filter_perm, sort_perm |].
  split; [apply filter_perm, sort_perm |].
  unfold notRed. rewrite filter_split_perm. apply sort_perm.
Qed.

(** ** Stacking, truncation and the overflow descriptors *)

Lemma visible_five (a0 a1 a2 a3 a4 : TeamEvent.t) :
  map truncated
    [place 5 0 a0; place 5 1 a1; place 5 2 a2; place 5 3 a3; place 5 4 a4]
  = [false; false; false; true; true].
Proof. reflexivity. Qed.

(** Five events of one team, within the threshold of the first: their
    placement records and their overflow descriptors. *)
Lemma team_of_five (parseISO : string -> Date) (toPercent : Date -> Q)
    (m0 m1 m2 m3 m4 : TimelineEvent) :
  near (withPercent parseISO toPercent m0) (withPercent parseISO toPercent m1)
  = true ->
  near (withPercent parseISO toPercent m0) (withPercent parseISO toPercent m2)
  = true ->
  near (withPercent parseISO toPercent m0) (withPercent parseISO toPercent m3)
  = true ->
  near (withPercent parseISO toPercent m0) (withPercent parseISO toPercent m4)
  = true ->
  map (fun p => (event p, stackIndex p, truncated p))
      (assignPositions
         (map (withPercent parseISO toPercent) [m0; m1; m2; m3; m4]))
  = [(m0, 0%nat, false); (m1, 1%nat, false); (m2, 2%nat, false);
     (m3, 3%nat, true); (m4, 4%nat, true)]
  /\ overflows
       (assignPositions
          (map (withPercent parseISO toPercent) [m0; m1; m2; m3; m4]))
     = if String.eqb (date m4) (date m3)
       then [Overflow.mk (toPercent (parseISO (date m3))) 2 overflowOffset
               [m3; m4]]
       else [Overflow.mk (toPercent (parseISO (date m3))) 1 overflowOffset
               [m3];
             Overflow.mk (toPercent (parseISO (date m4))) 1 overflowOffset
               [m4]].
Proof.
  intros H1 H2 H3 H4. cbn [map].
  rewrite assignPositions_five by assumption.
  split; [reflexivity |].
  rewrite overflows_five. reflexivity.
Qed.

(** C2 (amended). Inside every cluster the members get the stack indices
    0, 1, 2, ... in cluster order, and a member is truncated exactly when
    the cluster has more than 3 members and its index is at least 3.  When
    the events of a team are five events within the threshold of the first
    one, the resolver gives the first three placement records
    [truncated = false] and the last two [truncated = true]; the overflow
    aggregation groups the truncated records by their date string: it
    gives one descriptor with [count = 2], at the percentage of the fourth
    event, when the fourth and fifth event have the same date, and two
    descriptors with [count = 1] otherwise. *)
Theorem C2_stacking_and_overflow_by_date :
  (forall tes : list TeamEvent.t,
     assignPositions tes = concat (map stackCluster (formClusters tes)))
  /\ (forall (cluster : list TeamEvent.t) (i : nat) (ev : TeamEvent.t),
        cluster !! i = Some ev ->
        exists p : PositionedEvent,
          stackCluster cluster !! i = Some p
          /\ teamEventOf p = ev
          /\ stackIndex p = i
          /\ clusterSize p = length cluster
          /\ (truncated p = true
              <-> (3 < length cluster)%nat /\ (3 <= i)%nat))
  /\ (forall (parseISO : string -> Date) (toPercent : Date -> Q)
             (events : list TimelineEvent) (m0 m1 m2 m3 m4 : TimelineEvent),
        List.filter isRed (sort (byDate parseISO) events)
        = [m0; m1; m2; m3; m4] ->
        near (withPercent parseISO toPercent m0)
             (withPercent parseISO toPercent m1) = true ->
        near (withPercent parseISO toPercent m0)
             (withPercent parseISO toPercent m2) = true ->
        near (withPercent parseISO toPercent m0)
             (withPercent parseISO toPercent m3) = true ->
        near (withPercent parseISO toPercent m0)
             (withPercent parseISO toPercent m4) = true ->
        map (fun p => (event p, stackIndex p, truncated p))
            (Positions.red (getEventPositions parseISO events toPercent))
        = [(m0, 0%nat, false); (m1, 1%nat, false); (m2, 2%nat, false);
           (m3, 3%nat, true); (m4, 4%nat, true)]
        /\ redOverflows (getEventPositions parseISO events toPercent)
           = if String.eqb (date m4) (date m3)
             then [Overflow.mk (toPercent (parseISO (date m3))) 2
                     overflowOffset [m3; m4]]
             else [Overflow.mk (toPercent (parseISO (date m3))) 1
                     overflowOffset [m3];
                   Overflow.mk (toPercent (parseISO (date m4))) 1
                     overflowOffset [m4]])
  /\ (forall (parseISO : string -> Date) (toPercent : Date -> Q)
             (events : list TimelineEvent) (m0 m1 m2 m3 m4 : TimelineEvent),
        List.filter notRed (sort (byDate parseISO) events)
        = [m0; m1; m2; m3; m4] ->
        near (withPercent parseISO toPercent m0)
             (withPercent parseISO toPercent m1) = true ->
        near (withPercent parseISO toPercent m0)
             (withPercent parseISO toPercent m2) = true ->
        near (withPercent parseISO toPercent m0)
             (withPercent parseISO toPercent m3) = true ->
        near (withPercent parseISO toPercent m0)
             (withPercent parseISO toPercent m4) = true ->
        map (fun p => (event p, stackIndex p, truncated p))
            (Positions.blue (getEventPositions parseISO events toPercent))
        = [(m0, 0%nat, false); (m1, 1%nat, false); (m2, 2%nat, false);
           (m3, 3%nat, true); (m4, 4%nat, true)]
        /\ blueOverflows (getEventPositions parseISO events toPercent)
           = if String.eqb (date m4) (date m3)
             then [Overflow.mk (toPercent (parseISO (date m3))) 2
                     overflowOffset [m3; m4]]
             else [Overflow.mk (toPercent (parseISO (date m3))) 1
                     overflowOffset [m3];
                   Overflow.mk (toPercent (parseISO (date m4))) 1
                     overflowOffset [m4]]).
Proof.
  split; [exact assignPositions_concat |]. split; [| split].
  - intros cluster i ev H. exists (place (length cluster) i ev).
    split; [apply stackCluster_lookup, H |].
    split; [destruct ev; reflexivity |].
    split; [reflexivity |]. split; [reflexivity |].
    apply place_truncated.
  - intros parseISO toPercent events m0 m1 m2 m3 m4 E H1 H2 H3 H4.
    unfold redOverflows. rewrite getEventPositions_red, E.
    apply team_of_five; assumption.
  - intros parseISO toPercent events m0 m1 m2 m3 m4 E H1 H2 H3 H4.
    unfold blueOverflows. rewrite getEventPositions_blue, E.
    apply team_of_five; assumption.
Qed.

(** Five red events of one day in a range of 200 days: three visible
    records and one overflow descriptor that counts two. *)
Lemma C2_five_same_day_witness :
  map (fun p => (event p, stackIndex p, truncated p))
      (Positions.red
         (getEventPositions IsoDate.parseValid Sample.fiveSameDay
            (toPercent IsoDate.parseValid Sample.noWeeks Sample.longConfig
                       days)))
  = [(Sample.mkEvent "a" "2024-01-01" "red" 1, 0%nat, false);
     (Sample.mkEvent "b" "2024-01-01" "red" 2, 1%nat, false);
     (Sample.mkEvent "c" "2024-01-01" "red" 3, 2%nat, false);
     (Sample.mkEvent "d" "2024-01-01" "red" 4, 3%nat, true);
     (Sample.mkEvent "e" "2024-01-01" "red" 1, 4%nat, true)]
  /\ redOverflows
       (getEventPositions IsoDate.parseValid Sample.fiveSameDay
          (toPercent IsoDate.parseValid Sample.noWeeks Sample.longConfig
                     days))
     = [Overflow.mk
          (toPercent IsoDate.parseValid Sample.noWeeks Sample.longConfig days
             (IsoDate.parseValid "2024-01-01"))
          2 overflowOffset
          [Sample.mkEvent "d" "2024-01-01" "red" 4;
           Sample.mkEvent "e" "2024-01-01" "red" 1]].
Proof.
  apply (proj1 (proj2 (proj2 C2_stacking_and_overflow_by_date))
           IsoDate.parseValid
           (toPercent IsoDate.parseValid Sample.noWeeks Sample.longConfig days)
           Sample.fiveSameDay
           (Sample.mkEvent "a" "2024-01-01" "red" 1)
           (Sample.mkEvent "b" "2024-01-01" "red" 2)
           (Sample.mkEvent "c" "2024-01-01" "red" 3)
           (Sample.mkEvent "d" "2024-01-01" "red" 4)
           (Sample.mkEvent "e" "2024-01-01" "red" 1));
    vm_compute; reflexivity.
Defined.

(** C2 as stated fails: five red events on three consecutive days of a
    range of 200 days lie within 1.5 points of the first, so they are one
    cluster of five with three visible records, but the two truncated
    records have two dates and the aggregation gives two overflow
    descriptors with [count = 1], none with [count = 2]. *)
Lemma C2_two_dates_counterexample :
  map clusterSize
      (Positions.red
         (timelinePositions IsoDate.parseValid Sample.noWeeks
            Sample.longConfig Sample.fiveCloseDays days))
  = [5; 5; 5; 5; 5]%nat
  /\ map truncated
       (Positions.red
          (timelinePositions IsoDate.parseValid Sample.noWeeks
             Sample.longConfig Sample.fiveCloseDays days))
     = [false; false; false; true; true]
  /\ map (fun o => (Overflow.count o, map id (Overflow.events o)))
       (redOverflows
          (timelinePositions IsoDate.parseValid Sample.noWeeks
             Sample.longConfig Sample.fiveCloseDays days))
     = [(1%nat, ["d"]); (1%nat, ["e"])].
Proof. vm_compute. repeat split. Qed.

(** ** The evenly-bucketed-by-week mapper *)

Lemma findWeekIdx_lt (day : Date) (ws : list Date) (k : nat) :
  (0 < k)%nat -> (findWeekIdx day ws k < k)%nat.
Proof.
  induction k as [| k IH]; [lia |]. intros _. simpl.
  destruct (ws !! k) as [w |].
  - destruct (w <=? day)%Z; [lia |].
    destruct k; [simpl; lia |]. specialize (IH ltac:(lia)). lia.
  - destruct k; [simpl; lia |]. specialize (IH ltac:(lia)). lia.
Qed.

(** The scan stops at the last index whose week start is not after [day]. *)
Lemma findWeekIdx_last (day : Date) (ws : list Date) (k i : nat) (w : Date) :
  (i < k)%nat -> ws !! i = Some w -> w <= day ->
  exists w', ws !! findWeekIdx day ws k = Some w'
             /\ w' <= day
             /\ forall j wj, (findWeekIdx day ws k < j < k)%nat ->
                             ws !! j = Some wj -> day < wj.
Proof.
  induction k as [| k IH]; [lia |]. intros Hi Hw Hle. simpl.
  destruct (ws !! k) as [wk |] eqn:Ek.
  - destruct (Z.leb_spec wk day) as [Hk | Hk].
    + exists wk. split; [exact Ek |]. split; [exact Hk |]. intros j wj Hj. lia.
    + assert (i <> k) as Hne.
      { intros Heq. rewrite Heq, Ek in Hw. injection Hw as Hw. lia. }
      destruct IH as (w' & E' & Hle' & Hlast); [lia | exact Hw | exact Hle |].
      exists w'. split; [exact E' |]. split; [exact Hle' |].
      intros j wj Hj Ej. destruct (decide (j = k)) as [Hjk | Hjk].
      * rewrite Hjk, Ek in Ej. injection Ej as Ej. lia.
      * apply (Hlast j wj); [lia | exact Ej].
  - assert (i <> k) as Hne.
    { intros Heq. rewrite Heq, Ek in Hw. discriminate. }
    destruct IH as (w' & E' & Hle' & Hlast); [lia | exact Hw | exact Hle |].
    exists w'. split; [exact E' |]. split; [exact Hle' |].
    intros j wj Hj Ej. destruct (decide (j = k)) as [Hjk | Hjk].
    + rewrite Hjk, Ek in Ej. discriminate.
    + apply (Hlast j wj); [lia | exact Ej].
Qed.

Lemma at_lookup (ws : list Date) (i : nat) (w : Date) :
  ws !! i = Some w -> at_ ws i = w.
Proof.
  intros H. unfold at_. apply nth_lookup_Some with (d := 0) in H. exact H.
Qed.

Lemma sorted_adjacent (ws : list Date) (i : nat) (a b : Date) :
  StronglySorted Z.lt ws -> ws !! i = Some a -> ws !! S i = Some b -> a < b.
Proof.
  intros Hs. revert i a b.
  induction Hs as [| x l Hs IH Hall]; intros i a b Ha Hb.
  - discriminate.
  - destruct i as [| i]; simpl in Ha, Hb.
    + injection Ha as <-. rewrite Forall_forall in Hall. apply Hall.
      eapply list_elem_of_lookup_2. exact Hb.
    + eapply IH; eassumption.
Qed.

Lemma ofNat_succ (i : nat) : (ofNat (i + 1) == ofNat i + 1)%Q.
Proof.
  unfold ofNat. rewrite Nat2Z.inj_add, inject_Z_plus. reflexivity.
Qed.

Lemma ofNat_pos (n : nat) : (0 < n)%nat -> (0 < ofNat n)%Q.
Proof. intros H. apply ofZ_pos. lia. Qed.

Lemma weekWidth_pos (n : nat) : (0 < n)%nat -> (0 < 100 / ofNat n)%Q.
Proof.
  intros H. unfold Qdiv. apply Qmult_lt_0_compat; [reflexivity |].
  apply Qinv_lt_0_compat, ofNat_pos, H.
Qed.

Lemma dayToEvenPercent_formula (day : Date) (ws : list Date) (endDate : Date)
    (i : nat) :
  ws <> [] ->
  findWeekIdx day ws (length ws) = i ->
  0 < weekLengthInDays ws endDate i ->
  dayToEvenPercent day ws endDate
  = (ofNat i * (100 / ofNat (length ws))
     + ofZ (day - at_ ws i) / ofZ (weekLengthInDays ws endDate i)
       * (100 / ofNat (length ws)))%Q.
Proof.
  intros Hne Hi Hlen. unfold dayToEvenPercent.
  destruct ws as [| w0 ws0]; [congruence |].
  change (length (w0 :: ws0) =? 0)%nat with false. cbv zeta. rewrite Hi.
  fold (weekEndOf (w0 :: ws0) endDate i).
  fold (weekLengthInDays (w0 :: ws0) endDate i).
  destruct (Z.ltb_spec 0 (weekLengthInDays (w0 :: ws0) endDate i)); [| lia].
  reflexivity.
Qed.

Lemma fraction_bounds (d len : Z) :
  0 <= d -> d < len ->
  (0 <= ofZ d / ofZ len)%Q /\ (ofZ d / ofZ len < 1)%Q.
Proof.
  intros H0 H1. assert (0 < len) as Hlen by lia. split.
  - rewrite <- (ratio_zero len). apply ratio_mono; assumption.
  - rewrite <- (ratio_one len Hlen). apply ratio_lt; assumption.
Qed.

Lemma bucket_bounds (i f w : Q) :
  (0 < w)%Q -> (0 <= f)%Q -> (f < 1)%Q ->
  (i * w <= i * w + f * w)%Q /\ (i * w + f * w < (i + 1) * w)%Q.
Proof.
  intros Hw H0 H1. split.
  - assert (0 <= f * w)%Q by (apply Qmult_le_0_compat; [| apply Qlt_le_weak];
                               assumption).
    lra.
  - assert (f * w < 1 * w)%Q by (apply Qmult_lt_compat_r; assumption).
    lra.
Qed.

(** The week of a day: its index, its length and the position of the day. *)
Lemma dayToEvenPercent_week (day : Date) (ws : list Date)
    (endDate w0 wl : Date) :
  StronglySorted Z.lt ws ->
  ws !! 0%nat = Some w0 -> w0 <= day ->
  last ws = Some wl -> wl <= endDate ->
  exists i : nat,
    (i < length ws)%nat
    /\ at_ ws i <= day
    /\ (forall j : nat, (i < j < length ws)%nat -> day < at_ ws j)
    /\ weekLengthInDays ws endDate i
       = (if (i <? length ws - 1)%nat then at_ ws (i + 1) - at_ ws i
          else endDate + 1 - at_ ws i)
    /\ 0 < weekLengthInDays ws endDate i
    /\ (day <= endDate -> day - at_ ws i < weekLengthInDays ws endDate i)
    /\ dayToEvenPercent day ws endDate
       = (ofNat i * (100 / ofNat (length ws))
          + ofZ (day - at_ ws i) / ofZ (weekLengthInDays ws endDate i)
            * (100 / ofNat (length ws)))%Q.
Proof.
  intros Hsorted H0 Hw0 Hlast Hwl.
  assert (0 < length ws)%nat as Hn by (eapply lookup_lt_Some; exact H0).
  assert (ws <> []) as Hne by (intros ->; simpl in Hn; lia).
  destruct (findWeekIdx_last day ws (length ws) 0 w0 Hn H0 Hw0)
    as (wi & Ei & Hle & Hafter).
  pose proof (findWeekIdx_lt day ws (length ws) Hn) as Hlt.
  set (i := findWeekIdx day ws (length ws)) in *.
  pose proof (at_lookup ws i wi Ei) as Ai.
  assert (forall j : nat, (i < j < length ws)%nat -> day < at_ ws j) as Hj.
  { intros j Hj. destruct (lookup_lt_is_Some_2 ws j) as [wj Ej]; [lia |].
    rewrite (at_lookup ws j wj Ej). apply (Hafter j wj Hj Ej). }
  assert (weekLengthInDays ws endDate i
          = (if (i <? length ws - 1)%nat then at_ ws (i + 1) - at_ ws i
             else endDate + 1 - at_ ws i)) as Elen.
  { unfold weekLengthInDays, weekEndOf, differenceInCalendarDays, addDays.
    destruct (i <? length ws - 1)%nat; reflexivity. }
  assert ((day <= endDate -> day - at_ ws i < weekLengthInDays ws endDate i)
          /\ 0 < weekLengthInDays ws endDate i) as [Hin Hlen].
  { rewrite Elen. destruct (Nat.ltb_spec i (length ws - 1)) as [Hi | Hi].
    - destruct (lookup_lt_is_Some_2 ws (i + 1)) as [wn En]; [lia |].
      rewrite (at_lookup ws (i + 1) wn En), Ai.
      replace (i + 1)%nat with (S i) in En by lia.
      pose proof (sorted_adjacent ws i wi wn Hsorted Ei En) as Hadj.
      assert (day < wn) as Hd.
      { rewrite <- (at_lookup ws (S i) wn En). apply Hj. lia. }
      lia.
    - rewrite last_lookup in Hlast.
      replace (pred (length ws)) with i in Hlast by lia.
      rewrite Ei in Hlast. injection Hlast as ->. rewrite Ai. lia. }
  exists i. split; [exact Hlt |]. split; [lia |]. split; [exact Hj |].
  split; [exact Elen |]. split; [exact Hlen |]. split; [exact Hin |].
  apply dayToEvenPercent_formula; [exact Hne | reflexivity | exact Hlen].
Qed.

(** C3. Under the evenly-bucketed-by-week policy, with the week starts in
    increasing order, the first one not after [day] and the last one not
    after the end date: [day] is assigned to the week [i] of the last week
    start that is not after it; the length of that week runs to the next
    week start, and for the last week to one day past the end date; the
    position is [i * (100 / numWeeks)] plus the fraction
    [daysIntoWeek / weekLengthInDays] of [100 / numWeeks].  So every day
    of week [i] up to the end date lies in [[i * w, (i + 1) * w)] with
    [w = 100 / numWeeks], whatever the length of the week, and the week
    start itself lies at [i * w]. *)
Theorem C3_even_weeks_share_the_width (day : Date) (ws : list Date)
    (endDate w0 wl : Date) :
  StronglySorted Z.lt ws ->
  ws !! 0%nat = Some w0 -> w0 <= day ->
  last ws = Some wl -> wl <= endDate ->
  exists i : nat,
    (i < length ws)%nat
    /\ at_ ws i <= day
    /\ (forall j : nat, (i < j < length ws)%nat -> day < at_ ws j)
    /\ weekLengthInDays ws endDate i
       = (if (i <? length ws - 1)%nat then at_ ws (i + 1) - at_ ws i
          else endDate + 1 - at_ ws i)
    /\ 0 < weekLengthInDays ws endDate i
    /\ (dayToEvenPercent day ws endDate
        == ofNat i * (100 / ofNat (length ws))
           + ofZ (day - at_ ws i) / ofZ (weekLengthInDays ws endDate i)
             * (100 / ofNat (length ws)))%Q
    /\ (day <= endDate ->
        (ofNat i * (100 / ofNat (length ws))
         <= dayToEvenPercent day ws endDate)%Q
        /\ (dayToEvenPercent day ws endDate
            < ofNat (i + 1) * (100 / ofNat (length ws)))%Q)
    /\ (day = at_ ws i ->
        (dayToEvenPercent day ws endDate
         == ofNat i * (100 / ofNat (length ws)))%Q).
Proof.
  intros Hsorted H0 Hw0 Hlast Hwl.
  destruct (dayToEvenPercent_week day ws endDate w0 wl
              Hsorted H0 Hw0 Hlast Hwl)
    as (i & Hlt & Hle & Hj & Elen & Hlen & Hin & F).
  assert (0 < length ws)%nat as Hn by lia.
  exists i. repeat (split; [assumption |]).
  split; [rewrite F; reflexivity |]. split.
  - intros Hday. rewrite F, ofNat_succ.
    apply bucket_bounds; [apply weekWidth_pos, Hn | |];
      apply fraction_bounds; try (apply Hin; assumption); lia.
  - intros Hday. rewrite F, Hday, Z.sub_diag, ratio_zero. ring.
Qed.

(** Three weeks from Monday 2024-01-01, with the end date Thursday
    2024-01-18 (day 19740): Wednesday 2024-01-10 (day 19732) is in the
    second week. *)
Lemma C3_even_weeks_witness :
  exists i : nat,
    (i < length Sample.threeWeeks)%nat
    /\ at_ Sample.threeWeeks i <= 19732
    /\ (forall j : nat, (i < j < length Sample.threeWeeks)%nat ->
                        19732 < at_ Sample.threeWeeks j)
    /\ weekLengthInDays Sample.threeWeeks 19740 i
       = (if (i <? length Sample.threeWeeks - 1)%nat
          then at_ Sample.threeWeeks (i + 1) - at_ Sample.threeWeeks i
          else 19740 + 1 - at_ Sample.threeWeeks i)
    /\ 0 < weekLengthInDays Sample.threeWeeks 19740 i
    /\ (dayToEvenPercent 19732 Sample.threeWeeks 19740
        == ofNat i * (100 / ofNat (length Sample.threeWeeks))
           + ofZ (19732 - at_ Sample.threeWeeks i)
             / ofZ (weekLengthInDays Sample.threeWeeks 19740 i)
             * (100 / ofNat (length Sample.threeWeeks)))%Q
    /\ (19732 <= 19740 ->
        (ofNat i * (100 / ofNat (length Sample.threeWeeks))
         <= dayToEvenPercent 19732 Sample.threeWeeks 19740)%Q
        /\ (dayToEvenPercent 19732 Sample.threeWeeks 19740
            < ofNat (i + 1) * (100 / ofNat (length Sample.threeWeeks)))%Q)
    /\ (19732 = at_ Sample.threeWeeks i ->
        (dayToEvenPercent 19732 Sample.threeWeeks 19740
         == ofNat i * (100 / ofNat (length Sample.threeWeeks)))%Q).
Proof.
  apply (C3_even_weeks_share_the_width 19732 Sample.threeWeeks 19740
           19723 19737).
  - repeat constructor.
  - reflexivity.
  - lia.
  - reflexivity.
  - lia.
Defined.

(** ** The linear-by-day mapper of the [Timeline] component *)

Section TimelineFacts.
Variable parseISO : string -> Date.
Variable eachWeekOfInterval : Date -> Date -> list Date.

Lemma toPercent_days (config : TimelineConfig) (day : Date) :
  toPercent parseISO eachWeekOfInterval config days day
  = dayToLinearPercent day (parseISO (startDate config))
                       (totalDays parseISO config).
Proof. reflexivity. Qed.

Lemma toPercent_weeks (config : TimelineConfig) (day : Date) :
  toPercent parseISO eachWeekOfInterval config weeks day
  = dayToEvenPercent day (weekStarts parseISO eachWeekOfInterval config)
                     (parseISO (endDate config)).
Proof. reflexivity. Qed.

Lemma toPercent_degenerate (config : TimelineConfig) (timeScale : TimeScale)
    (day : Date) :
  totalDays parseISO config <= 0 ->
  toPercent parseISO eachWeekOfInterval config timeScale day = 0%Q.
Proof.
  intros H. destruct timeScale.
  - rewrite toPercent_days. apply dayToLinearPercent_degenerate, H.
  - rewrite toPercent_weeks. unfold weekStarts.
    destruct (Z.leb_spec (totalDays parseISO config) 0); [reflexivity | lia].
Qed.
End TimelineFacts.

(** ** The weeks of a configuration *)

Lemma startOfWeek_spec (d : Date) :
  Calendar.startOfWeek d <= d < Calendar.startOfWeek d + 7
  /\ (Calendar.startOfWeek d + 3) mod 7 = 0.
Proof.
  unfold Calendar.startOfWeek.
  pose proof (Z.mod_pos_bound (d + 3) 7 ltac:(lia)) as B.
  split; [lia |].
  replace (d - (d + 3) mod 7 + 3) with ((d + 3) - (d + 3) mod 7) by lia.
  rewrite Zminus_mod, Z.mod_mod by lia. rewrite Z.sub_diag. reflexivity.
Qed.

Lemma weeks_sorted (first : Date) (n k0 : nat) :
  StronglySorted Z.lt (map (fun k => first + 7 * Z.of_nat k) (seq k0 n)).
Proof.
  revert k0. induction n as [| n IH]; intros k0; simpl; constructor.
  - apply IH.
  - apply Forall_forall. intros x Hx.
    apply list_elem_of_In, in_map_iff in Hx as (k & <- & Hk).
    apply in_seq in Hk. lia.
Qed.

Lemma eachWeekOfInterval_spec (start finish : Date) :
  start <= finish ->
  StronglySorted Z.lt (Calendar.eachWeekOfInterval start finish)
  /\ Calendar.eachWeekOfInterval start finish !! 0%nat
     = Some (Calendar.startOfWeek start)
  /\ last (Calendar.eachWeekOfInterval start finish)
     = Some (Calendar.startOfWeek finish).
Proof.
  intros H. unfold Calendar.eachWeekOfInterval. cbv zeta.
  destruct (startOfWeek_spec start) as [Bs Ms].
  destruct (startOfWeek_spec finish) as [Bf Mf].
  set (s := Calendar.startOfWeek start) in *.
  set (f := Calendar.startOfWeek finish) in *.
  assert ((f - s) mod 7 = 0) as Hm.
  { replace (f - s) with ((f + 3) - (s + 3)) by lia.
    rewrite Zminus_mod, Ms, Mf. reflexivity. }
  assert (s <= f) as Hsf.
  { destruct (Z.le_gt_cases s f) as [L | G]; [exact L |].
    exfalso. assert ((s - f) mod 7 = 0) as Hm'.
    { replace (s - f) with ((s + 3) - (f + 3)) by lia.
      rewrite Zminus_mod, Ms, Mf. reflexivity. }
    rewrite Z.mod_small in Hm' by lia. lia. }
  pose proof (Z.div_mod (f - s) 7 ltac:(lia)) as D. rewrite Hm in D.
  assert (0 <= (f - s) / 7) as Hq by (apply Z.div_pos; lia).
  split; [apply weeks_sorted |].
  destruct (Z.to_nat ((f - s) / 7 + 1)) as [| n] eqn:En; [lia |].
  split.
  - simpl. f_equal. lia.
  - rewrite seq_S, map_app. simpl. rewrite last_snoc. f_equal. lia.
Qed.

Lemma full_width (i n : nat) :
  (i + 1 <= n)%nat -> (ofNat (i + 1) * (100 / ofNat n) <= 100)%Q.
Proof.
  intros H. assert (0 < n)%nat as Hn by lia.
  pose proof (ofNat_pos n Hn) as Hp.
  assert (ofNat n * (100 / ofNat n) == 100)%Q as E.
  { field. intros Z0. rewrite Z0 in Hp. discriminate. }
  apply Qle_trans with (ofNat n * (100 / ofNat n))%Q.
  - apply Qmult_le_compat_r.
    + unfold ofNat. rewrite <- Zle_Qle. lia.
    + apply Qlt_le_weak, weekWidth_pos, Hn.
  - rewrite E. apply Qle_refl.
Qed.

(** Under the week policy, with the weeks of date-fns, every day of a
    range whose end is after its start lies in [[0, 100)]. *)
Theorem week_policy_stays_below_100 (parseISO : string -> Date)
    (config : TimelineConfig) (day : Date) :
  parseISO (startDate config) < parseISO (endDate config) ->
  parseISO (startDate config) <= day ->
  day <= parseISO (endDate config) ->
  (0 <= toPercent parseISO Calendar.eachWeekOfInterval config weeks day)%Q
  /\ (toPercent parseISO Calendar.eachWeekOfInterval config weeks day
      < 100)%Q.
Proof.
  intros Hse Hs He. rewrite toPercent_weeks. unfold weekStarts, totalDays,
    differenceInCalendarDays.
  destruct (Z.leb_spec (parseISO (endDate config)
                        - parseISO (startDate config)) 0); [lia |].
  set (s := parseISO (startDate config)) in *.
  set (e := parseISO (endDate config)) in *.
  destruct (eachWeekOfInterval_spec s e ltac:(lia)) as (Hsorted & H0 & Hlast).
  destruct (startOfWeek_spec s) as [Bs _].
  destruct (startOfWeek_spec e) as [Be _].
  destruct (dayToEvenPercent_week day (Calendar.eachWeekOfInterval s e) e
              (Calendar.startOfWeek s) (Calendar.startOfWeek e)
              Hsorted H0 ltac:(lia) Hlast ltac:(lia))
    as (i & Hlt & Hle & _ & _ & Hlen & Hin & F).
  set (ws := Calendar.eachWeekOfInterval s e) in *.
  assert (0 < length ws)%nat as Hn by lia.
  rewrite F.
  destruct (fraction_bounds (day - at_ ws i) (weekLengthInDays ws e i)
              ltac:(lia) (Hin He)) as [F0 F1].
  destruct (bucket_bounds (ofNat i) _ _ (weekWidth_pos (length ws) Hn) F0 F1)
    as [B0 B1].
  split.
  - eapply Qle_trans; [| exact B0].
    apply Qmult_le_0_compat;
      [unfold ofNat; change 0%Q with (inject_Z 0); rewrite <- Zle_Qle; lia
      | apply Qlt_le_weak, weekWidth_pos, Hn].
  - eapply Qlt_le_trans; [exact B1 |].
    rewrite <- ofNat_succ. apply full_width. lia.
Qed.

(** The first three weeks of 2024, on Wednesday 2024-01-10. *)
Lemma week_policy_witness :
  (0 <= toPercent IsoDate.parseValid Calendar.eachWeekOfInterval
                  Sample.monthConfig weeks (IsoDate.parseValid "2024-01-10"))%Q
  /\ (toPercent IsoDate.parseValid Calendar.eachWeekOfInterval
                Sample.monthConfig weeks (IsoDate.parseValid "2024-01-10")
      < 100)%Q.
Proof.
  apply (week_policy_stays_below_100 IsoDate.parseValid Sample.monthConfig
           (IsoDate.parseValid "2024-01-10")).
  - reflexivity.
  - vm_compute. discriminate.
  - vm_compute. discriminate.
Defined.

(** C4 (amended). The linear-by-day mapper computes
    [(daysSinceStart / totalDays) * 100] where [totalDays] is the
    difference in calendar days between the end date and the start date
    (the end date is not counted); for every day within
    [[startDate, endDate]] its output lies in the closed interval
    [[0, 100]], and, when the end date is after the start date, it is 100
    exactly on the end date, so it is below 100 on every earlier day. *)
Theorem C4_linear_range_is_closed (parseISO : string -> Date)
    (eachWeekOfInterval : Date -> Date -> list Date)
    (config : TimelineConfig) (day : Date) :
  parseISO (startDate config) <= day ->
  day <= parseISO (endDate config) ->
  totalDays parseISO config
  = parseISO (endDate config) - parseISO (startDate config)
  /\ (0 < totalDays parseISO config ->
      toPercent parseISO eachWeekOfInterval config days day
      = (ofZ (day - parseISO (startDate config))
         / ofZ (totalDays parseISO config) * 100)%Q)
  /\ (0 <= toPercent parseISO eachWeekOfInterval config days day)%Q
  /\ (toPercent parseISO eachWeekOfInterval config days day <= 100)%Q
  /\ (0 < totalDays parseISO config ->
      ((toPercent parseISO eachWeekOfInterval config days day == 100)%Q
       <-> day = parseISO (endDate config)))
  /\ (0 < totalDays parseISO config ->
      ((toPercent parseISO eachWeekOfInterval config days day < 100)%Q
       <-> day < parseISO (endDate config))).
Proof.
  intros Hs He. rewrite toPercent_days.
  unfold totalDays, differenceInCalendarDays.
  set (s := parseISO (startDate config)) in *.
  set (e := parseISO (endDate config)) in *.
  split; [reflexivity |].
  split; [intros Ht; apply dayToLinearPercent_formula, Ht |].
  assert (0 <= dayToLinearPercent day s (e - s))%Q as Hlow.
  { rewrite <- (dayToLinearPercent_start s (e - s)).
    apply dayToLinearPercent_mono, Hs. }
  assert (0 < e - s ->
          (dayToLinearPercent day s (e - s) == 100)%Q <-> day = e) as Htop.
  { intros Ht. rewrite dayToLinearPercent_formula by exact Ht. split.
    - intros H. assert (ofZ (day - s) / ofZ (e - s) == 1)%Q as H1 by lra.
      apply ratio_one_inv in H1; lia.
    - intros ->. rewrite ratio_one by exact Ht. reflexivity. }
  assert (dayToLinearPercent day s (e - s) <= 100)%Q as Hhigh.
  { destruct (Z.leb_spec (e - s) 0) as [Ht | Ht].
    - rewrite dayToLinearPercent_degenerate by exact Ht. discriminate.
    - rewrite <- (dayToLinearPercent_end s (e - s) Ht).
      apply dayToLinearPercent_mono. lia. }
  split; [exact Hlow |]. split; [exact Hhigh |]. split; [exact Htop |].
  intros Ht. specialize (Htop Ht). split.
  - intros Hlt. destruct (Z.eq_dec day e) as [E | N]; [| lia].
    apply Htop in E. rewrite E in Hlt. discriminate.
  - intros Hlt. apply Qle_lteq in Hhigh as [H | H]; [exact H |].
    apply Htop in H. lia.
Qed.

(** January 2024, on 2024-01-10. *)
Lemma C4_linear_range_witness :
  totalDays IsoDate.parseValid Sample.monthConfig
  = IsoDate.parseValid (endDate Sample.monthConfig)
    - IsoDate.parseValid (startDate Sample.monthConfig)
  /\ (0 < totalDays IsoDate.parseValid Sample.monthConfig ->
      toPercent IsoDate.parseValid Sample.noWeeks Sample.monthConfig days
                (IsoDate.parseValid "2024-01-10")
      = (ofZ (IsoDate.parseValid "2024-01-10"
              - IsoDate.parseValid (startDate Sample.monthConfig))
         / ofZ (totalDays IsoDate.parseValid Sample.monthConfig) * 100)%Q)
  /\ (0 <= toPercent IsoDate.parseValid Sample.noWeeks Sample.monthConfig days
                     (IsoDate.parseValid "2024-01-10"))%Q
  /\ (toPercent IsoDate.parseValid Sample.noWeeks Sample.monthConfig days
                (IsoDate.parseValid "2024-01-10") <= 100)%Q
  /\ (0 < totalDays IsoDate.parseValid Sample.monthConfig ->
      ((toPercent IsoDate.parseValid Sample.noWeeks Sample.monthConfig days
                  (IsoDate.parseValid "2024-01-10") == 100)%Q
       <-> IsoDate.parseValid "2024-01-10"
           = IsoDate.parseValid (endDate Sample.monthConfig)))
  /\ (0 < totalDays IsoDate.parseValid Sample.monthConfig ->
      ((toPercent IsoDate.parseValid Sample.noWeeks Sample.monthConfig days
                  (IsoDate.parseValid "2024-01-10") < 100)%Q
       <-> IsoDate.parseValid "2024-01-10"
           < IsoDate.parseValid (endDate Sample.monthConfig))).
Proof.
  apply (C4_linear_range_is_closed IsoDate.parseValid Sample.noWeeks
           Sample.monthConfig (IsoDate.parseValid "2024-01-10")).
  - vm_compute. discriminate.
  - vm_compute. discriminate.
Defined.

(** C4 as stated fails: for the range 2024-01-01 to 2024-01-31 the code's
    [totalDays] is 30, not the 31 days of the inclusive span, and the end
    date, a day within the range, is mapped to 100, which is not below
    100. *)
Lemma C4_end_date_counterexample :
  totalDays IsoDate.parseValid Sample.monthConfig = 30
  /\ IsoDate.parseValid (startDate Sample.monthConfig)
     <= IsoDate.parseValid "2024-01-31"
     <= IsoDate.parseValid (endDate Sample.monthConfig)
  /\ (toPercent IsoDate.parseValid Sample.noWeeks Sample.monthConfig days
                (IsoDate.parseValid "2024-01-31") == 100)%Q
  /\ ~ (toPercent IsoDate.parseValid Sample.noWeeks Sample.monthConfig days
                  (IsoDate.parseValid "2024-01-31") < 100)%Q.
Proof.
  split; [reflexivity |]. split; [vm_compute; split; discriminate |].
  split; [reflexivity |]. vm_compute. discriminate.
Qed.

(** C5. For all days within [[startDate, endDate]] the linear-by-day
    mapper is monotone, [a <= b] gives [mapper a <= mapper b], and the
    start date is mapped to 0. *)
Theorem C5_linear_monotone_from_zero (parseISO : string -> Date)
    (eachWeekOfInterval : Date -> Date -> list Date)
    (config : TimelineConfig) (a b : Date) :
  parseISO (startDate config) <= a ->
  a <= b ->
  b <= parseISO (endDate config) ->
  (toPercent parseISO eachWeekOfInterval config days a
   <= toPercent parseISO eachWeekOfInterval config days b)%Q
  /\ (toPercent parseISO eachWeekOfInterval config days
                (parseISO (startDate config)) == 0)%Q
  /\ (forall start total : Z,
        (dayToLinearPercent a start total
         <= dayToLinearPercent b start total)%Q
        /\ (dayToLinearPercent start start total == 0)%Q).
Proof.
  intros _ Hab _. rewrite !toPercent_days.
  split; [apply dayToLinearPercent_mono, Hab |].
  split; [apply dayToLinearPercent_start |].
  intros start total.
  split; [apply dayToLinearPercent_mono, Hab | apply dayToLinearPercent_start].
Qed.

(** January 2024: 2024-01-10 is not after 2024-01-20. *)
Lemma C5_linear_monotone_witness :
  (toPercent IsoDate.parseValid Sample.noWeeks Sample.monthConfig days
             (IsoDate.parseValid "2024-01-10")
   <= toPercent IsoDate.parseValid Sample.noWeeks Sample.monthConfig days
                (IsoDate.parseValid "2024-01-20"))%Q
  /\ (toPercent IsoDate.parseValid Sample.noWeeks Sample.monthConfig days
                (IsoDate.parseValid (startDate Sample.monthConfig)) == 0)%Q
  /\ (forall start total : Z,
        (dayToLinearPercent (IsoDate.parseValid "2024-01-10") start total
         <= dayToLinearPercent (IsoDate.parseValid "2024-01-20") start total)%Q
        /\ (dayToLinearPercent start start total == 0)%Q).
Proof.
  apply (C5_linear_monotone_from_zero IsoDate.parseValid Sample.noWeeks
           Sample.monthConfig (IsoDate.parseValid "2024-01-10")
           (IsoDate.parseValid "2024-01-20"));
    vm_compute; discriminate.
Defined.

(** ** Degenerate ranges *)

(** C6. A degenerate range is silent: with [totalDays <= 0] the linear
    mapper returns 0 for every day, with no week start the evenly-bucketed
    mapper returns 0 for every day; a start date equal to the end date
    gives [totalDays = 0] and no week start; and with [totalDays <= 0] the
    component's mapper is 0 under both policies, so the resolver still
    places every event, each at position 0. *)
Theorem C6_degenerate_range_collapses_to_zero :
  (forall day start total : Z,
     total <= 0 -> dayToLinearPercent day start total = 0%Q)
  /\ (forall day endDate : Date, dayToEvenPercent day [] endDate = 0%Q)
  /\ (forall (parseISO : string -> Date) (config : TimelineConfig),
        parseISO (startDate config) = parseISO (endDate config) ->
        totalDays parseISO config = 0)
  /\ (forall (parseISO : string -> Date)
             (eachWeekOfInterval : Date -> Date -> list Date)
             (config : TimelineConfig),
        totalDays parseISO config <= 0 ->
        weekStarts parseISO eachWeekOfInterval config = [])
  /\ (forall (parseISO : string -> Date)
             (eachWeekOfInterval : Date -> Date -> list Date)
             (config : TimelineConfig) (timeScale : TimeScale)
             (events : list TimelineEvent),
        totalDays parseISO config <= 0 ->
        (forall day : Date,
           toPercent parseISO eachWeekOfInterval config timeScale day = 0%Q)
        /\ (forall p : PositionedEvent,
              In p (Positions.red
                      (timelinePositions parseISO eachWeekOfInterval config
                                         events timeScale)
                    ++ Positions.blue
                         (timelinePositions parseISO eachWeekOfInterval config
                                            events timeScale)) ->
              percent p = 0%Q)
        /\ map event
              (Positions.red
                 (timelinePositions parseISO eachWeekOfInterval config
                                    events timeScale)
               ++ Positions.blue
                    (timelinePositions parseISO eachWeekOfInterval config
                                       events timeScale))
           ≡ₚ events).
Proof.
  split; [exact dayToLinearPercent_degenerate |].
  split; [reflexivity |]. split; [| split].
  - intros parseISO config E.
    unfold totalDays, differenceInCalendarDays. lia.
  - intros parseISO ewi config H. unfold weekStarts.
    destruct (Z.leb_spec (totalDays parseISO config) 0); [reflexivity | lia].
  - intros parseISO ewi config timeScale events H.
    split; [intros day; apply toPercent_degenerate, H |].
    unfold timelinePositions.
    rewrite getEventPositions_red, getEventPositions_blue. split.
    + intros p Hin. apply in_app_or in Hin as [Hin | Hin];
        apply assignPositions_percent in Hin; rewrite Hin;
        apply toPercent_degenerate, H.
    + rewrite map_app, !assignPositions_events.
      unfold notRed. rewrite filter_split_perm. apply sort_perm.
Qed.

(** A range of the single day 2024-01-01 under the week policy: the five
    sample events are all placed, at 0. *)
Lemma C6_single_day_witness :
  (forall day : Date,
     toPercent IsoDate.parseValid Sample.noWeeks Sample.singleDayConfig weeks
               day = 0%Q)
  /\ (forall p : PositionedEvent,
        In p (Positions.red
                (timelinePositions IsoDate.parseValid Sample.noWeeks
                   Sample.singleDayConfig Sample.fiveCloseDays weeks)
              ++ Positions.blue
                   (timelinePositions IsoDate.parseValid Sample.noWeeks
                      Sample.singleDayConfig Sample.fiveCloseDays weeks)) ->
        percent p = 0%Q)
  /\ map event
        (Positions.red
           (timelinePositions IsoDate.parseValid Sample.noWeeks
              Sample.singleDayConfig Sample.fiveCloseDays weeks)
         ++ Positions.blue
              (timelinePositions IsoDate.parseValid Sample.noWeeks
                 Sample.singleDayConfig Sample.fiveCloseDays weeks))
     ≡ₚ Sample.fiveCloseDays.
Proof.
  apply (proj2 (proj2 (proj2 (proj2 C6_degenerate_range_collapses_to_zero)))
           IsoDate.parseValid Sample.noWeeks Sample.singleDayConfig weeks
           Sample.fiveCloseDays).
  vm_compute. discriminate.
Defined.

(** ** Vertical placement *)

Lemma renderEvent_visible (p : PositionedEvent) (team : string) :
  truncated p = false ->
  renderEvent p team
  = Some (Flag.mk (percent p)
                  (5 - (default 1 (lane (event p)) - 1))
                  (poleHeight + (default 1 (lane (event p)) - 1) * stackSpacing)
                  (poleHeight + (default 1 (lane (event p)) - 1) * stackSpacing
                   + flagHeadHeight)
                  (poleHeight + (default 1 (lane (event p)) - 1) * stackSpacing
                   - 2)
                  (String.eqb team "red")).
Proof. intros H. unfold renderEvent. rewrite H. reflexivity. Qed.

(** C7 (amended). For every non-truncated event the vertical offset is
    [poleHeight + (lane - 1) * stackSpacing] for the event's own lane; it
    does not depend on the stack index or the size of the cluster.  So the
    offsets of two rendered events differ by the difference of their lanes
    times [stackSpacing]: they are different when the lanes are different,
    and they differ by exactly [stackSpacing] exactly when the lanes are
    adjacent. *)
Theorem C7_offset_follows_own_lane :
  (forall (p : PositionedEvent) (team : string) (l : Z),
     truncated p = false -> lane (event p) = Some l ->
     exists flag : Flag.t,
       renderEvent p team = Some flag
       /\ Flag.offset flag = poleHeight + (l - 1) * stackSpacing
       /\ Flag.left flag = percent p)
  /\ (forall (p q : PositionedEvent) (team : string),
        event p = event q -> truncated p = false -> truncated q = false ->
        option_map Flag.offset (renderEvent p team)
        = option_map Flag.offset (renderEvent q team))
  /\ (forall (p q : PositionedEvent) (team : string) (fp fq : Flag.t)
             (lp lq : Z),
        renderEvent p team = Some fp -> renderEvent q team = Some fq ->
        lane (event p) = Some lp -> lane (event q) = Some lq ->
        Flag.offset fp - Flag.offset fq = (lp - lq) * stackSpacing
        /\ (lp <> lq -> Flag.offset fp <> Flag.offset fq)
        /\ (Z.abs (Flag.offset fp - Flag.offset fq) = stackSpacing
            <-> Z.abs (lp - lq) = 1)).
Proof.
  split; [| split].
  - intros p team l Ht Hl. rewrite renderEvent_visible by exact Ht.
    rewrite Hl. eexists. split; [reflexivity |]. split; reflexivity.
  - intros p q team E Hp Hq.
    rewrite !renderEvent_visible by assumption. rewrite E. reflexivity.
  - intros p q team fp fq lp lq Rp Rq Lp Lq.
    unfold renderEvent in Rp, Rq.
    destruct (truncated p); [discriminate |].
    destruct (truncated q); [discriminate |].
    injection Rp as <-. injection Rq as <-. rewrite Lp, Lq.
    cbn [Flag.offset default from_option Datatypes.id].
    unfold poleHeight, stackSpacing.
    repeat split; lia.
Qed.

(** Two events of one day on the lanes 1 and 2, rendered from the records
    of their cluster. *)
Lemma C7_adjacent_lanes_witness :
  Flag.offset
    (Flag.mk 0 5 30 40 28 true) - Flag.offset (Flag.mk 0 4 62 72 60 true)
  = (1 - 2) * stackSpacing
  /\ (1 <> 2 ->
      Flag.offset (Flag.mk 0 5 30 40 28 true)
      <> Flag.offset (Flag.mk 0 4 62 72 60 true))
  /\ (Z.abs (Flag.offset (Flag.mk 0 5 30 40 28 true)
             - Flag.offset (Flag.mk 0 4 62 72 60 true)) = stackSpacing
      <-> Z.abs (1 - 2) = 1).
Proof.
  apply (proj2 (proj2 C7_offset_follows_own_lane)
           (place 2 0
              (TeamEvent.mk (Sample.mkEvent "a" "2024-01-01" "red" 1) 0))
           (place 2 1
              (TeamEvent.mk (Sample.mkEvent "b" "2024-01-01" "red" 2) 0))
           "red" (Flag.mk 0 5 30 40 28 true) (Flag.mk 0 4 62 72 60 true) 1 2);
    reflexivity.
Defined.

(** C7 as stated fails: two red events of one day on the lanes 1 and 3 are
    in one cluster, on different lanes, and their offsets 30 and 94 differ
    by 64, twice [stackSpacing]. *)
Lemma C7_lanes_1_and_3_counterexample :
  map (fun p => (clusterSize p, stackIndex p, lane (event p),
                 option_map Flag.offset (renderEvent p "red")))
      (Positions.red
         (timelinePositions IsoDate.parseValid Sample.noWeeks
            Sample.monthConfig Sample.twoLanes days))
  = [(2%nat, 0%nat, Some 1, Some 30); (2%nat, 1%nat, Some 3, Some 94)]
  /\ 94 - 30 <> stackSpacing.
Proof. split; [reflexivity | discriminate]. Qed.

(** ** The import boundary *)

Section ImportFacts.
Variable parseISO : string -> option Date.
Variable trim : string -> string.
Variable uuidv4 : nat -> string.

Lemma isValidISODate_validDate (v : option JsValue) :
  isValidISODate parseISO v = validDate parseISO v.
Proof.
  destruct v as [[] |]; reflexivity.
Qed.

Lemma blank_nonEmptyString (v : option JsValue) :
  negb (isString v) || String.eqb (trim (asString v)) EmptyString
  = negb (nonEmptyString trim v).
Proof.
  destruct v as [[] |]; try reflexivity.
  simpl. rewrite negb_involutive. reflexivity.
Qed.

Lemma filled_nonEmptyString (v : option JsValue) :
  isString v && negb (String.eqb (trim (asString v)) EmptyString)
  = nonEmptyString trim v.
Proof. destruct v as [[] |]; reflexivity. Qed.

Lemma team_redOrBlue (v : option JsValue) :
  negb (strictEqStr v "red") && negb (strictEqStr v "blue")
  = negb (redOrBlue v).
Proof.
  destruct v as [[] |]; try reflexivity.
  simpl. rewrite negb_orb. reflexivity.
Qed.

Lemma validateEvent_cases (e : JsValue) (i n : nat) :
  validateEvent parseISO trim uuidv4 e i n
  = if negb (isObject (Some e)) then inl (msgEventNotObject i)
    else if negb (validDate parseISO (prop e "date")) then inl (msgEventDate i)
    else if negb (redOrBlue (prop e "team")) then inl (msgEventTeam i)
    else if negb (nonEmptyString trim (prop e "description"))
    then inl (msgEventDescription i)
    else inr (accepted trim uuidv4 e n).
Proof.
  unfold validateEvent, accepted.
  rewrite isValidISODate_validDate, team_redOrBlue, blank_nonEmptyString.
  destruct (negb (isObject (Some e))); [reflexivity |].
  destruct (negb (validDate parseISO (prop e "date"))); [reflexivity |].
  destruct (negb (redOrBlue (prop e "team"))); [reflexivity |].
  destruct (negb (nonEmptyString trim (prop e "description")));
    [reflexivity |].
  destruct (isString (prop e "id") && _); reflexivity.
Qed.

Lemma validateEvent_accept (e : JsValue) (i n : nat) :
  eventOk parseISO trim e = true ->
  validateEvent parseISO trim uuidv4 e i n = inr (accepted trim uuidv4 e n).
Proof.
  unfold eventOk. rewrite !andb_true_iff. intros [[[H1 H2] H3] H4].
  rewrite validateEvent_cases, H1, H2, H3, H4. reflexivity.
Qed.

Lemma validateEvent_reject (e : JsValue) (i n : nat) :
  eventOk parseISO trim e = false ->
  exists msg,
    validateEvent parseISO trim uuidv4 e i n = inl msg
    /\ In msg [msgEventNotObject i; msgEventDate i; msgEventTeam i;
               msgEventDescription i].
Proof.
  unfold eventOk. rewrite validateEvent_cases. intros H.
  destruct (isObject (Some e)); simpl; [| eexists; split; [reflexivity | tauto]].
  destruct (validDate parseISO (prop e "date")); simpl;
    [| eexists; split; [reflexivity | tauto]].
  destruct (redOrBlue (prop e "team")); simpl;
    [| eexists; split; [reflexivity | tauto]].
  destruct (nonEmptyString trim (prop e "description")); simpl;
    [discriminate | eexists; split; [reflexivity | tauto]].
Qed.



Lemma importFromJson_cases (data : JsValue) (n : nat) :
  importFromJson parseISO trim uuidv4 data n
  = if negb (isObject (Some data)) then inl msgRoot
    else if negb (isObject (prop data "config")) then inl msgConfig
    else
      let config := default JNull (prop data "config") in
      if negb (nonEmptyString trim (prop config "title")) then inl msgTitle
      else if negb (validDate parseISO (prop config "startDate"))
      then inl msgStartDate
      else if negb (validDate parseISO (prop config "endDate"))
      then inl msgEndDate
      else
        match prop data "events" with
        | Some (JArr items) =>
            match validateEvents parseISO trim uuidv4 items 0 n with
            | inl err => inl err
            | inr (events, _) =>
                inr {| config :=
                         {| title := asString (prop config "title");
                            startDate := asString (prop config "startDate");
                            endDate := asString (prop config "endDate") |};
                       events := events |}
            end
        | _ => inl msgEvents
        end.
Proof.
  unfold importFromJson, importData. cbv zeta.
  rewrite blank_nonEmptyString, !isValidISODate_validDate.
  destruct (negb (isObject (Some data))); [reflexivity |].
  destruct (negb (isObject (prop data "config"))); [reflexivity |].
  destruct (negb (nonEmptyString trim _)); [reflexivity |].
  destruct (negb (validDate parseISO (prop _ "startDate"))); [reflexivity |].
  destruct (negb (validDate parseISO (prop _ "endDate"))); [reflexivity |].
  destruct (prop data "events") as [[] |]; try reflexivity.
  unfold mbind, Import_bind.
  destruct (validateEvents parseISO trim uuidv4 items 0 n) as [err | [evs n']];
    reflexivity.
Qed.



End ImportFacts.

Lemma laneOr1_in (l : Z) :
  1 <= l <= 4 -> laneOr1 (Some (JNum (inject_Z l))) = l.
Proof.
  intros H.
  assert (l = 1 \/ l = 2 \/ l = 3 \/ l = 4) as [-> | [-> | [-> | ->]]] by lia;
    reflexivity.
Qed.


Lemma laneOr1_range (v : option JsValue) : 1 <= laneOr1 v <= 4.
Proof.
  unfold laneOr1.
  destruct (strictEqNum v 1), (strictEqNum v 2), (strictEqNum v 3),
    (strictEqNum v 4); lia.
Qed.


(** An array is an object for [typeof]: an array as the root passes the
    first test and is rejected for its missing config. *)
Example import_array_root (parseISO : string -> option Date)
    (trim : string -> string) (uuidv4 : nat -> string)
    (items : list JsValue) (n : nat) :
  importFromJson parseISO trim uuidv4 (JArr items) n = inl msgConfig.
Proof. reflexivity. Qed.

Example import_green_team :
  importFromJson IsoDate.parse Sample.trim Sample.uuidv4
                 Sample.greenTeamDocument 0
  = inl (msgEventTeam 1).
Proof. vm_compute. reflexivity. Qed.


(** ** Export followed by import *)

Lemma prop_jsonOfEvent (e : TimelineEvent) :
  prop (jsonOfEvent e) "id" = Some (JStr (id e))
  /\ prop (jsonOfEvent e) "date" = Some (JStr (date e))
  /\ prop (jsonOfEvent e) "team" = Some (JStr (team e))
  /\ prop (jsonOfEvent e) "description" = Some (JStr (description e))
  /\ prop (jsonOfEvent e) "lane"
     = match lane e with
       | Some l => Some (JNum (inject_Z l))
       | None => None
       end.
Proof.
  unfold jsonOfEvent, prop. split; [| split; [| split; [| split]]].
  - apply lookup_insert_eq.
  - rewrite lookup_insert_ne by discriminate. apply lookup_insert_eq.
  - rewrite !lookup_insert_ne by discriminate. apply lookup_insert_eq.
  - do 3 (rewrite lookup_insert_ne by discriminate). apply lookup_insert_eq.
  - rewrite !lookup_insert_ne by discriminate.
    destruct (lane e); [apply lookup_singleton_eq | apply lookup_empty].
Qed.

Lemma prop_jsonOfConfig (c : TimelineConfig) :
  prop (jsonOfConfig c) "title" = Some (JStr (title c))
  /\ prop (jsonOfConfig c) "startDate" = Some (JStr (startDate c))
  /\ prop (jsonOfConfig c) "endDate" = Some (JStr (endDate c)).
Proof.
  unfold jsonOfConfig, prop. split; [| split].
  - apply lookup_insert_eq.
  - rewrite lookup_insert_ne by discriminate. apply lookup_insert_eq.
  - rewrite !lookup_insert_ne by discriminate. apply lookup_singleton_eq.
Qed.

Lemma prop_exportDocument (state : AppState) (colors : JsValue) :
  prop (exportDocument state colors) "config"
  = Some (jsonOfConfig (config state))
  /\ prop (exportDocument state colors) "events"
     = Some (JArr (map jsonOfEvent (events state))).
Proof.
  unfold exportDocument, exportState, prop. split.
  - apply lookup_insert_eq.
  - rewrite lookup_insert_ne by discriminate. apply lookup_insert_eq.
Qed.

Section RoundTrip.
Variable parseISO : string -> option Date.
Variable trim : string -> string.
Variable uuidv4 : nat -> string.

Lemma validateEvent_jsonOfEvent (e : TimelineEvent) (i n : nat) :
  stateEventOk parseISO trim e = true ->
  validateEvent parseISO trim uuidv4 (jsonOfEvent e) i n = inr (e, n).
Proof.
  intros H. unfold stateEventOk in H. rewrite !andb_true_iff in H.
  destruct H as [[[[Hid Hdate] Hteam] Hdesc] Hlane].
  destruct (prop_jsonOfEvent e) as (Pid & Pdate & Pteam & Pdesc & Plane).
  rewrite validateEvent_accept.
  - unfold accepted. rewrite Pid, Pdate, Pteam, Pdesc, Plane.
    cbn [isString asString andb]. rewrite Hid.
    destruct e as [eid edate eteam edesc [l |]]; cbn [lane] in *;
      [| discriminate].
    rewrite laneOr1_in by lia. reflexivity.
  - unfold eventOk. rewrite Pdate, Pteam, Pdesc.
    cbn [validDate redOrBlue nonEmptyString].
    unfold isValid in Hdate. rewrite Hdate, Hteam, Hdesc. reflexivity.
Qed.

Lemma validateEvents_jsonOfEvent (evs : list TimelineEvent) (i n : nat) :
  forallb (stateEventOk parseISO trim) evs = true ->
  validateEvents parseISO trim uuidv4 (map jsonOfEvent evs) i n
  = inr (evs, n).
Proof.
  revert i. induction evs as [| e evs IH]; intros i H; simpl in H |- *.
  - reflexivity.
  - apply andb_true_iff in H as [He Hrest].
    unfold mbind, Import_bind.
    rewrite (validateEvent_jsonOfEvent e i n He), (IH (S i) Hrest).
    reflexivity.
Qed.

Lemma loadState_valid (state : AppState) :
  forallb (stateEventOk parseISO trim) (events state) = true ->
  loadState state = state.
Proof.
  destruct state as [cfg evs]. unfold loadState. cbn [config events].
  intros H. f_equal. induction evs as [| e evs IH]; [reflexivity |].
  simpl in H. apply andb_true_iff in H as [He Hrest]. simpl.
  rewrite (IH Hrest). f_equal.
  unfold stateEventOk in He. rewrite !andb_true_iff in He.
  destruct He as [_ Hlane].
  destruct e as [eid edate eteam edesc [l |]]; [reflexivity | discriminate].
Qed.
End RoundTrip.

(** C9. Import is a right inverse of export on the valid
    states: when the title and every identifier and description are not
    empty after trimming, the dates of the config and of the events are
    valid, every team is "red" or "blue" and every lane is from 1 to 4,
    importing the exported document gives back the state itself, config
    and events with their identifiers, no identifier is generated, and
    loading it leaves it unchanged. *)
Theorem C9_import_inverts_export_on_valid_states
    (parseISO : string -> option Date) (trim : string -> string)
    (uuidv4 : nat -> string) (state : AppState) (colors : JsValue)
    (n : nat) :
  stateOk parseISO trim state = true ->
  importFromJson parseISO trim uuidv4 (exportDocument state colors) n
  = inr state
  /\ importData parseISO trim uuidv4 (exportDocument state colors) n
     = inr (state, n)
  /\ loadState state = state.
Proof.
  intros H. unfold stateOk in H. apply andb_true_iff in H as [Hc He].
  unfold stateConfigOk in Hc. rewrite !andb_true_iff in Hc.
  destruct Hc as [[Ht Hs] Hd].
  destruct (prop_exportDocument state colors) as [Pc Pe].
  destruct (prop_jsonOfConfig (config state)) as (Pt & Ps & Pd).
  assert (importData parseISO trim uuidv4 (exportDocument state colors) n
          = inr (state, n)) as E.
  { unfold importData. rewrite Pc, Pe. cbn [default from_option Datatypes.id].
    rewrite Pt, Ps, Pd.
    change (isObject (Some (exportDocument state colors))) with true.
    change (isObject (Some (jsonOfConfig (config state)))) with true.
    cbn [negb isString asString orb]. apply negb_true_iff in Ht. rewrite Ht.
    unfold isValidISODate. cbn [negb isString asString].
    rewrite Hs, Hd. cbn [negb].
    unfold mbind, Import_bind.
    rewrite (validateEvents_jsonOfEvent parseISO trim uuidv4 _ 0 n He).
    destruct state as [[s e t] evs]. reflexivity. }
  split; [unfold importFromJson; rewrite E; reflexivity |].
  split; [exact E |].
  apply (loadState_valid parseISO trim), He.
Qed.

(** The sample state survives the round trip. *)
Lemma C9_round_trip_witness :
  importFromJson IsoDate.parse Sample.trim Sample.uuidv4
                 (exportDocument Sample.goodState JNull) 7%nat
  = inr Sample.goodState
  /\ importData IsoDate.parse Sample.trim Sample.uuidv4
                (exportDocument Sample.goodState JNull) 7%nat
     = inr (Sample.goodState, 7%nat)
  /\ loadState Sample.goodState = Sample.goodState.
Proof.
  apply (C9_import_inverts_export_on_valid_states IsoDate.parse Sample.trim
           Sample.uuidv4 Sample.goodState JNull 7%nat).
  vm_compute. reflexivity.
Defined.

(** * Further properties of the layout *)

(** ** Invariants of the clusters *)

Lemma formClusters_anchored (tes : list TeamEvent.t) :
  Forall (fun cluster =>
            match cluster with
            | [] => False
            | first :: rest => Forall (fun m => near first m = true) rest
            end)
         (formClusters tes).
Proof.
  induction tes as [| ev tes IH] using rev_ind; [constructor |].
  rewrite formClusters_snoc.
  destruct tes as [| t0 tes0].
  - repeat constructor.
  - destruct (formClusters_open (t0 :: tes0)) as (closed & first & rest & E);
      [discriminate |].
    rewrite E in IH |- *. rewrite clusterStep_open.
    apply Forall_app in IH as [Hc Ho].
    apply Forall_inv in Ho.
    destruct (near first ev) eqn:N; apply Forall_app; split; try exact Hc.
    + constructor; [| constructor]. apply Forall_app.
      split; [exact Ho |]. constructor; [exact N | constructor].
    + repeat constructor. exact Ho.
Qed.

Lemma formClusters_apart (tes : list TeamEvent.t) (i : nat)
    (f1 f2 : TeamEvent.t) (r1 r2 : list TeamEvent.t) :
  formClusters tes !! i = Some (f1 :: r1) ->
  formClusters tes !! S i = Some (f2 :: r2) ->
  near f1 f2 = false.
Proof.
  revert i f1 f2 r1 r2.
  induction tes as [| ev tes IH] using rev_ind;
    intros i f1 f2 r1 r2 H1 H2; [discriminate |].
  rewrite formClusters_snoc in H1, H2.
  destruct tes as [| t0 tes0]; [destruct i; discriminate |].
  destruct (formClusters_open (t0 :: tes0)) as (closed & first & rest & E);
    [discriminate |].
  rewrite E in IH, H1, H2. rewrite clusterStep_open in H1, H2.
  destruct (near first ev) eqn:N.
  - destruct (decide (S i < length closed)%nat) as [Hlt | Hge].
    + apply (IH i f1 f2 r1 r2).
      * rewrite lookup_app_l in H1 |- * by lia. exact H1.
      * rewrite lookup_app_l in H2 |- * by lia. exact H2.
    + destruct (decide (S i = length closed)) as [Heq | Hne].
      * rewrite lookup_app_l in H1 by lia.
        rewrite lookup_app_r in H2 by lia.
        replace (S i - length closed)%nat with 0%nat in H2 by lia.
        simpl in H2. injection H2 as <- _.
        apply (IH i f1 first r1 rest).
        -- rewrite lookup_app_l by lia. exact H1.
        -- rewrite lookup_app_r by lia.
           replace (S i - length closed)%nat with 0%nat by lia.
           reflexivity.
      * apply lookup_lt_Some in H2. rewrite length_app in H2.
        simpl in H2. lia.
  - destruct (decide (S i <= length closed)%nat) as [Hle | Hgt].
    + apply (IH i f1 f2 r1 r2).
      * rewrite lookup_app_l in H1 |- * by lia. exact H1.
      * destruct (decide (S i < length closed)%nat).
        -- rewrite lookup_app_l in H2 |- * by lia. exact H2.
        -- rewrite lookup_app_r in H2 |- * by lia.
           replace (S i - length closed)%nat with 0%nat in H2 |- * by lia.
           exact H2.
    + destruct (decide (i = length closed)) as [Heq | Hne].
      * rewrite lookup_app_r in H1, H2 by lia.
        replace (i - length closed)%nat with 0%nat in H1 by lia.
        replace (S i - length closed)%nat with 1%nat in H2 by lia.
        simpl in H1, H2. injection H1 as <- _. injection H2 as <- _.
        exact N.
      * apply lookup_lt_Some in H2. rewrite length_app in H2.
        simpl in H2. lia.
Qed.

(** The clusters of a team split its events into consecutive runs, none
    empty.  For every member of a cluster the difference from the first
    member of the cluster, as the subtraction of doubles gives it, is
    below 1.5 in absolute value, so the two percentages are less than
    [1.5 - 2 ^ -53] apart; for the first members of two consecutive
    clusters the rounded difference is 1.5 or more in absolute value, so
    they are at least [1.5 - 2 ^ -53] apart. *)
Theorem clusters_are_runs_around_their_first_member
    (tes : list TeamEvent.t) :
  concat (formClusters tes) = tes
  /\ (forall cluster, In cluster (formClusters tes) -> cluster <> [])
  /\ (forall first rest m,
        In (first :: rest) (formClusters tes) -> In m rest ->
        (Qabs (toDouble (TeamEvent.percent m - TeamEvent.percent first))
         < PROXIMITY_THRESHOLD_PCT)%Q
        /\ (Qabs (TeamEvent.percent m - TeamEvent.percent first)
            < PROXIMITY_THRESHOLD_PCT - pow2 (-53))%Q)
  /\ (forall (i : nat) (f1 f2 : TeamEvent.t) (r1 r2 : list TeamEvent.t),
        formClusters tes !! i = Some (f1 :: r1) ->
        formClusters tes !! S i = Some (f2 :: r2) ->
        (PROXIMITY_THRESHOLD_PCT
         <= Qabs (toDouble (TeamEvent.percent f2 - TeamEvent.percent f1)))%Q
        /\ (PROXIMITY_THRESHOLD_PCT - pow2 (-53)
            <= Qabs (TeamEvent.percent f2 - TeamEvent.percent f1))%Q).
Proof.
  assert (PROXIMITY_THRESHOLD_PCT == 3 # 2)%Q as E15 by reflexivity.
  split; [apply formClusters_concat |]. split; [| split].
  - intros cluster Hin.
    pose proof (formClusters_nonempty tes) as H.
    rewrite Forall_forall in H. apply H, list_elem_of_In, Hin.
  - intros first rest m Hc Hm.
    pose proof (formClusters_anchored tes) as H.
    rewrite Forall_forall in H.
    specialize (H (first :: rest) (proj2 (list_elem_of_In _ _) Hc)).
    cbv beta iota in H. rewrite Forall_forall in H.
    specialize (H m (proj2 (list_elem_of_In _ _) Hm)).
    split; [apply near_rounded, H |].
    rewrite E15. apply near_exact, H.
  - intros i f1 f2 r1 r2 H1 H2.
    pose proof (formClusters_apart tes i f1 f2 r1 r2 H1 H2) as N.
    split.
    + apply Qnot_lt_le. intros H. apply near_rounded in H. congruence.
    + apply Qnot_lt_le. intros H. rewrite E15 in H.
      apply near_exact in H. congruence.
Qed.

(** ** Invariants of the placement records *)

Lemma assignPositions_member (tes : list TeamEvent.t) (p : PositionedEvent) :
  In p (assignPositions tes) ->
  exists (cluster : list TeamEvent.t) (i : nat) (ev : TeamEvent.t),
    In cluster (formClusters tes)
    /\ cluster !! i = Some ev
    /\ p = place (length cluster) i ev.
Proof.
  rewrite assignPositions_concat. intros H.
  apply in_concat in H as (ps & Hps & Hp).
  apply in_map_iff in Hps as (cluster & <- & Hc).
  apply list_elem_of_In, list_elem_of_lookup in Hp as [i Hi].
  unfold stackCluster in Hi. rewrite list_lookup_imap in Hi.
  destruct (cluster !! i) as [ev |] eqn:E; [| discriminate].
  injection Hi as <-. exists cluster, i, ev. auto.
Qed.

(** Every placement record sits in a cluster at its stack index: the
    index is below the cluster size, the record is truncated exactly when
    its index is 3 or more, and then its cluster has more than 3 members;
    a record with an index below 3 is always drawn. *)
Theorem placement_records_are_consistent (tes : list TeamEvent.t)
    (p : PositionedEvent) :
  In p (assignPositions tes) ->
  (stackIndex p < clusterSize p)%nat
  /\ (truncated p = true <-> (3 <= stackIndex p)%nat)
  /\ (truncated p = true -> (3 < clusterSize p)%nat)
  /\ exists cluster : list TeamEvent.t,
       In cluster (formClusters tes)
       /\ clusterSize p = length cluster
       /\ cluster !! stackIndex p = Some (teamEventOf p).
Proof.
  intros H.
  destruct (assignPositions_member tes p H) as (cluster & i & ev & Hc & Hi & ->).
  pose proof (lookup_lt_Some _ _ _ Hi) as Hlt.
  rewrite place_truncated. cbn [stackIndex clusterSize place].
  unfold CLUSTER_VISIBLE_LIMIT. split; [exact Hlt |].
  split; [split; [tauto | lia] |]. split; [tauto |].
  exists cluster. split; [exact Hc |]. split; [reflexivity |].
  destruct ev. exact Hi.
Qed.

(** The three nearby events of the sample: the record of the third. *)
Lemma placement_records_witness :
  (stackIndex Demo.third < clusterSize Demo.third)%nat
  /\ (truncated Demo.third = true <-> (3 <= stackIndex Demo.third)%nat)
  /\ (truncated Demo.third = true -> (3 < clusterSize Demo.third)%nat)
  /\ exists cluster : list TeamEvent.t,
       In cluster (formClusters Demo.threeNear)
       /\ clusterSize Demo.third = length cluster
       /\ cluster !! stackIndex Demo.third = Some (teamEventOf Demo.third).
Proof.
  apply (placement_records_are_consistent Demo.threeNear Demo.third).
  right. right. left. reflexivity.
Defined.

(** ** The overflow descriptors *)

Lemma overflowLoop_dates (all todo : list PositionedEvent)
    (seen : gset string) :
  exists ds : list string,
    NoDup ds
    /\ (forall d,
          d ∈ ds
          <-> ((d ∉ seen)
               /\ exists r, r ∈ todo /\ truncated r = true
                            /\ date (event r) = d))
    /\ map (fun o => (Overflow.count o, Overflow.offset o, Overflow.events o))
           (overflowLoop all seen todo)
       = map (fun d =>
                (length (List.filter (hiddenOn d) all), overflowOffset,
                 map event (List.filter (hiddenOn d) all)))
             ds.
Proof.
  revert seen. induction todo as [| p todo IH]; intros seen.
  - exists []. split; [constructor |]. split; [| reflexivity].
    intros d. split; [intros H; inversion H |].
    intros (_ & r & Hr & _). inversion Hr.
  - cbn [overflowLoop].
    destruct (truncated p) eqn:T; cbn [negb orb].
    + case_bool_decide as Hseen.
      * destruct (IH seen) as (ds & Hnd & Hds & Hmap).
        exists ds. split; [exact Hnd |]. split; [| exact Hmap].
        intros d. rewrite Hds. split.
        -- intros (Hn & r & Hr & Ht & Hd). split; [exact Hn |].
           exists r. split; [right; exact Hr | auto].
        -- intros (Hn & r & Hr & Ht & Hd). split; [exact Hn |].
           apply elem_of_cons in Hr as [-> | Hr]; [congruence |].
           exists r. auto.
      * destruct (IH ({[date (event p)]} ∪ seen)) as (ds & Hnd & Hds & Hmap).
        exists (date (event p) :: ds). split; [| split].
        -- constructor; [| exact Hnd]. rewrite Hds.
           intros (Hn & _). apply Hn, elem_of_union. left.
           apply elem_of_singleton. reflexivity.
        -- intros d. rewrite elem_of_cons, Hds. split.
           ++ intros [-> | (Hn & r & Hr & Ht & Hd)].
              ** split; [exact Hseen |]. exists p. split; [left | auto].
              ** split.
                 { intros Hs. apply Hn, elem_of_union. right. exact Hs. }
                 exists r. split; [right; exact Hr | auto].
           ++ intros (Hn & r & Hr & Ht & Hd).
              destruct (decide (d = date (event p))) as [-> | Hne];
                [left; reflexivity |].
              right. split.
              { intros Hs. apply elem_of_union in Hs as [Hs | Hs];
                  [apply elem_of_singleton in Hs; exact (Hne Hs)
                  | exact (Hn Hs)]. }
              apply elem_of_cons in Hr as [-> | Hr]; [congruence |].
              exists r. auto.
        -- cbn [map]. rewrite Hmap. reflexivity.
    + destruct (IH seen) as (ds & Hnd & Hds & Hmap).
      exists ds. split; [exact Hnd |]. split; [| exact Hmap].
      intros d. rewrite Hds. split.
      * intros (Hn & r & Hr & Ht & Hd). split; [exact Hn |].
        exists r. split; [right; exact Hr | auto].
      * intros (Hn & r & Hr & Ht & Hd). split; [exact Hn |].
        apply elem_of_cons in Hr as [-> | Hr]; [congruence |].
        exists r. auto.
Qed.

Lemma overflows_dates (all : list PositionedEvent) :
  exists ds : list string,
    NoDup ds
    /\ (forall d,
          d ∈ ds
          <-> exists r, r ∈ all /\ truncated r = true /\ date (event r) = d)
    /\ map (fun o => (Overflow.count o, Overflow.offset o, Overflow.events o))
           (overflows all)
       = map (fun d =>
                (length (List.filter (hiddenOn d) all), overflowOffset,
                 map event (List.filter (hiddenOn d) all)))
             ds.
Proof.
  destruct (overflowLoop_dates all all ∅) as (ds & Hnd & Hds & Hmap).
  exists ds. split; [exact Hnd |]. split; [| exact Hmap].
  intros d. rewrite Hds. split; [tauto |]. intros H.
  split; [apply not_elem_of_empty | exact H].
Qed.

(** The overflow aggregation gives one descriptor for each date that a
    truncated record of the team has, and none when no record is
    truncated: the descriptor of a date holds all truncated records of
    that date, [count] is their number, which is at least 1, and [offset]
    is [poleHeight + 3 * stackSpacing]. *)
Theorem overflows_one_descriptor_per_date (all : list PositionedEvent) :
  exists ds : list string,
    NoDup ds
    /\ (forall d,
          d ∈ ds
          <-> exists r, r ∈ all /\ truncated r = true /\ date (event r) = d)
    /\ map (fun o => (Overflow.count o, Overflow.offset o, Overflow.events o))
           (overflows all)
       = map (fun d =>
                (length (List.filter (hiddenOn d) all),
                 poleHeight + 3 * stackSpacing,
                 map event (List.filter (hiddenOn d) all)))
             ds
    /\ (forall d, d ∈ ds ->
                  (1 <= length (List.filter (hiddenOn d) all))%nat)
    /\ (List.filter truncated all = [] -> overflows all = []).
Proof.
  destruct (overflows_dates all) as (ds & Hnd & Hds & Hmap).
  exists ds. split; [exact Hnd |]. split; [exact Hds |].
  split; [exact Hmap |]. split.
  - intros d Hd. apply Hds in Hd as (r & Hr & Ht & Hdate).
    assert (In r (List.filter (hiddenOn d) all)) as Hin.
    { apply filter_In. split; [apply list_elem_of_In, Hr |].
      unfold hiddenOn. rewrite Ht, Hdate, String.eqb_refl. reflexivity. }
    destruct (List.filter (hiddenOn d) all); [inversion Hin | simpl; lia].
  - intros Hnone.
    destruct ds as [| d ds'].
    + destruct (overflows all); [reflexivity | discriminate].
    + exfalso. destruct (proj1 (Hds d)) as (r & Hr & Ht & _); [left |].
      assert (In r (List.filter truncated all)) as Hin.
      { apply filter_In. split; [apply list_elem_of_In, Hr | exact Ht]. }
      rewrite Hnone in Hin. inversion Hin.
Qed.

Lemma hidden_groups_perm (l : list PositionedEvent) (ds : list string) :
  NoDup ds ->
  concat (map (fun d => List.filter (hiddenOn d) l) ds)
  ≡ₚ List.filter
       (fun r => truncated r && bool_decide (date (event r) ∈ ds)) l.
Proof.
  induction 1 as [| d ds Hd Hnd IH]; cbn [map concat].
  - induction l as [| r l IHl]; [reflexivity |]. cbn [List.filter].
    rewrite bool_decide_eq_false_2 by (apply not_elem_of_nil).
    rewrite andb_false_r. exact IHl.
  - rewrite IH. clear IH.
    induction l as [| r l IHl]; [reflexivity |]. cbn [List.filter].
    unfold hiddenOn at 1.
    destruct (truncated r); cbn [andb]; [| exact IHl].
    destruct (String.eqb_spec (date (event r)) d) as [E | N].
    + rewrite (bool_decide_eq_false_2 (date (event r) ∈ ds))
        by (rewrite E; exact Hd).
      rewrite (bool_decide_eq_true_2 (date (event r) ∈ d :: ds))
        by (rewrite E; left).
      cbn [app]. constructor. exact IHl.
    + destruct (decide (date (event r) ∈ ds)) as [Hin | Hout].
      * rewrite (bool_decide_eq_true_2 _ Hin).
        rewrite (bool_decide_eq_true_2 (date (event r) ∈ d :: ds))
          by (right; exact Hin).
        rewrite <- Permutation_middle. constructor. exact IHl.
      * rewrite (bool_decide_eq_false_2 _ Hout).
        rewrite (bool_decide_eq_false_2 (date (event r) ∈ d :: ds)).
        -- exact IHl.
        -- intros H. apply elem_of_cons in H as [H | H];
             [exact (N H) | exact (Hout H)].
Qed.

Lemma filter_ext_on {A} (f g : A -> bool) (l : list A) :
  (forall x, In x l -> f x = g x) -> List.filter f l = List.filter g l.
Proof.
  induction l as [| x l IH]; intros H; [reflexivity |]. cbn [List.filter].
  rewrite (H x (or_introl eq_refl)), IH; [reflexivity |].
  intros y Hy. apply H. right. exact Hy.
Qed.

Lemma sum_of_lengths {A} (groups : list (list A)) :
  sum_list (map length groups) = length (concat groups).
Proof.
  induction groups as [| g groups IH]; [reflexivity |].
  cbn [map sum_list concat]. rewrite length_app, IH. reflexivity.
Qed.

Lemma overflows_groups (all : list PositionedEvent) :
  exists ds : list string,
    map Overflow.events (overflows all)
    = map (fun d => map event (List.filter (hiddenOn d) all)) ds
    /\ map Overflow.count (overflows all)
       = map (fun d => length (List.filter (hiddenOn d) all)) ds
    /\ concat (map (fun d => List.filter (hiddenOn d) all) ds)
       ≡ₚ List.filter truncated all.
Proof.
  destruct (overflows_dates all) as (ds & Hnd & Hds & Hmap).
  exists ds. split; [| split].
  - apply (f_equal (map snd)) in Hmap. rewrite !map_map in Hmap. exact Hmap.
  - apply (f_equal (map (fun t => fst (fst t)))) in Hmap.
    rewrite !map_map in Hmap. exact Hmap.
  - rewrite (hidden_groups_perm all ds Hnd).
    erewrite filter_ext_on; [reflexivity |].
    intros r Hr. cbn beta. destruct (truncated r) eqn:Ht; [| reflexivity].
    rewrite bool_decide_eq_true_2; [reflexivity |].
    apply Hds. exists r. split; [apply list_elem_of_In, Hr | auto].
Qed.

Lemma overflows_counts (all : list PositionedEvent) :
  sum_list (map Overflow.count (overflows all))
  = length (List.filter truncated all).
Proof.
  destruct (overflows_groups all) as (ds & _ & Hc & Hperm).
  rewrite Hc. rewrite <- (Permutation_length Hperm).
  rewrite <- sum_of_lengths, map_map. reflexivity.
Qed.

Lemma filter_length_split {A} (f : A -> bool) (l : list A) :
  (length (List.filter f l) + length (List.filter (fun x => negb (f x)) l)
   = length l)%nat.
Proof.
  rewrite <- length_app. apply Permutation_length, filter_split_perm.
Qed.

(** The overflow descriptors share out the truncated records: each
    truncated record is under exactly one descriptor, no other event is,
    and the counts add up to the number of truncated records. *)
Theorem overflows_partition_the_truncated_records
    (all : list PositionedEvent) :
  concat (map Overflow.events (overflows all))
  ≡ₚ map event (List.filter truncated all)
  /\ sum_list (map Overflow.count (overflows all))
     = length (List.filter truncated all)
  /\ Forall (fun o => Overflow.count o = length (Overflow.events o))
            (overflows all).
Proof.
  destruct (overflows_groups all) as (ds & He & Hc & Hperm).
  split; [| split].
  - rewrite He. rewrite <- Hperm.
    rewrite <- (map_map (fun d => List.filter (hiddenOn d) all) (map event)).
    rewrite concat_map. reflexivity.
  - apply overflows_counts.
  - apply Forall_forall. intros o Ho.
    destruct (overflows_dates all) as (ds' & _ & _ & Hmap).
    apply list_elem_of_In in Ho.
    apply (in_map (fun o => (Overflow.count o, Overflow.offset o,
                             Overflow.events o))) in Ho.
    rewrite Hmap in Ho. apply in_map_iff in Ho as (d & E & _).
    injection E as E1 _ E3. rewrite <- E1, <- E3, length_map. reflexivity.
Qed.

(** ** Monotone mappers and the order of the placement records *)

Lemma findWeekIdx_after (day : Date) (ws : list Date) (k j : nat) (wj : Date) :
  (findWeekIdx day ws k < j < k)%nat -> ws !! j = Some wj -> day < wj.
Proof.
  induction k as [| k IH]; [lia |]. simpl.
  destruct (ws !! k) as [wk |] eqn:Ek.
  - destruct (Z.leb_spec wk day) as [Hk | Hk]; [lia |].
    intros Hj Ej. destruct (decide (j = k)) as [Hjk | Hjk].
    + rewrite Hjk, Ek in Ej. injection Ej as Ej. lia.
    + apply IH; [lia | exact Ej].
  - intros Hj Ej. destruct (decide (j = k)) as [Hjk | Hjk].
    + rewrite Hjk, Ek in Ej. discriminate.
    + apply IH; [lia | exact Ej].
Qed.

Lemma findWeekIdx_pos (day : Date) (ws : list Date) (k : nat) :
  (0 < findWeekIdx day ws k)%nat ->
  exists w, ws !! findWeekIdx day ws k = Some w /\ w <= day.
Proof.
  induction k as [| k IH]; [simpl; lia |]. simpl.
  destruct (ws !! k) as [wk |] eqn:Ek.
  - destruct (Z.leb_spec wk day) as [Hk | Hk]; [| exact IH].
    intros _. exists wk. auto.
  - exact IH.
Qed.

Lemma findWeekIdx_mono (a b : Date) (ws : list Date) :
  a <= b ->
  (findWeekIdx a ws (length ws) <= findWeekIdx b ws (length ws))%nat.
Proof.
  intros Hab.
  destruct (le_lt_dec (findWeekIdx a ws (length ws))
                      (findWeekIdx b ws (length ws))) as [H | H]; [exact H |].
  exfalso.
  destruct (findWeekIdx_pos a ws (length ws) ltac:(lia)) as (w & Ew & Hw).
  pose proof (lookup_lt_Some _ _ _ Ew) as Hlt.
  pose proof (findWeekIdx_after b ws (length ws)
                (findWeekIdx a ws (length ws)) w ltac:(lia) Ew). lia.
Qed.

Lemma sorted_lookup_lt (ws : list Date) (i j : nat) (a b : Date) :
  StronglySorted Z.lt ws -> (i < j)%nat ->
  ws !! i = Some a -> ws !! j = Some b -> a < b.
Proof.
  intros Hs. revert i j a b.
  induction Hs as [| x l Hs IH Hall]; intros i j a b Hij Ha Hb.
  - discriminate.
  - destruct j as [| j]; [lia |]. destruct i as [| i]; simpl in Ha, Hb.
    + injection Ha as <-. rewrite Forall_forall in Hall. apply Hall.
      eapply list_elem_of_lookup_2. exact Hb.
    + eapply (IH i j); [lia | eassumption | eassumption].
Qed.

Lemma dayToEvenPercent_unfold (day : Date) (ws : list Date) (endDate : Date) :
  ws <> [] ->
  dayToEvenPercent day ws endDate
  = (ofNat (findWeekIdx day ws (length ws)) * (100 / ofNat (length ws))
     + (if 0 <? weekLengthInDays ws endDate (findWeekIdx day ws (length ws))
        then ofZ (day - at_ ws (findWeekIdx day ws (length ws)))
             / ofZ (weekLengthInDays ws endDate
                      (findWeekIdx day ws (length ws)))
        else 0)
       * (100 / ofNat (length ws)))%Q.
Proof.
  intros Hne. unfold dayToEvenPercent.
  destruct ws as [| w0 ws0]; [congruence |]. reflexivity.
Qed.

Lemma dayToEvenPercent_mono (a b : Date) (ws : list Date) (endDate : Date) :
  StronglySorted Z.lt ws -> a <= b ->
  (dayToEvenPercent a ws endDate <= dayToEvenPercent b ws endDate)%Q.
Proof.
  intros Hs Hab.
  destruct ws as [| w0 ws0] eqn:Ews; [apply Qle_refl |]. rewrite <- Ews in *.
  assert (ws <> []) as Hne by (rewrite Ews; discriminate).
  assert (0 < length ws)%nat as Hn by (rewrite Ews; simpl; lia).
  rewrite !dayToEvenPercent_unfold by exact Hne.
  pose proof (findWeekIdx_mono a b ws Hab) as Hidx.
  pose proof (findWeekIdx_lt a ws (length ws) Hn) as Hia.
  pose proof (findWeekIdx_lt b ws (length ws) Hn) as Hib.
  set (i := findWeekIdx a ws (length ws)) in *.
  set (j := findWeekIdx b ws (length ws)) in *.
  pose proof (weekWidth_pos (length ws) Hn) as HW.
  set (W := (100 / ofNat (length ws))%Q) in *.
  destruct (decide (i = j)) as [Hij | Hij].
  - rewrite <- Hij. apply Qplus_le_r. apply Qmult_le_compat_r; [| lra].
    destruct (Z.ltb_spec 0 (weekLengthInDays ws endDate i)); [| apply Qle_refl].
    apply ratio_mono; lia.
  - assert (i < j)%nat as Hlt by lia.
    destruct (lookup_lt_is_Some_2 ws (S i) ltac:(lia)) as [wn En].
    destruct (lookup_lt_is_Some_2 ws i ltac:(lia)) as [wi Ei].
    pose proof (sorted_adjacent ws i wi wn Hs Ei En) as Hadj.
    assert (a < wn) as Han.
    { apply (findWeekIdx_after a ws (length ws) (S i) wn);
        [fold i; lia | exact En]. }
    assert (weekLengthInDays ws endDate i = wn - wi) as Hlen.
    { unfold weekLengthInDays, weekEndOf, differenceInCalendarDays.
      destruct (Nat.ltb_spec i (length ws - 1)); [| lia].
      replace (i + 1)%nat with (S i) by lia.
      rewrite (at_lookup ws (S i) wn En), (at_lookup ws i wi Ei). reflexivity. }
    rewrite Hlen, (at_lookup ws i wi Ei).
    destruct (Z.ltb_spec 0 (wn - wi)); [| lia].
    assert (ofZ (a - wi) / ofZ (wn - wi) < 1)%Q as Hfa.
    { rewrite <- (ratio_one (wn - wi)) by lia. apply ratio_lt; lia. }
    assert (0 <= (if 0 <? weekLengthInDays ws endDate j
                  then ofZ (b - at_ ws j) / ofZ (weekLengthInDays ws endDate j)
                  else 0))%Q as Hfb.
    { destruct (Z.ltb_spec 0 (weekLengthInDays ws endDate j)) as [Hp | Hp];
        [| apply Qle_refl].
      destruct (findWeekIdx_pos b ws (length ws) ltac:(fold j; lia))
        as (wj & Ej & Hj).
      fold j in Ej. rewrite (at_lookup ws j wj Ej).
      rewrite <- (ratio_zero (weekLengthInDays ws endDate j)).
      apply ratio_mono; lia. }
    assert (ofNat i + 1 <= ofNat j)%Q as Hij'.
    { rewrite <- ofNat_succ. unfold ofNat. rewrite <- Zle_Qle. lia. }
    set (fa := (ofZ (a - wi) / ofZ (wn - wi))%Q) in *.
    set (fb := (if 0 <? weekLengthInDays ws endDate j
                then ofZ (b - at_ ws j) / ofZ (weekLengthInDays ws endDate j)
                else 0)%Q) in *.
    assert (fa * W <= 1 * W)%Q by (apply Qmult_le_compat_r; lra).
    assert (0 <= fb * W)%Q by (apply Qmult_le_0_compat; lra).
    assert ((ofNat i + 1) * W <= ofNat j * W)%Q
      by (apply Qmult_le_compat_r; lra).
    lra.
Qed.


Lemma sortInsert_sorted_by {A} (key : A -> Z) (cmp : A -> A -> Z)
    (a : A) (l : list A) :
  (forall x y, (0 <? cmp x y) = (key y <? key x)) ->
  StronglySorted (fun x y => key x <= key y) l ->
  StronglySorted (fun x y => key x <= key y) (sortInsert cmp a l).
Proof.
  intros Hcmp. induction 1 as [| x l Hs IH Hall]; simpl.
  - repeat constructor.
  - rewrite Hcmp. destruct (Z.ltb_spec (key x) (key a)) as [Hlt | Hge].
    + constructor; [exact IH |].
      apply Forall_forall. intros y Hy.
      assert (y ∈ a :: l) as Hy' by (rewrite <- sortInsert_perm; exact Hy).
      apply elem_of_cons in Hy' as [-> | Hy']; [lia |].
      rewrite Forall_forall in Hall. apply Hall, Hy'.
    + constructor; [constructor; assumption |].
      constructor; [exact Hge |].
      rewrite Forall_forall in Hall |- *. intros y Hy.
      specialize (Hall y Hy). lia.
Qed.

Lemma sort_sorted_by {A} (key : A -> Z) (cmp : A -> A -> Z) (l : list A) :
  (forall x y, (0 <? cmp x y) = (key y <? key x)) ->
  StronglySorted (fun x y => key x <= key y) (sort cmp l).
Proof.
  intros Hcmp. induction l as [| a l IH]; simpl; [constructor |].
  apply sortInsert_sorted_by; assumption.
Qed.

Lemma StronglySorted_filter_list {A} (R : A -> A -> Prop) (f : A -> bool)
    (l : list A) :
  StronglySorted R l -> StronglySorted R (List.filter f l).
Proof.
  induction 1 as [| x l Hs IH Hall]; simpl; [constructor |].
  destruct (f x); [| exact IH]. constructor; [exact IH |].
  rewrite Forall_forall in Hall |- *. intros y Hy.
  apply Hall. apply list_elem_of_In, filter_In in Hy as [Hy _].
  apply list_elem_of_In, Hy.
Qed.

Lemma StronglySorted_map_list {A B} (R : B -> B -> Prop) (g : A -> B)
    (l : list A) :
  StronglySorted (fun x y => R (g x) (g y)) l -> StronglySorted R (map g l).
Proof.
  induction 1 as [| x l Hs IH Hall]; simpl; constructor; [exact IH |].
  pose proof (proj1 (Forall_forall _ _) Hall) as Hall'.
  apply Forall_forall. intros y Hy.
  apply list_elem_of_In, in_map_iff in Hy as (z & <- & Hz).
  apply Hall', list_elem_of_In, Hz.
Qed.

Lemma StronglySorted_weaken {A} (R S : A -> A -> Prop) (l : list A) :
  (forall x y, R x y -> S x y) -> StronglySorted R l -> StronglySorted S l.
Proof.
  intros HRS. induction 1 as [| x l Hs IH Hall]; constructor; [exact IH |].
  pose proof (proj1 (Forall_forall _ _) Hall) as Hall'.
  apply Forall_forall. intros y Hy. apply HRS, Hall', Hy.
Qed.

Section Order.
Variable parseISO : string -> Date.
Variable toPercent : Date -> Q.
Hypothesis toPercent_mono :
  forall a b, a <= b -> (toPercent a <= toPercent b)%Q.

Lemma team_percents_sorted (f : TimelineEvent -> bool)
    (events : list TimelineEvent) :
  StronglySorted Qle
    (map percent
       (assignPositions
          (map (withPercent parseISO toPercent)
               (List.filter f (sort (byDate parseISO) events))))).
Proof.
  set (l := List.filter f (sort (byDate parseISO) events)).
  replace (map percent
             (assignPositions (map (withPercent parseISO toPercent) l)))
    with (map (fun e => toPercent (dayOf parseISO e)) l).
  - apply StronglySorted_map_list.
    apply StronglySorted_weaken
      with (R := fun x y => dayOf parseISO x <= dayOf parseISO y).
    + intros x y. apply toPercent_mono.
    + apply StronglySorted_filter_list.
      apply (sort_sorted_by (dayOf parseISO)). apply byDate_pos.
  - pose proof (f_equal (map TeamEvent.percent)
                  (assignPositions_teamEventOf
                     (map (withPercent parseISO toPercent) l))) as E.
    rewrite !map_map in E. symmetry. exact E.
Qed.
End Order.

Lemma StronglySorted_middle {A} (R : A -> A -> Prop) (l1 l2 : list A)
    (x y : A) :
  StronglySorted R (l1 ++ x :: l2) -> In y l2 -> R x y.
Proof.
  induction l1 as [| z l1 IH]; simpl; intros Hs Hy.
  - apply StronglySorted_inv in Hs as [_ Hall].
    pose proof (proj1 (Forall_forall _ _) Hall) as Hall'.
    apply Hall', list_elem_of_In, Hy.
  - apply StronglySorted_inv in Hs as [Hs _]. apply IH; assumption.
Qed.

Lemma cluster_after_first (tes : list TeamEvent.t)
    (first m : TeamEvent.t) (rest : list TeamEvent.t) :
  StronglySorted Qle (map TeamEvent.percent tes) ->
  In (first :: rest) (formClusters tes) -> In m rest ->
  (TeamEvent.percent first <= TeamEvent.percent m)%Q.
Proof.
  intros Hs Hc Hm.
  apply in_split in Hc as (c1 & c2 & E).
  pose proof (formClusters_concat tes) as Hcat. rewrite E in Hcat.
  rewrite concat_app in Hcat. cbn [concat] in Hcat.
  rewrite <- Hcat in Hs. rewrite map_app in Hs. cbn [app map] in Hs.
  apply (StronglySorted_middle Qle _ _ _ (TeamEvent.percent m)) in Hs;
    [exact Hs |].
  rewrite map_app. apply in_or_app. left. apply in_map. exact Hm.
Qed.

Lemma drawn_count (l : list PositionedEvent) (name : string) :
  length (drawn (map (fun p => renderEvent p name) l))
  = length (List.filter (fun p => negb (truncated p)) l).
Proof.
  induction l as [| p l IH]; [reflexivity |].
  cbn [map List.filter]. unfold drawn in *. cbn [omap list_omap].
  unfold renderEvent at 1.
  destruct (truncated p); cbn [negb Datatypes.id]; simpl; rewrite IH;
    reflexivity.
Qed.

Lemma drawn_zIndex (l : list PositionedEvent) (name : string) :
  map Flag.zIndex (drawn (map (fun p => renderEvent p name) l))
  = map (fun p => 6 - default 1 (lane (event p)))
        (List.filter (fun p => negb (truncated p)) l).
Proof.
  induction l as [| p l IH]; [reflexivity |].
  cbn [map List.filter]. unfold drawn in *. cbn [omap list_omap].
  unfold renderEvent at 1.
  destruct (truncated p); cbn [negb Datatypes.id]; simpl; rewrite IH;
    [reflexivity |]. f_equal. lia.
Qed.

(** Both mappers of the component are monotone in the day, whatever the
    range, when the week starts are in increasing order: a later day is
    never placed to the left of an earlier one. *)
Theorem mappers_are_monotone (parseISO : string -> Date)
    (eachWeekOfInterval : Date -> Date -> list Date)
    (config : TimelineConfig) (timeScale : TimeScale) (a b : Date) :
  StronglySorted Z.lt (weekStarts parseISO eachWeekOfInterval config) ->
  a <= b ->
  (toPercent parseISO eachWeekOfInterval config timeScale a
   <= toPercent parseISO eachWeekOfInterval config timeScale b)%Q.
Proof.
  intros Hs Hab. destruct timeScale.
  - rewrite !toPercent_days. apply dayToLinearPercent_mono, Hab.
  - rewrite !toPercent_weeks. apply dayToEvenPercent_mono; assumption.
Qed.

(** January 2024 under the week policy, with the weeks of date-fns. *)
Lemma mappers_are_monotone_witness :
  (toPercent IsoDate.parseValid Calendar.eachWeekOfInterval
             Sample.monthConfig weeks (IsoDate.parseValid "2024-01-07")
   <= toPercent IsoDate.parseValid Calendar.eachWeekOfInterval
                Sample.monthConfig weeks (IsoDate.parseValid "2024-01-08"))%Q.
Proof.
  apply (mappers_are_monotone IsoDate.parseValid Calendar.eachWeekOfInterval
           Sample.monthConfig weeks (IsoDate.parseValid "2024-01-07")
           (IsoDate.parseValid "2024-01-08")).
  - vm_compute. repeat constructor.
  - vm_compute. discriminate.
Defined.

(** With a monotone mapper the placement records of each team are in
    non-decreasing order of their percentages, and each cluster is a
    window that starts at its first member: every member lies at or after
    the first member and less than 1.5 points after it. *)
Theorem positions_follow_dates (parseISO : string -> Date)
    (toPercent : Date -> Q) (events : list TimelineEvent) :
  (forall a b : Date, a <= b -> (toPercent a <= toPercent b)%Q) ->
  StronglySorted Qle
    (map percent (Positions.red (getEventPositions parseISO events toPercent)))
  /\ StronglySorted Qle
       (map percent
          (Positions.blue (getEventPositions parseISO events toPercent)))
  /\ (forall (pick : TimelineEvent -> bool) (first m : TeamEvent.t)
             (rest : list TeamEvent.t),
        In (first :: rest)
           (formClusters
              (map (withPercent parseISO toPercent)
                   (List.filter pick (sort (byDate parseISO) events)))) ->
        In m rest ->
        (TeamEvent.percent first <= TeamEvent.percent m)%Q
        /\ (TeamEvent.percent m
            < TeamEvent.percent first + PROXIMITY_THRESHOLD_PCT)%Q).
Proof.
  intros Hmono. rewrite getEventPositions_red, getEventPositions_blue.
  split; [apply team_percents_sorted, Hmono |].
  split; [apply team_percents_sorted, Hmono |].
  intros pick first m rest Hc Hm.
  set (tes := map (withPercent parseISO toPercent)
                  (List.filter pick (sort (byDate parseISO) events))) in *.
  assert (StronglySorted Qle (map TeamEvent.percent tes)) as Hs.
  { pose proof (team_percents_sorted parseISO toPercent Hmono pick events)
      as H.
    fold tes in H.
    pose proof (f_equal (map TeamEvent.percent)
                  (assignPositions_teamEventOf tes)) as E.
    rewrite !map_map in E. rewrite <- E. exact H. }
  pose proof (cluster_after_first tes first m rest Hs Hc Hm) as Hle.
  split; [exact Hle |].
  pose proof (formClusters_anchored tes) as Ha.
  pose proof (proj1 (Forall_forall _ _) Ha (first :: rest)
                (proj2 (list_elem_of_In _ _) Hc)) as Hnear.
  cbv beta iota in Hnear.
  pose proof (proj1 (Forall_forall _ _) Hnear m
                (proj2 (list_elem_of_In _ _) Hm)) as Hn.
  apply near_exact in Hn. rewrite Qabs_pos in Hn by lra.
  pose proof (pow2_pos (-53)) as Hp.
  assert (PROXIMITY_THRESHOLD_PCT == 3 # 2)%Q as E15 by reflexivity.
  rewrite E15. lra.
Qed.

(** The five events on three days of the sample, under the day policy. *)
Lemma positions_follow_dates_witness :
  StronglySorted Qle
    (map percent
       (Positions.red
          (getEventPositions IsoDate.parseValid Sample.fiveCloseDays
             (fun day => dayToLinearPercent day 19723 200))))
  /\ StronglySorted Qle
       (map percent
          (Positions.blue
             (getEventPositions IsoDate.parseValid Sample.fiveCloseDays
                (fun day => dayToLinearPercent day 19723 200))))
  /\ (forall (pick : TimelineEvent -> bool) (first m : TeamEvent.t)
             (rest : list TeamEvent.t),
        In (first :: rest)
           (formClusters
              (map (withPercent IsoDate.parseValid
                      (fun day => dayToLinearPercent day 19723 200))
                   (List.filter pick
                      (sort (byDate IsoDate.parseValid)
                            Sample.fiveCloseDays)))) ->
        In m rest ->
        (TeamEvent.percent first <= TeamEvent.percent m)%Q
        /\ (TeamEvent.percent m
            < TeamEvent.percent first + PROXIMITY_THRESHOLD_PCT)%Q).
Proof.
  apply (positions_follow_dates IsoDate.parseValid
           (fun day => dayToLinearPercent day 19723 200)
           Sample.fiveCloseDays).
  intros a b Hab. apply dayToLinearPercent_mono, Hab.
Defined.

(** ** What is drawn for a team *)

(** The flags of a team are drawn from the highest lane down, so their
    z-indices never decrease along the drawing order; one flag is drawn
    for each record that is not truncated, and none for a truncated one. *)
Theorem flags_are_drawn_from_the_highest_lane
    (positions : list PositionedEvent) (name : string) :
  StronglySorted Z.le (map Flag.zIndex (drawn (renderTeam positions name)))
  /\ length (drawn (renderTeam positions name))
     = length (List.filter (fun p => negb (truncated p)) positions)
  /\ map Flag.zIndex (drawn (renderTeam positions name))
     ≡ₚ map (fun p => 6 - default 1 (lane (event p)))
            (List.filter (fun p => negb (truncated p)) positions).
Proof.
  unfold renderTeam. rewrite drawn_zIndex, drawn_count.
  split; [| split].
  - apply StronglySorted_map_list.
    apply StronglySorted_filter_list.
    apply StronglySorted_weaken
      with (R := fun x y => - default 1 (lane (event x))
                            <= - default 1 (lane (event y))).
    + intros x y H. lia.
    + apply (sort_sorted_by (fun p => - default 1 (lane (event p)))).
      intros x y. unfold byLaneDesc.
      destruct (Z.ltb_spec 0 (default 1 (lane (event y))
                              - default 1 (lane (event x)))),
        (Z.ltb_spec (- default 1 (lane (event y)))
                    (- default 1 (lane (event x))));
        try reflexivity; lia.
  - apply Permutation_length, filter_perm, sort_perm.
  - apply Permutation_map, filter_perm, sort_perm.
Qed.

(** Every event of a team is either drawn as a flag or counted by
    exactly one overflow descriptor: for each team the number of flags
    plus the sum of the overflow counts is the number of the team's
    events, and over both teams it is the number of events. *)
Theorem every_event_is_drawn_or_counted (parseISO : string -> Date)
    (events : list TimelineEvent) (toPercent : Date -> Q) :
  (length (drawn (renderTeam
                    (Positions.red
                       (getEventPositions parseISO events toPercent)) "red"))
   + sum_list (map Overflow.count
                   (redOverflows
                      (getEventPositions parseISO events toPercent)))
   = length (List.filter isRed events))%nat
  /\ (length (drawn (renderTeam
                       (Positions.blue
                          (getEventPositions parseISO events toPercent))
                       "blue"))
      + sum_list (map Overflow.count
                      (blueOverflows
                         (getEventPositions parseISO events toPercent)))
      = length (List.filter notRed events))%nat
  /\ (length (List.filter isRed events) + length (List.filter notRed events)
      = length events)%nat.
Proof.
  assert (forall (ps : list PositionedEvent) (name : string),
            (length (drawn (renderTeam ps name))
             + sum_list (map Overflow.count (overflows ps))
             = length ps)%nat) as Hteam.
  { intros ps name. unfold renderTeam. rewrite drawn_count.
    rewrite (Permutation_length
               (filter_perm (fun p => negb (truncated p)) _ _
                  (sort_perm byLaneDesc ps))).
    rewrite overflows_counts.
    rewrite Nat.add_comm. apply filter_length_split. }
  unfold redOverflows, blueOverflows. rewrite !Hteam.
  rewrite getEventPositions_red, getEventPositions_blue.
  split; [| split].
  - rewrite <- (length_map event), assignPositions_events.
    apply Permutation_length, filter_perm, sort_perm.
  - rewrite <- (length_map event), assignPositions_events.
    apply Permutation_length, filter_perm, sort_perm.
  - unfold notRed. apply filter_length_split.
Qed.

(** ** The ticks of the axis *)

Lemma imap_lookup {A B} (f : nat -> A -> B) (l : list A) (i : nat) :
  imap f l !! i = option_map (f i) (l !! i).
Proof.
  revert f i. induction l as [| x l IH]; intros f i; [reflexivity |].
  destruct i as [| i]; [reflexivity |]. simpl. rewrite IH. reflexivity.
Qed.

(** Under the week policy one tick is made for each week start, in their
    order: the tick of index [i] stands at [i / numWeeks * 100], which is
    at least 0 and less than 100, and it is labelled with the number of
    the week, counted from 1; a later tick stands further right.  Under
    the day policy no week tick is made. *)
Theorem week_ticks_mark_the_week_starts (parseISO : string -> Date)
    (eachWeekOfInterval : Date -> Date -> list Date)
    (format : Date -> string -> string) (config : TimelineConfig) :
  length (weekTicks parseISO eachWeekOfInterval format config weeks)
  = length (weekStarts parseISO eachWeekOfInterval config)
  /\ (forall (i : nat) (w : Date),
        weekStarts parseISO eachWeekOfInterval config !! i = Some w ->
        exists t : WeekTick.t,
          weekTicks parseISO eachWeekOfInterval format config weeks !! i
          = Some t
          /\ WeekTick.percent t
             = (ofNat i
                / ofNat (length
                           (weekStarts parseISO eachWeekOfInterval config))
                * 100)%Q
          /\ (0 <= WeekTick.percent t)%Q
          /\ (WeekTick.percent t < 100)%Q
          /\ WeekTick.label t = "Week " +:+ show (i + 1))
  /\ (forall (i j : nat) (t t' : WeekTick.t),
        weekTicks parseISO eachWeekOfInterval format config weeks !! i
        = Some t ->
        weekTicks parseISO eachWeekOfInterval format config weeks !! j
        = Some t' ->
        (i < j)%nat -> (WeekTick.percent t < WeekTick.percent t')%Q)
  /\ weekTicks parseISO eachWeekOfInterval format config days = [].
Proof.
  unfold weekTicks. cbv zeta.
  set (ws := weekStarts parseISO eachWeekOfInterval config) in *.
  assert (forall i : nat,
            (i < length ws)%nat ->
            (0 <= ofNat i / ofNat (length ws) * 100)%Q
            /\ (ofNat i / ofNat (length ws) * 100 < 100)%Q) as Hb.
  { intros i Hlt.
    pose proof (ofNat_pos (length ws) ltac:(lia)) as Hp.
    assert (0 <= ofNat i)%Q as H0.
    { unfold ofNat. change 0%Q with (inject_Z 0). rewrite <- Zle_Qle. lia. }
    assert (ofNat i < ofNat (length ws))%Q as H1.
    { unfold ofNat. rewrite <- Zlt_Qlt. lia. }
    split.
    - apply Qmult_le_0_compat; [| discriminate].
      apply Qle_shift_div_l; [exact Hp |]. rewrite Qmult_0_l. exact H0.
    - apply Qlt_le_trans with (1 * 100)%Q; [| apply Qle_refl].
      apply Qmult_lt_compat_r; [reflexivity |].
      apply Qlt_shift_div_r; [exact Hp |]. rewrite Qmult_1_l. exact H1. }
  split; [| split; [| split; [| reflexivity]]].
  - destruct (Nat.eqb_spec (length ws) 0) as [E | E];
      [rewrite E; reflexivity | apply length_imap].
  - intros i w Hi.
    assert (i < length ws)%nat as Hlt by (eapply lookup_lt_Some; exact Hi).
    destruct (Nat.eqb_spec (length ws) 0) as [E | E]; [lia |].
    rewrite imap_lookup, Hi. cbn [option_map].
    eexists. split; [reflexivity |]. cbn [WeekTick.percent WeekTick.label].
    split; [reflexivity |]. destruct (Hb i Hlt) as [B0 B1].
    split; [exact B0 |]. split; [exact B1 | reflexivity].
  - intros i j t t' Hi Hj Hij.
    destruct (Nat.eqb_spec (length ws) 0) as [E | E]; [discriminate |].
    rewrite imap_lookup in Hi, Hj.
    destruct (ws !! i) as [wi |]; [| discriminate].
    destruct (ws !! j) as [wj |]; [| discriminate].
    injection Hi as <-. injection Hj as <-. cbn [WeekTick.percent].
    pose proof (ofNat_pos (length ws) ltac:(lia)) as Hp.
    apply Qmult_lt_compat_r; [reflexivity |].
    apply Qmult_lt_compat_r; [apply Qinv_lt_0_compat, Hp |].
    unfold ofNat. rewrite <- Zlt_Qlt. lia.
Qed.

Lemma dayToEvenPercent_bounds (day : Date) (ws : list Date)
    (endDate w0 wl : Date) :
  StronglySorted Z.lt ws ->
  ws !! 0%nat = Some w0 -> w0 <= day ->
  last ws = Some wl -> wl <= endDate -> day <= endDate ->
  (0 <= dayToEvenPercent day ws endDate)%Q
  /\ (dayToEvenPercent day ws endDate < 100)%Q.
Proof.
  intros Hs H0 Hd Hl Hwl He.
  destruct (dayToEvenPercent_week day ws endDate w0 wl Hs H0 Hd Hl Hwl)
    as (i & Hlt & Hle & _ & _ & Hlen & Hin & F).
  assert (0 < length ws)%nat as Hn by lia.
  rewrite F.
  destruct (fraction_bounds (day - at_ ws i) (weekLengthInDays ws endDate i)
              ltac:(lia) (Hin He)) as [F0 F1].
  destruct (bucket_bounds (ofNat i) _ _ (weekWidth_pos (length ws) Hn) F0 F1)
    as [B0 B1].
  split.
  - eapply Qle_trans; [| exact B0].
    apply Qmult_le_0_compat;
      [unfold ofNat; change 0%Q with (inject_Z 0); rewrite <- Zle_Qle; lia
      | apply Qlt_le_weak, weekWidth_pos, Hn].
  - eapply Qlt_le_trans; [exact B1 |].
    rewrite <- ofNat_succ. apply full_width. lia.
Qed.

Lemma consecutive_days_sorted (start : Date) (n k0 : nat) :
  StronglySorted Z.le (map (fun k => start + Z.of_nat k) (seq k0 n)).
Proof.
  revert k0. induction n as [| n IH]; intros k0; simpl; constructor.
  - apply IH.
  - apply Forall_forall. intros x Hx.
    apply list_elem_of_In, in_map_iff in Hx as (k & <- & Hk).
    apply in_seq in Hk. lia.
Qed.

Lemma lookup_consecutive (start : Date) (n k : nat) :
  (k < n)%nat ->
  map (fun k => start + Z.of_nat k) (seq 0 n) !! k = Some (start + Z.of_nat k).
Proof.
  intros H.
  change (map (fun k0 : nat => start + Z.of_nat k0) (seq 0 n))
    with ((fun k0 : nat => start + Z.of_nat k0) <$> seq 0 n).
  rewrite list_lookup_fmap, lookup_seq_lt by exact H. reflexivity.
Qed.

(** Under the day policy, when the end is after the start and
    [eachDayOfInterval] gives the days from the start to the end, one
    column is made for each day, [totalDays + 1] in all: the column of
    index [k] stands at [k / totalDays * 100], so the columns are evenly
    spaced, the first at 0 and the last at 100; it is labelled with its
    number, counted from 1, and it is a weekend column exactly when
    [getDay] is 0 or 6.  Under the week policy no column is made. *)
Theorem day_columns_are_evenly_spaced (parseISO : string -> Date)
    (eachDayOfInterval : Date -> Date -> list Date)
    (format : Date -> string -> string) (getDay : Date -> Z)
    (config : TimelineConfig) :
  0 < totalDays parseISO config ->
  eachDayOfInterval (parseISO (startDate config)) (parseISO (endDate config))
  = map (fun k => parseISO (startDate config) + Z.of_nat k)
        (seq 0 (Z.to_nat (totalDays parseISO config + 1))) ->
  length (dayColumns parseISO eachDayOfInterval format getDay config days)
  = Z.to_nat (totalDays parseISO config + 1)
  /\ (forall k : nat,
        (k <= Z.to_nat (totalDays parseISO config))%nat ->
        exists c : DayColumn.t,
          dayColumns parseISO eachDayOfInterval format getDay config days !! k
          = Some c
          /\ (DayColumn.percent c
              == ofNat k / ofZ (totalDays parseISO config) * 100)%Q
          /\ DayColumn.label c = "Day " +:+ show (k + 1)
          /\ DayColumn.isWeekend c
             = (getDay (parseISO (startDate config) + Z.of_nat k) =? 0)
               || (getDay (parseISO (startDate config) + Z.of_nat k) =? 6))
  /\ (exists c0 cN : DayColumn.t,
        head (dayColumns parseISO eachDayOfInterval format getDay config days)
        = Some c0
        /\ (DayColumn.percent c0 == 0)%Q
        /\ last (dayColumns parseISO eachDayOfInterval format getDay config
                   days)
           = Some cN
        /\ (DayColumn.percent cN == 100)%Q)
  /\ dayColumns parseISO eachDayOfInterval format getDay config weeks = [].
Proof.
  intros Hpos Hdays. unfold dayColumns.
  destruct (Z.leb_spec (totalDays parseISO config) 0) as [Hle | _]; [lia |].
  cbv zeta. rewrite Hdays.
  set (s := parseISO (startDate config)) in *.
  set (t := totalDays parseISO config) in *.
  set (col := fun (i : nat) (day : Date) =>
                DayColumn.mk (dayToLinearPercent day s t)
                  ("Day " +:+ show (i + 1)) (format day "MMM d")
                  (format day "EEE")
                  ((getDay day =? 0) || (getDay day =? 6))).
  assert (forall k : nat,
            (k <= Z.to_nat t)%nat ->
            imap col (map (fun k => s + Z.of_nat k)
                          (seq 0 (Z.to_nat (t + 1)))) !! k
            = Some (col k (s + Z.of_nat k))) as Hk.
  { intros k Hk. rewrite imap_lookup, lookup_consecutive by lia.
    reflexivity. }
  assert (forall k : nat,
            (DayColumn.percent (col k (s + Z.of_nat k)%Z)
             == ofNat k / ofZ t * 100)%Q) as Hp.
  { intros k. cbn [col DayColumn.percent].
    rewrite dayToLinearPercent_formula by exact Hpos.
    replace (s + Z.of_nat k - s) with (Z.of_nat k) by lia. reflexivity. }
  split; [| split; [| split; [| reflexivity]]].
  - rewrite length_imap, length_map, length_seq. reflexivity.
  - intros k Hle. exists (col k (s + Z.of_nat k)).
    split; [apply Hk, Hle |]. split; [apply Hp |]. split; reflexivity.
  - exists (col 0%nat (s + Z.of_nat 0)),
           (col (Z.to_nat t) (s + Z.of_nat (Z.to_nat t))).
    split; [| split; [| split]].
    + rewrite head_lookup. apply Hk. lia.
    + rewrite Hp. unfold ofNat. change (inject_Z (Z.of_nat 0)) with 0%Q.
      unfold Qdiv. rewrite !Qmult_0_l. reflexivity.
    + rewrite last_lookup, length_imap, length_map, length_seq.
      replace (Init.Nat.pred (Z.to_nat (t + 1))) with (Z.to_nat t) by lia.
      apply Hk. lia.
    + rewrite Hp. unfold ofNat. rewrite Z2Nat.id by lia.
      fold (ofZ t). rewrite (ratio_one t Hpos). reflexivity.
Qed.

(** January 2024 under the day policy: 31 columns. *)
Lemma day_columns_witness :
  length (dayColumns IsoDate.parseValid Days.eachDayOfInterval Days.format
            Days.getDay Sample.monthConfig days)
  = Z.to_nat (totalDays IsoDate.parseValid Sample.monthConfig + 1)
  /\ (forall k : nat,
        (k <= Z.to_nat (totalDays IsoDate.parseValid Sample.monthConfig))%nat ->
        exists c : DayColumn.t,
          dayColumns IsoDate.parseValid Days.eachDayOfInterval Days.format
            Days.getDay Sample.monthConfig days !! k
          = Some c
          /\ (DayColumn.percent c
              == ofNat k
                 / ofZ (totalDays IsoDate.parseValid Sample.monthConfig)
                 * 100)%Q
          /\ DayColumn.label c = "Day " +:+ show (k + 1)
          /\ DayColumn.isWeekend c
             = (Days.getDay
                  (IsoDate.parseValid (startDate Sample.monthConfig)
                   + Z.of_nat k) =? 0)
               || (Days.getDay
                     (IsoDate.parseValid (startDate Sample.monthConfig)
                      + Z.of_nat k) =? 6))
  /\ (exists c0 cN : DayColumn.t,
        head (dayColumns IsoDate.parseValid Days.eachDayOfInterval Days.format
                Days.getDay Sample.monthConfig days)
        = Some c0
        /\ (DayColumn.percent c0 == 0)%Q
        /\ last (dayColumns IsoDate.parseValid Days.eachDayOfInterval
                   Days.format Days.getDay Sample.monthConfig days)
           = Some cN
        /\ (DayColumn.percent cN == 100)%Q)
  /\ dayColumns IsoDate.parseValid Days.eachDayOfInterval Days.format
       Days.getDay Sample.monthConfig weeks = [].
Proof.
  apply (day_columns_are_evenly_spaced IsoDate.parseValid
           Days.eachDayOfInterval Days.format Days.getDay Sample.monthConfig).
  - reflexivity.
  - reflexivity.
Defined.

(** Under the week policy, with the weeks of date-fns and the days from
    the start to the end, one small tick is made for each day of the
    range; the ticks run from left to right, each at the place the mapper
    gives its day, at least 0 and less than 100.  Under the day policy no
    such tick is made. *)
Theorem day_ticks_run_left_to_right (parseISO : string -> Date)
    (eachDayOfInterval : Date -> Date -> list Date) (getDate : Date -> Z)
    (config : TimelineConfig) :
  0 < totalDays parseISO config ->
  eachDayOfInterval (parseISO (startDate config)) (parseISO (endDate config))
  = map (fun k => parseISO (startDate config) + Z.of_nat k)
        (seq 0 (Z.to_nat (totalDays parseISO config + 1))) ->
  length (dayTicks parseISO Calendar.eachWeekOfInterval eachDayOfInterval
            getDate config weeks)
  = Z.to_nat (totalDays parseISO config + 1)
  /\ StronglySorted Qle
       (map DayTick.percent
          (dayTicks parseISO Calendar.eachWeekOfInterval eachDayOfInterval
             getDate config weeks))
  /\ Forall (fun t => (0 <= DayTick.percent t)%Q
                      /\ (DayTick.percent t < 100)%Q)
       (dayTicks parseISO Calendar.eachWeekOfInterval eachDayOfInterval
          getDate config weeks)
  /\ dayTicks parseISO Calendar.eachWeekOfInterval eachDayOfInterval getDate
       config days = [].
Proof.
  intros Hpos Hdays. unfold dayTicks.
  destruct (Z.leb_spec (totalDays parseISO config) 0) as [Hle | _]; [lia |].
  cbv zeta. rewrite Hdays.
  unfold weekStarts.
  destruct (Z.leb_spec (totalDays parseISO config) 0) as [Hle | _]; [lia |].
  unfold totalDays, differenceInCalendarDays in *.
  set (s := parseISO (startDate config)) in *.
  set (e := parseISO (endDate config)) in *.
  destruct (eachWeekOfInterval_spec s e ltac:(lia)) as (Hsorted & H0 & Hlast).
  destruct (startOfWeek_spec s) as [Bs _].
  destruct (startOfWeek_spec e) as [Be _].
  set (ws := Calendar.eachWeekOfInterval s e) in *.
  split; [| split; [| split; [| reflexivity]]].
  - rewrite !length_map, length_seq. reflexivity.
  - rewrite (map_map _ DayTick.percent). cbn [DayTick.percent].
    apply StronglySorted_map_list.
    eapply StronglySorted_weaken; [| apply consecutive_days_sorted].
    intros a b Hab. apply dayToEvenPercent_mono; assumption.
  - apply Forall_forall. intros t Ht.
    apply list_elem_of_In, in_map_iff in Ht as (day & <- & Hday).
    apply in_map_iff in Hday as (k & <- & Hk). apply in_seq in Hk.
    cbn [DayTick.percent].
    apply (dayToEvenPercent_bounds _ ws e (Calendar.startOfWeek s)
             (Calendar.startOfWeek e)); try assumption; lia.
Qed.

(** January 2024 under the week policy: 31 ticks. *)
Lemma day_ticks_witness :
  length (dayTicks IsoDate.parseValid Calendar.eachWeekOfInterval
            Days.eachDayOfInterval Days.getDate Sample.monthConfig weeks)
  = Z.to_nat (totalDays IsoDate.parseValid Sample.monthConfig + 1)
  /\ StronglySorted Qle
       (map DayTick.percent
          (dayTicks IsoDate.parseValid Calendar.eachWeekOfInterval
             Days.eachDayOfInterval Days.getDate Sample.monthConfig weeks))
  /\ Forall (fun t => (0 <= DayTick.percent t)%Q
                      /\ (DayTick.percent t < 100)%Q)
       (dayTicks IsoDate.parseValid Calendar.eachWeekOfInterval
          Days.eachDayOfInterval Days.getDate Sample.monthConfig weeks)
  /\ dayTicks IsoDate.parseValid Calendar.eachWeekOfInterval
       Days.eachDayOfInterval Days.getDate Sample.monthConfig days = [].
Proof.
  apply (day_ticks_run_left_to_right IsoDate.parseValid
           Days.eachDayOfInterval Days.getDate Sample.monthConfig).
  - reflexivity.
  - reflexivity.
Defined.

(** ** Degenerate ranges and the width of the timeline *)

(** When the end is not after the start, a single day included, the axis
    carries no week tick, no day column and no day tick under either
    policy, and the timeline is as wide as for one week or one day. *)
Theorem degenerate_range_has_no_axis_marks (parseISO : string -> Date)
    (eachWeekOfInterval eachDayOfInterval : Date -> Date -> list Date)
    (format : Date -> string -> string) (getDay getDate : Date -> Z)
    (config : TimelineConfig) (timeScale : TimeScale) (isDaysMode : bool)
    (zoom : Q) :
  totalDays parseISO config <= 0 ->
  weekTicks parseISO eachWeekOfInterval format config timeScale = []
  /\ dayColumns parseISO eachDayOfInterval format getDay config timeScale = []
  /\ dayTicks parseISO eachWeekOfInterval eachDayOfInterval getDate config
       timeScale = []
  /\ timelineWidth isDaysMode
       (length (weekStarts parseISO eachWeekOfInterval config))
       (totalDays parseISO config) zoom
     = timelineWidth isDaysMode 1 1 zoom.
Proof.
  intros H. unfold weekTicks, dayColumns, dayTicks, weekStarts, timelineWidth.
  destruct (Z.leb_spec (totalDays parseISO config) 0) as [_ | Hgt]; [| lia].
  cbn [length Nat.eqb Nat.max].
  replace (Z.max 1 (totalDays parseISO config)) with (Z.max 1 1) by lia.
  destruct timeScale; repeat split; reflexivity.
Qed.

(** A range of the single day 2024-01-01. *)
Lemma degenerate_range_witness :
  weekTicks IsoDate.parseValid Calendar.eachWeekOfInterval Days.format
    Sample.singleDayConfig weeks = []
  /\ dayColumns IsoDate.parseValid Days.eachDayOfInterval Days.format
       Days.getDay Sample.singleDayConfig weeks = []
  /\ dayTicks IsoDate.parseValid Calendar.eachWeekOfInterval
       Days.eachDayOfInterval Days.getDate Sample.singleDayConfig weeks = []
  /\ timelineWidth false
       (length (weekStarts IsoDate.parseValid Calendar.eachWeekOfInterval
                  Sample.singleDayConfig))
       (totalDays IsoDate.parseValid Sample.singleDayConfig) 2
     = timelineWidth false 1 1 2.
Proof.
  apply (degenerate_range_has_no_axis_marks IsoDate.parseValid
           Calendar.eachWeekOfInterval Days.eachDayOfInterval Days.format
           Days.getDay Days.getDate Sample.singleDayConfig weeks false 2).
  vm_compute. discriminate.
Defined.

Lemma Qmax_spec (x y : Q) :
  (x <= Qmax x y)%Q /\ (y <= Qmax x y)%Q
  /\ (forall z : Q, (x <= z)%Q -> (y <= z)%Q -> (Qmax x y <= z)%Q).
Proof.
  unfold Qmax. destruct (Qltb x y) eqn:E.
  - apply Qltb_lt in E. split; [lra |]. split; [lra |]. intros z Hx Hy.
    exact Hy.
  - apply Qltb_ge in E. split; [lra |]. split; [lra |]. intros z Hx Hy.
    exact Hx.
Qed.

Lemma Qmax_mono (x y y' : Q) : (y <= y')%Q -> (Qmax x y <= Qmax x y')%Q.
Proof.
  intros H. destruct (Qmax_spec x y) as (_ & _ & L).
  destruct (Qmax_spec x y') as (Hx & Hy & _).
  apply L; [exact Hx | lra].
Qed.

(** The timeline is never narrower than 400 pixels; it never shrinks when
    the zoom factor grows, and, at a zoom factor that is not negative,
    never when weeks or days are added; at a zoom factor of 0 or less it
    is 400 pixels wide. *)
Theorem timeline_width_starts_at_400 (isDaysMode : bool) (n n' : nat)
    (total total' : Z) (zoom zoom' : Q) :
  (400 <= timelineWidth isDaysMode n total zoom)%Q
  /\ ((zoom <= zoom')%Q ->
      (timelineWidth isDaysMode n total zoom
       <= timelineWidth isDaysMode n total zoom')%Q)
  /\ ((0 <= zoom)%Q -> (n <= n')%nat -> total <= total' ->
      (timelineWidth isDaysMode n total zoom
       <= timelineWidth isDaysMode n' total' zoom)%Q)
  /\ ((zoom <= 0)%Q -> (timelineWidth isDaysMode n total zoom == 400)%Q).
Proof.
  unfold timelineWidth, BASE_PX_PER_DAY, BASE_PX_PER_WEEK. cbv zeta.
  assert (forall m : nat, (1 <= ofNat (Nat.max 1 m))%Q) as Hn.
  { intros m. unfold ofNat. change 1%Q with (inject_Z 1).
    rewrite <- Zle_Qle. lia. }
  assert (forall t : Z, (1 <= ofZ (Z.max 1 t))%Q) as Ht.
  { intros t. unfold ofZ. change 1%Q with (inject_Z 1).
    rewrite <- Zle_Qle. lia. }
  assert ((ofNat (Nat.max 1 n) <= ofNat (Nat.max 1 n'))%Q \/ ~ (n <= n')%nat)
    as Hnn.
  { destruct (le_dec n n') as [L | G]; [left | right; exact G].
    unfold ofNat. rewrite <- Zle_Qle. lia. }
  assert ((ofZ (Z.max 1 total) <= ofZ (Z.max 1 total'))%Q
          \/ ~ total <= total') as Htt.
  { destruct (Z_le_dec total total') as [L | G]; [left | right; exact G].
    unfold ofZ. rewrite <- Zle_Qle. lia. }
  specialize (Hn n) as Hn1. specialize (Ht total) as Ht1.
  set (a := ofNat (Nat.max 1 n)) in *. set (b := ofZ (Z.max 1 total)) in *.
  set (a' := ofNat (Nat.max 1 n')) in *.
  set (b' := ofZ (Z.max 1 total')) in *.
  split; [| split; [| split]].
  - destruct isDaysMode; apply Qmax_spec.
  - intros Hz. destruct isDaysMode; apply Qmax_mono; nra.
  - intros Hz Hle Hle'.
    destruct Hnn as [Hnn | Hnn]; [| contradiction].
    destruct Htt as [Htt | Htt]; [| contradiction].
    destruct isDaysMode; apply Qmax_mono; nra.
  - intros Hz. destruct isDaysMode.
    + destruct (Qmax_spec 400 (b * 60 * zoom + 80)) as (H1 & _ & H3).
      apply Qle_antisym; [apply H3; [lra | nra] | exact H1].
    + destruct (Qmax_spec 400 (a * 120 * zoom + 80)) as (H1 & _ & H3).
      apply Qle_antisym; [apply H3; [lra | nra] | exact H1].
Qed.

(** ** Days outside the range *)

Lemma findWeekIdx_before (day : Date) (ws : list Date) (k : nat) :
  Forall (fun w => day < w) ws -> findWeekIdx day ws k = 0%nat.
Proof.
  intros H. induction k as [| k IH]; [reflexivity |]. simpl.
  destruct (ws !! k) as [w |] eqn:E; [| exact IH].
  assert (day < w) as Hlt.
  { apply (proj1 (Forall_forall _ _) H). eapply list_elem_of_lookup_2.
    exact E. }
  destruct (Z.leb_spec w day); [lia | exact IH].
Qed.

Lemma last_lookup_at (ws : list Date) (wl : Date) :
  last ws = Some wl -> ws !! (length ws - 1)%nat = Some wl.
Proof.
  intros H. rewrite last_lookup in H.
  replace (length ws - 1)%nat with (Init.Nat.pred (length ws)) by lia.
  exact H.
Qed.

Lemma dayToEvenPercent_before (day : Date) (ws : list Date)
    (endDate w0 wl : Date) :
  StronglySorted Z.lt ws ->
  ws !! 0%nat = Some w0 -> last ws = Some wl -> wl <= endDate ->
  day < w0 ->
  (dayToEvenPercent day ws endDate < 0)%Q.
Proof.
  intros Hs H0 Hl Hwl Hd.
  assert (ws <> []) as Hne by (intros ->; discriminate).
  assert (0 < length ws)%nat as Hn by (destruct ws; [congruence | simpl; lia]).
  assert (Forall (fun w => day < w) ws) as Hall.
  { apply Forall_forall. intros w Hw.
    apply list_elem_of_lookup_1 in Hw as [i Hi].
    destruct i as [| i]; [rewrite H0 in Hi; injection Hi as <-; exact Hd |].
    pose proof (sorted_lookup_lt ws 0 (S i) w0 w Hs ltac:(lia) H0 Hi). lia. }
  assert (0 < weekLengthInDays ws endDate 0) as Hlen.
  { unfold weekLengthInDays, weekEndOf, differenceInCalendarDays, addDays.
    rewrite (at_lookup ws 0 w0 H0).
    destruct (Nat.ltb_spec 0 (length ws - 1)) as [Hlt | Hge].
    - destruct (lookup_lt_is_Some_2 ws 1 ltac:(lia)) as [w1 E1].
      cbn [Nat.add]. rewrite (at_lookup ws 1 w1 E1).
      pose proof (sorted_adjacent ws 0 w0 w1 Hs H0 E1). lia.
    - apply last_lookup_at in Hl.
      replace (length ws - 1)%nat with 0%nat in Hl by lia.
      rewrite H0 in Hl. injection Hl as ->. lia. }
  rewrite (dayToEvenPercent_formula day ws endDate 0 Hne
             (findWeekIdx_before day ws (length ws) Hall) Hlen).
  rewrite (at_lookup ws 0 w0 H0).
  pose proof (weekWidth_pos (length ws) Hn) as Hw.
  pose proof (ofZ_pos _ Hlen) as Hp.
  assert (ofZ (day - w0) < 0)%Q as Hneg.
  { unfold ofZ. change 0%Q with (inject_Z 0). rewrite <- Zlt_Qlt. lia. }
  assert (ofZ (day - w0) / ofZ (weekLengthInDays ws endDate 0) < 0)%Q as Hf.
  { apply Qlt_shift_div_r; [exact Hp |]. rewrite Qmult_0_l. exact Hneg. }
  change (ofNat 0) with 0%Q. rewrite Qmult_0_l, Qplus_0_l.
  set (fr := (ofZ (day - w0) / ofZ (weekLengthInDays ws endDate 0))%Q) in *.
  set (W := (100 / ofNat (length ws))%Q) in *.
  nra.
Qed.

Lemma dayToEvenPercent_after (day : Date) (ws : list Date)
    (endDate w0 wl : Date) :
  StronglySorted Z.lt ws ->
  ws !! 0%nat = Some w0 -> w0 <= endDate ->
  last ws = Some wl -> wl <= endDate ->
  endDate < day ->
  (100 <= dayToEvenPercent day ws endDate)%Q.
Proof.
  intros Hs H0 Hw0 Hl Hwl Hd.
  destruct (dayToEvenPercent_week day ws endDate w0 wl Hs H0 ltac:(lia) Hl
              Hwl) as (i & Hlt & Hle & Hafter & Hlen & Hpos & _ & F).
  assert (i = (length ws - 1)%nat) as Hi.
  { destruct (decide (i = (length ws - 1)%nat)) as [E | E]; [exact E |].
    exfalso. specialize (Hafter (length ws - 1)%nat ltac:(lia)).
    rewrite (at_lookup ws _ wl (last_lookup_at ws wl Hl)) in Hafter. lia. }
  rewrite F. rewrite Hlen in *.
  destruct (Nat.ltb_spec i (length ws - 1)) as [Hlt' | _]; [lia |].
  set (wi := at_ ws i) in *.
  assert (0 < length ws)%nat as Hn by lia.
  pose proof (weekWidth_pos (length ws) Hn) as HW.
  pose proof (ofZ_pos _ Hpos) as Hp.
  assert (1 <= ofZ (day - wi) / ofZ (endDate + 1 - wi))%Q as Hf.
  { apply Qle_shift_div_l; [exact Hp |]. rewrite Qmult_1_l.
    unfold ofZ. rewrite <- Zle_Qle. lia. }
  assert ((ofNat i + 1) * (100 / ofNat (length ws)) == 100)%Q as E100.
  { rewrite <- ofNat_succ. replace (i + 1)%nat with (length ws) by lia.
    field. pose proof (ofNat_pos (length ws) Hn) as Hq.
    intros Z0. rewrite Z0 in Hq. discriminate. }
  set (fr := (ofZ (day - wi) / ofZ (endDate + 1 - wi))%Q) in *.
  set (W := (100 / ofNat (length ws))%Q) in *.
  nra.
Qed.

(** The mappers do not clamp.  For a range whose end is after its start,
    the day policy places a day before the start left of the axis (below
    0) and a day after the end right of it (above 100).  The week policy
    places a day after the end right of every day of the range, and a day
    before the first week start, the Monday of the week of the start,
    below 0; a day before the start that is on or after that Monday stays
    on the axis, at least 0 and less than 100, inside the first week. *)
Theorem mappers_do_not_clamp (parseISO : string -> Date)
    (config : TimelineConfig) (day : Date) :
  parseISO (startDate config) < parseISO (endDate config) ->
  (day < parseISO (startDate config) ->
   (toPercent parseISO Calendar.eachWeekOfInterval config days day < 0)%Q)
  /\ (parseISO (endDate config) < day ->
      (100 < toPercent parseISO Calendar.eachWeekOfInterval config days day)%Q)
  /\ (day < Calendar.startOfWeek (parseISO (startDate config)) ->
      (toPercent parseISO Calendar.eachWeekOfInterval config weeks day < 0)%Q)
  /\ (Calendar.startOfWeek (parseISO (startDate config)) <= day ->
      day < parseISO (startDate config) ->
      (0 <= toPercent parseISO Calendar.eachWeekOfInterval config weeks day)%Q
      /\ (toPercent parseISO Calendar.eachWeekOfInterval config weeks day
          < 100)%Q)
  /\ (parseISO (endDate config) < day ->
      forall d : Date,
        parseISO (startDate config) <= d <= parseISO (endDate config) ->
        (toPercent parseISO Calendar.eachWeekOfInterval config weeks d
         < toPercent parseISO Calendar.eachWeekOfInterval config weeks
             day)%Q).
Proof.
  intros Hse. rewrite !toPercent_days. unfold toPercent.
  unfold weekStarts, totalDays, differenceInCalendarDays.
  set (s := parseISO (startDate config)) in *.
  set (e := parseISO (endDate config)) in *.
  destruct (Z.leb_spec (e - s) 0) as [Hle | _]; [lia |].
  destruct (eachWeekOfInterval_spec s e ltac:(lia)) as (Hsorted & H0 & Hlast).
  destruct (startOfWeek_spec s) as [Bs _].
  destruct (startOfWeek_spec e) as [Be _].
  assert (0 < e - s) as Ht by lia.
  pose proof (ofZ_pos _ Ht) as Hp.
  split; [| split; [| split; [| split]]].
  - intros Hd. rewrite dayToLinearPercent_formula by exact Ht.
    assert (ofZ (day - s) / ofZ (e - s) < 0)%Q as Hf.
    { apply Qlt_shift_div_r; [exact Hp |]. rewrite Qmult_0_l.
      unfold ofZ. change 0%Q with (inject_Z 0). rewrite <- Zlt_Qlt. lia. }
    lra.
  - intros Hd. rewrite dayToLinearPercent_formula by exact Ht.
    assert (1 < ofZ (day - s) / ofZ (e - s))%Q as Hf.
    { apply Qlt_shift_div_l; [exact Hp |]. rewrite Qmult_1_l.
      unfold ofZ. rewrite <- Zlt_Qlt. lia. }
    lra.
  - intros Hd.
    apply (dayToEvenPercent_before day _ e (Calendar.startOfWeek s)
             (Calendar.startOfWeek e)); try assumption; lia.
  - intros Hm Hd.
    apply (dayToEvenPercent_bounds day _ e (Calendar.startOfWeek s)
             (Calendar.startOfWeek e)); try assumption; lia.
  - intros Hd d Hin.
    apply Qlt_le_trans with 100%Q.
    + apply (dayToEvenPercent_bounds d _ e (Calendar.startOfWeek s)
               (Calendar.startOfWeek e)); try assumption; lia.
    + apply (dayToEvenPercent_after day _ e (Calendar.startOfWeek s)
               (Calendar.startOfWeek e)); try assumption; lia.
Qed.

(** A range from Friday 2024-01-05 to 2024-01-31, and Tuesday 2024-01-02,
    which is before the start and after the Monday of its week. *)
Lemma mappers_do_not_clamp_witness :
  (IsoDate.parseValid "2024-01-02"
   < IsoDate.parseValid (startDate Demo.fromFriday) ->
   (toPercent IsoDate.parseValid Calendar.eachWeekOfInterval
      Demo.fromFriday days (IsoDate.parseValid "2024-01-02") < 0)%Q)
  /\ (IsoDate.parseValid (endDate Demo.fromFriday)
      < IsoDate.parseValid "2024-01-02" ->
      (100 < toPercent IsoDate.parseValid Calendar.eachWeekOfInterval
               Demo.fromFriday days (IsoDate.parseValid "2024-01-02"))%Q)
  /\ (IsoDate.parseValid "2024-01-02"
      < Calendar.startOfWeek
          (IsoDate.parseValid (startDate Demo.fromFriday)) ->
      (toPercent IsoDate.parseValid Calendar.eachWeekOfInterval
         Demo.fromFriday weeks (IsoDate.parseValid "2024-01-02") < 0)%Q)
  /\ (Calendar.startOfWeek (IsoDate.parseValid (startDate Demo.fromFriday))
      <= IsoDate.parseValid "2024-01-02" ->
      IsoDate.parseValid "2024-01-02"
      < IsoDate.parseValid (startDate Demo.fromFriday) ->
      (0 <= toPercent IsoDate.parseValid Calendar.eachWeekOfInterval
              Demo.fromFriday weeks (IsoDate.parseValid "2024-01-02"))%Q
      /\ (toPercent IsoDate.parseValid Calendar.eachWeekOfInterval
            Demo.fromFriday weeks (IsoDate.parseValid "2024-01-02")
          < 100)%Q)
  /\ (IsoDate.parseValid (endDate Demo.fromFriday)
      < IsoDate.parseValid "2024-01-02" ->
      forall d : Date,
        IsoDate.parseValid (startDate Demo.fromFriday) <= d
        <= IsoDate.parseValid (endDate Demo.fromFriday) ->
        (toPercent IsoDate.parseValid Calendar.eachWeekOfInterval
           Demo.fromFriday weeks d
         < toPercent IsoDate.parseValid Calendar.eachWeekOfInterval
             Demo.fromFriday weeks (IsoDate.parseValid "2024-01-02"))%Q).
Proof.
  apply (mappers_do_not_clamp IsoDate.parseValid Demo.fromFriday
           (IsoDate.parseValid "2024-01-02")).
  reflexivity.
Defined.

(** ** The two teams *)

Section Teams.
Variable parseISO : string -> Date.

Lemma sortInsert_front (a : TimelineEvent) (l : list TimelineEvent) :
  Forall (fun y => dayOf parseISO a <= dayOf parseISO y) l ->
  sortInsert (byDate parseISO) a l = a :: l.
Proof.
  intros H. destruct l as [| y l]; [reflexivity |].
  apply Forall_inv in H. cbn [sortInsert]. rewrite byDate_pos.
  destruct (Z.ltb_spec (dayOf parseISO y) (dayOf parseISO a)); [lia |].
  reflexivity.
Qed.

Lemma filter_sortInsert (f : TimelineEvent -> bool) (a : TimelineEvent)
    (l : list TimelineEvent) :
  StronglySorted (fun x y => dayOf parseISO x <= dayOf parseISO y) l ->
  List.filter f (sortInsert (byDate parseISO) a l)
  = if f a then sortInsert (byDate parseISO) a (List.filter f l)
    else List.filter f l.
Proof.
  induction 1 as [| x l Hs IH Hall].
  - simpl. destruct (f a); reflexivity.
  - cbn [sortInsert]. rewrite byDate_pos.
    destruct (Z.ltb_spec (dayOf parseISO x) (dayOf parseISO a)) as [Hlt | Hge].
    + cbn [List.filter]. rewrite IH.
      destruct (f x), (f a); try reflexivity.
      cbn [sortInsert]. rewrite byDate_pos.
      destruct (Z.ltb_spec (dayOf parseISO x) (dayOf parseISO a)); [| lia].
      reflexivity.
    + assert (Forall (fun y => dayOf parseISO a <= dayOf parseISO y) (x :: l))
        as Hxl.
      { constructor; [exact Hge |].
        eapply Forall_impl; [exact Hall |]. cbn beta. intros y Hy. lia. }
      set (xl := x :: l) in *. cbn [List.filter].
      destruct (f a); [| reflexivity].
      symmetry. apply sortInsert_front.
      apply Forall_forall. intros y Hy.
      apply list_elem_of_In, filter_In in Hy as [Hy _].
      apply (proj1 (Forall_forall _ _) Hxl), list_elem_of_In, Hy.
Qed.

(** Sorting by date and keeping the events of a team can be done in
    either order. *)
Lemma filter_sort (f : TimelineEvent -> bool) (l : list TimelineEvent) :
  List.filter f (sort (byDate parseISO) l)
  = sort (byDate parseISO) (List.filter f l).
Proof.
  induction l as [| a l IH]; [reflexivity |].
  cbn [sort foldr]. fold (sort (byDate parseISO) l).
  rewrite filter_sortInsert.
  - cbn [List.filter]. destruct (f a); [| exact IH].
    cbn [sort foldr]. fold (sort (byDate parseISO) (List.filter f l)).
    rewrite IH. reflexivity.
  - apply (sort_sorted_by (dayOf parseISO)). intros x y. apply byDate_pos.
Qed.
End Teams.

Lemma filter_filter_same {A} (f : A -> bool) (l : list A) :
  List.filter f (List.filter f l) = List.filter f l.
Proof.
  induction l as [| x l IH]; [reflexivity |]. simpl.
  destruct (f x) eqn:E; [| exact IH]. simpl. rewrite E, IH. reflexivity.
Qed.

Lemma filter_filter_none {A} (f g : A -> bool) (l : list A) :
  (forall x, g x = true -> f x = false) ->
  List.filter f (List.filter g l) = [].
Proof.
  intros H. induction l as [| x l IH]; [reflexivity |]. simpl.
  destruct (g x) eqn:E; [| exact IH]. simpl. rewrite (H x E). exact IH.
Qed.

(** The two teams are laid out independently: the placement records of
    the red team are those that the red events get on their own, whatever
    the other events are, and likewise for the other team; adding or
    removing events of one team never moves, clusters or hides an event of
    the other. *)
Theorem teams_are_laid_out_independently (parseISO : string -> Date)
    (events : list TimelineEvent) (toPercent : Date -> Q) :
  Positions.red (getEventPositions parseISO events toPercent)
  = Positions.red
      (getEventPositions parseISO (List.filter isRed events) toPercent)
  /\ Positions.blue
       (getEventPositions parseISO (List.filter isRed events) toPercent)
     = []
  /\ Positions.blue (getEventPositions parseISO events toPercent)
     = Positions.blue
         (getEventPositions parseISO (List.filter notRed events) toPercent)
  /\ Positions.red
       (getEventPositions parseISO (List.filter notRed events) toPercent)
     = [].
Proof.
  rewrite !getEventPositions_red, !getEventPositions_blue, !filter_sort.
  rewrite !filter_filter_same.
  rewrite (filter_filter_none notRed isRed),
    (filter_filter_none isRed notRed).
  - repeat split; reflexivity.
  - intros x. unfold notRed. destruct (isRed x); [discriminate | reflexivity].
  - intros x H. unfold notRed. rewrite H. reflexivity.
Qed.

(** ** What the import lets through *)

Section Imported.
Variable parseISO : string -> option Date.
Variable trim : string -> string.
Variable uuidv4 : nat -> string.

Lemma validateEvent_inr (e : JsValue) (i n : nat) (r : TimelineEvent * nat) :
  validateEvent parseISO trim uuidv4 e i n = inr r ->
  eventOk parseISO trim e = true /\ r = accepted trim uuidv4 e n.
Proof.
  intros H. destruct (eventOk parseISO trim e) eqn:E.
  - rewrite (validateEvent_accept parseISO trim uuidv4 e i n E) in H.
    injection H as <-. split; reflexivity.
  - destruct (validateEvent_reject parseISO trim uuidv4 e i n E)
      as (msg & Hm & _).
    rewrite Hm in H. discriminate.
Qed.

Lemma accepted_importedFrom (e : JsValue) (n : nat) :
  importedFrom trim uuidv4 n e (fst (accepted trim uuidv4 e n))
  /\ (n <= snd (accepted trim uuidv4 e n))%nat.
Proof.
  unfold accepted, importedFrom. cbn [fst snd id date team description lane].
  rewrite filled_nonEmptyString.
  destruct (nonEmptyString trim (prop e "id")).
  - repeat split; try reflexivity. left. split; reflexivity.
  - repeat split; try reflexivity; [| lia]. right. split; [reflexivity |].
    exists n. split; [lia | reflexivity].
Qed.

Lemma accepted_wellFormed (e : JsValue) (n : nat) :
  eventOk parseISO trim e = true ->
  wellFormed parseISO trim (fst (accepted trim uuidv4 e n)).
Proof.
  unfold eventOk. rewrite !andb_true_iff. intros [[[_ Hd] Ht] Hx].
  unfold accepted, wellFormed. cbn [fst date team description lane].
  split; [| split; [| split]].
  - destruct (prop e "date") as [[] |]; try discriminate.
    cbn [validDate asString] in *. unfold isValid.
    destruct (parseISO s); [reflexivity | discriminate].
  - destruct (prop e "team") as [[] |]; try discriminate.
    cbn [redOrBlue asString] in *. apply orb_true_iff in Ht as [Ht | Ht];
      apply String.eqb_eq in Ht; [left | right]; exact Ht.
  - destruct (prop e "description") as [[] |]; try discriminate.
    cbn [nonEmptyString asString] in *. intros E. rewrite E in Hx.
    discriminate.
  - exists (laneOr1 (prop e "lane")). split; [reflexivity |].
    apply laneOr1_range.
Qed.

Lemma importedFrom_weaken (lo lo' : nat) (item : JsValue)
    (ev : TimelineEvent) :
  (lo' <= lo)%nat ->
  importedFrom trim uuidv4 lo item ev -> importedFrom trim uuidv4 lo' item ev.
Proof.
  intros Hle (H1 & H2 & H3 & H4 & H5). repeat split; try assumption.
  destruct H5 as [H5 | (H5 & k & Hk & E)]; [left; exact H5 | right].
  split; [exact H5 |]. exists k. split; [lia | exact E].
Qed.

Lemma validateEvents_inr (items : list JsValue) (i n : nat)
    (evs : list TimelineEvent) (n' : nat) :
  validateEvents parseISO trim uuidv4 items i n = inr (evs, n') ->
  (n <= n')%nat
  /\ Forall2 (importedFrom trim uuidv4 n) items evs
  /\ Forall (wellFormed parseISO trim) evs.
Proof.
  revert i n evs. induction items as [| e items IH]; intros i n evs H.
  - injection H as <- <-. split; [lia |]. split; constructor.
  - cbn [validateEvents] in H. unfold mbind, Import_bind in H.
    destruct (validateEvent parseISO trim uuidv4 e i n) as [err | r] eqn:E;
      [discriminate |].
    apply validateEvent_inr in E as [Hok ->].
    destruct (accepted_importedFrom e n) as [Himp Hle].
    pose proof (accepted_wellFormed e n Hok) as Hwf.
    destruct (accepted trim uuidv4 e n) as [ev n1]. cbn [fst snd] in *.
    destruct (validateEvents parseISO trim uuidv4 items (S i) n1)
      as [err | [evs1 n2]] eqn:E1; [discriminate |].
    injection H as <- <-.
    destruct (IH (S i) n1 evs1 E1) as (Hle1 & Hall & Hwfs).
    split; [lia |]. split.
    + constructor; [exact Himp |].
      eapply Forall2_impl; [exact Hall |].
      intros item ev' Hi. apply (importedFrom_weaken n1); [lia | exact Hi].
    + constructor; assumption.
Qed.

Lemma loadState_wellFormed (state : AppState) :
  Forall (wellFormed parseISO trim) (events state) -> loadState state = state.
Proof.
  destruct state as [cfg evs]. unfold loadState. cbn [config events].
  intros H. f_equal. induction H as [| e evs He _ IH]; [reflexivity |].
  simpl. rewrite IH. f_equal.
  destruct He as (_ & _ & _ & l & Hl & _).
  destruct e as [eid edate eteam edesc elane]. cbn [lane] in Hl.
  rewrite Hl. reflexivity.
Qed.

Lemma importFromJson_inr (data : JsValue) (n : nat) (state : AppState) :
  importFromJson parseISO trim uuidv4 data n = inr state ->
  exists (cfg : JsValue) (items : list JsValue) (n' : nat),
    prop data "config" = Some cfg
    /\ nonEmptyString trim (prop cfg "title") = true
    /\ validDate parseISO (prop cfg "startDate") = true
    /\ validDate parseISO (prop cfg "endDate") = true
    /\ config state
       = {| title := asString (prop cfg "title");
            startDate := asString (prop cfg "startDate");
            endDate := asString (prop cfg "endDate") |}
    /\ prop data "events" = Some (JArr items)
    /\ validateEvents parseISO trim uuidv4 items 0 n
       = inr (events state, n').
Proof.
  rewrite importFromJson_cases. intros H.
  destruct (negb (isObject (Some data))); [discriminate |].
  destruct (prop data "config") as [cfg |]; [| discriminate].
  destruct (negb (isObject (Some cfg))); [discriminate |].
  cbn [default from_option Datatypes.id] in H. cbv zeta in H.
  destruct (nonEmptyString trim (prop cfg "title")) eqn:Ht; [| discriminate].
  destruct (validDate parseISO (prop cfg "startDate")) eqn:Hs;
    [| discriminate].
  destruct (validDate parseISO (prop cfg "endDate")) eqn:He;
    [| discriminate].
  cbn [negb] in H.
  destruct (prop data "events") as [[| | | | items |] |]; try discriminate.
  destruct (validateEvents parseISO trim uuidv4 items 0 n)
    as [err | [evs n']] eqn:E; [discriminate |].
  injection H as <-. exists cfg, items, n'. cbn [config events].
  repeat split; try reflexivity; assumption.
Qed.

Lemma validDate_isValid (v : option JsValue) :
  validDate parseISO v = true -> isValid (parseISO (asString v)) = true.
Proof.
  destruct v as [[] |]; try discriminate. cbn [validDate asString isValid].
  destruct (parseISO s); [reflexivity | discriminate].
Qed.

Lemma nonEmptyString_trim (v : option JsValue) :
  nonEmptyString trim v = true -> trim (asString v) <> EmptyString.
Proof.
  destruct v as [[] |]; try discriminate. cbn [nonEmptyString asString].
  intros H E. rewrite E in H. discriminate.
Qed.
End Imported.

(** Whatever document the import accepts, the state it gives is fit for
    the layout: there is one event for each item of the document, in the
    order of the document, with the date, the team and the description of
    the item as they are written (the description is not trimmed); every
    date parses, every team is "red" or "blue", no description is blank,
    every lane is one of 1 to 4, and an identifier is either the
    non-blank one of the item or one drawn from the generator at or after
    the given index; the title is not blank and both dates of the config
    parse.  Loading such a state changes nothing in it. *)
Theorem import_gives_states_fit_for_the_layout
    (parseISO : string -> option Date) (trim : string -> string)
    (uuidv4 : nat -> string) (data : JsValue) (n : nat) (state : AppState) :
  importFromJson parseISO trim uuidv4 data n = inr state ->
  (exists items : list JsValue,
     prop data "events" = Some (JArr items)
     /\ Forall2 (importedFrom trim uuidv4 n) items (events state))
  /\ Forall (wellFormed parseISO trim) (events state)
  /\ trim (title (config state)) <> EmptyString
  /\ isValid (parseISO (startDate (config state))) = true
  /\ isValid (parseISO (endDate (config state))) = true
  /\ loadState state = state.
Proof.
  intros H.
  apply importFromJson_inr in H
    as (cfg & items & n' & _ & Ht & Hs & He & Hc & Hi & Hv).
  apply validateEvents_inr in Hv as (_ & Hall & Hwf).
  split; [exists items; split; assumption |].
  split; [exact Hwf |]. rewrite Hc. cbn [title startDate endDate].
  split; [apply nonEmptyString_trim, Ht |].
  split; [apply validDate_isValid, Hs |].
  split; [apply validDate_isValid, He |].
  apply (loadState_wellFormed parseISO trim), Hwf.
Qed.

(** The exported sample state is accepted and comes back well formed. *)
Lemma import_gives_states_witness :
  (exists items : list JsValue,
     prop (exportDocument Sample.goodState JNull) "events" = Some (JArr items)
     /\ Forall2 (importedFrom Sample.trim Sample.uuidv4 0) items
                (events Sample.goodState))
  /\ Forall (wellFormed IsoDate.parse Sample.trim) (events Sample.goodState)
  /\ Sample.trim (title (config Sample.goodState)) <> EmptyString
  /\ isValid (IsoDate.parse (startDate (config Sample.goodState))) = true
  /\ isValid (IsoDate.parse (endDate (config Sample.goodState))) = true
  /\ loadState Sample.goodState = Sample.goodState.
Proof.
  apply (import_gives_states_fit_for_the_layout IsoDate.parse Sample.trim
           Sample.uuidv4 (exportDocument Sample.goodState JNull) 0%nat
           Sample.goodState).
  vm_compute. reflexivity.
Defined.

Section Reimport.
Variable parseISO : string -> option Date.
Variable trim : string -> string.
Variable uuidv4 : nat -> string.

Lemma importData_exportDocument (state : AppState) (colors : JsValue)
    (n : nat) :
  stateOk parseISO trim state = true ->
  importData parseISO trim uuidv4 (exportDocument state colors) n
  = inr (state, n).
Proof.
  intros H. unfold stateOk in H. apply andb_true_iff in H as [Hc He].
  unfold stateConfigOk in Hc. rewrite !andb_true_iff in Hc.
  destruct Hc as [[Ht Hs] Hd].
  destruct (prop_exportDocument state colors) as [Pc Pe].
  destruct (prop_jsonOfConfig (config state)) as (Pt & Ps & Pd).
  unfold importData. rewrite Pc, Pe. cbn [default from_option Datatypes.id].
  rewrite Pt, Ps, Pd.
  change (isObject (Some (exportDocument state colors))) with true.
  change (isObject (Some (jsonOfConfig (config state)))) with true.
  cbn [negb isString asString orb]. apply negb_true_iff in Ht. rewrite Ht.
  unfold isValidISODate. cbn [negb isString asString].
  rewrite Hs, Hd. cbn [negb].
  unfold mbind, Import_bind.
  rewrite (validateEvents_jsonOfEvent parseISO trim uuidv4 _ 0 n He).
  destruct state as [[s e t] evs]. reflexivity.
Qed.

Lemma imported_stateEventOk (lo : nat) (item : JsValue) (ev : TimelineEvent) :
  (forall k : nat, trim (uuidv4 k) <> EmptyString) ->
  importedFrom trim uuidv4 lo item ev -> wellFormed parseISO trim ev ->
  stateEventOk parseISO trim ev = true.
Proof.
  intros Hgen (_ & _ & _ & _ & Hid) (Hd & Ht & Hx & l & Hl & Hr).
  unfold stateEventOk. rewrite Hd, Hl.
  assert (trim (id ev) <> EmptyString) as Hi.
  { destruct Hid as [[Hne ->] | (_ & k & _ & ->)]; [| apply Hgen].
    apply nonEmptyString_trim, Hne. }
  apply String.eqb_neq in Hi, Hx. rewrite Hi, Hx.
  assert ((team ev =? "red")%string || (team ev =? "blue")%string = true)
    as ->.
  { destruct Ht as [-> | ->]; reflexivity. }
  cbn [negb andb]. apply andb_true_iff. split; apply Z.leb_le; lia.
Qed.
End Reimport.

(** An imported state is a fixed point of export followed by import: when
    the generator never gives a blank identifier, exporting the state that
    the import gave and importing the document again gives the same
    state, with the identifiers of the first import; no identifier is
    drawn the second time. *)
Theorem reimport_gives_the_imported_state
    (parseISO : string -> option Date) (trim : string -> string)
    (uuidv4 : nat -> string) (data colors : JsValue) (n m : nat)
    (state : AppState) :
  (forall k : nat, trim (uuidv4 k) <> EmptyString) ->
  importFromJson parseISO trim uuidv4 data n = inr state ->
  importFromJson parseISO trim uuidv4
    (exportDocument (loadState state) colors) m
  = inr state
  /\ importData parseISO trim uuidv4
       (exportDocument (loadState state) colors) m
     = inr (state, m).
Proof.
  intros Hgen H.
  apply importFromJson_inr in H
    as (cfg & items & n' & _ & Ht & Hs & He & Hc & Hi & Hv).
  apply validateEvents_inr in Hv as (_ & Hall & Hwf).
  rewrite (loadState_wellFormed parseISO trim state Hwf).
  assert (Forall (fun ev => stateEventOk parseISO trim ev = true)
                 (events state)) as Hall'.
  { clear - Hgen Hall Hwf.
    induction Hall as [| item ev items evs Himp _ IH]; [constructor |].
    inversion Hwf as [| ? ? Hw Hws]; subst.
    constructor; [| apply IH, Hws].
    eapply imported_stateEventOk; eassumption. }
  assert (stateOk parseISO trim state = true) as Hok.
  { unfold stateOk, stateConfigOk. rewrite Hc. cbn [title startDate endDate].
    pose proof (nonEmptyString_trim trim _ Ht) as Ht'.
    apply String.eqb_neq in Ht'. rewrite Ht'.
    rewrite (validDate_isValid parseISO _ Hs),
      (validDate_isValid parseISO _ He).
    cbn [negb andb]. apply forallb_forall. intros ev Hev.
    apply (proj1 (Forall_forall _ _) Hall'), list_elem_of_In, Hev. }
  pose proof (importData_exportDocument parseISO trim uuidv4 state colors m
                Hok) as E.
  split; [unfold importFromJson; rewrite E; reflexivity | exact E].
Qed.

(** The exported sample state, imported and then exported and imported
    again. *)
Lemma reimport_witness :
  importFromJson IsoDate.parse Sample.trim (fun _ => "fresh")
    (exportDocument (loadState Sample.goodState) JNull) 5%nat
  = inr Sample.goodState
  /\ importData IsoDate.parse Sample.trim (fun _ => "fresh")
       (exportDocument (loadState Sample.goodState) JNull) 5%nat
     = inr (Sample.goodState, 5%nat).
Proof.
  apply (reimport_gives_the_imported_state IsoDate.parse Sample.trim
           (fun _ => "fresh") (exportDocument Sample.goodState JNull) JNull
           0%nat 5%nat Sample.goodState).
  - intros k. vm_compute. discriminate.
  - vm_compute. reflexivity.
Defined.

(** * The document state *)

(** ** Updating, deleting and adding events *)

Lemma updateEvent_ids (i : string) (u : Updates.t) (s : AppState) :
  map id (events (updateEvent i u s)) = map id (events s).
Proof.
  unfold updateEvent. cbn [events]. rewrite map_map. apply map_ext.
  intros e. destruct (id e =? i)%string; reflexivity.
Qed.

Lemma updateEvent_lookup (i : string) (u : Updates.t) (s : AppState)
    (k : nat) :
  events (updateEvent i u s) !! k
  = option_map (fun e => if String.eqb (id e) i then applyUpdates e u else e)
               (events s !! k).
Proof.
  unfold updateEvent. cbn [events].
  change (map ?f ?l) with (f <$> l). rewrite list_lookup_fmap.
  destruct (events s !! k); reflexivity.
Qed.

(** [updateEvent] changes the events that have the given identifier and
    nothing else: the config, the number of events, their order and their
    identifiers stay; an event with another identifier stays as it is,
    and each event with the given identifier, also when several have it,
    takes the fields that the update gives and keeps the others.  With an
    identifier that no event has, the state is unchanged and nothing is
    reported. *)
Theorem update_changes_only_the_named_event (i : string) (u : Updates.t)
    (s : AppState) :
  config (updateEvent i u s) = config s
  /\ map id (events (updateEvent i u s)) = map id (events s)
  /\ (forall (k : nat) (e : TimelineEvent),
        events s !! k = Some e -> id e <> i ->
        events (updateEvent i u s) !! k = Some e)
  /\ (forall (k : nat) (e : TimelineEvent),
        events s !! k = Some e -> id e = i ->
        exists e' : TimelineEvent,
          events (updateEvent i u s) !! k = Some e'
          /\ id e' = i
          /\ date e' = default (date e) (Updates.date u)
          /\ team e' = default (team e) (Updates.team u)
          /\ description e' = default (description e) (Updates.description u)
          /\ lane e' = match Updates.lane u with
                       | Some l => Some l
                       | None => lane e
                       end)
  /\ (Forall (fun e => id e <> i) (events s) -> updateEvent i u s = s).
Proof.
  split; [reflexivity |]. split; [apply updateEvent_ids |].
  split; [| split].
  - intros k e Hk Hne. rewrite updateEvent_lookup, Hk. cbn [option_map].
    apply String.eqb_neq in Hne. rewrite Hne. reflexivity.
  - intros k e Hk He. rewrite updateEvent_lookup, Hk. cbn [option_map].
    apply String.eqb_eq in He as He'. rewrite He'.
    eexists. split; [reflexivity |]. cbn. repeat split. exact He.
  - intros Hall. destruct s as [cfg evs]. unfold updateEvent.
    cbn [config events] in *. f_equal.
    induction Hall as [| e evs He _ IH]; [reflexivity |].
    simpl. apply String.eqb_neq in He. rewrite He, IH. reflexivity.
Qed.

(** [deleteEvent] removes every event that has the given identifier and
    keeps the others in their order: what is left is what was there under
    another identifier; the config stays.  Deleting twice is deleting
    once, two deletions can be done in either order, and with an
    identifier that no event has the state is unchanged. *)
Theorem delete_removes_the_named_events (i j : string) (s : AppState) :
  config (deleteEvent i s) = config s
  /\ Forall (fun e => id e <> i) (events (deleteEvent i s))
  /\ sublist (events (deleteEvent i s)) (events s)
  /\ (forall e : TimelineEvent,
        e ∈ events (deleteEvent i s) <-> e ∈ events s /\ id e <> i)
  /\ deleteEvent i (deleteEvent i s) = deleteEvent i s
  /\ deleteEvent i (deleteEvent j s) = deleteEvent j (deleteEvent i s)
  /\ (Forall (fun e => id e <> i) (events s) -> deleteEvent i s = s).
Proof.
  assert (forall e : TimelineEvent,
            In e (events (deleteEvent i s)) <-> In e (events s) /\ id e <> i)
    as Hin.
  { intros e. unfold deleteEvent. cbn [events]. rewrite filter_In.
    rewrite negb_true_iff, String.eqb_neq. reflexivity. }
  split; [reflexivity |]. split; [| split; [| split; [| split; [| split]]]].
  - apply Forall_forall. intros e He. apply list_elem_of_In, Hin in He.
    apply He.
  - unfold deleteEvent. cbn [events]. clear Hin.
    induction (events s) as [| e evs IH]; [constructor |]. simpl.
    destruct (negb (id e =? i)%string);
      [apply sublist_skip | apply sublist_cons]; exact IH.
  - intros e. rewrite !list_elem_of_In. apply Hin.
  - unfold deleteEvent. cbn [config events]. f_equal.
    apply filter_filter_same.
  - unfold deleteEvent. cbn [config events]. f_equal. clear Hin.
    induction (events s) as [| e evs IH]; [reflexivity |]. simpl.
    destruct (negb (id e =? j)%string) eqn:Ej,
      (negb (id e =? i)%string) eqn:Ei; simpl; rewrite ?Ej, ?Ei, IH;
      reflexivity.
  - intros Hall. clear Hin. destruct s as [cfg evs]. unfold deleteEvent.
    cbn [config events] in *. f_equal.
    induction Hall as [| e evs He _ IH]; [reflexivity |].
    simpl. apply String.eqb_neq in He. rewrite He, IH. reflexivity.
Qed.

Lemma map_id_filter_NoDup (f : TimelineEvent -> bool)
    (evs : list TimelineEvent) :
  NoDup (map id evs) -> NoDup (map id (List.filter f evs)).
Proof.
  induction evs as [| e evs IH]; [intros _; constructor |].
  simpl. intros H. apply NoDup_cons in H as [Hn Hd].
  destruct (f e); [| apply IH, Hd]. simpl. apply NoDup_cons.
  split; [| apply IH, Hd]. intros Hin. apply Hn.
  apply list_elem_of_In, in_map_iff in Hin as (e' & E & He').
  apply filter_In in He' as [He' _].
  apply list_elem_of_In, in_map_iff. exists e'. split; assumption.
Qed.

(** While the identifiers of the events are distinct, the operations keep
    them distinct: an update and a deletion always, an addition when the
    new identifier is fresh.  An event that is added with a fresh
    identifier goes to the end of the list, and deleting it again gives
    back the state from before; a deletion then removes at most one
    event. *)
Theorem distinct_identifiers_are_kept (uuid i : string) (event : NewEvent.t)
    (u : Updates.t) (s : AppState) :
  NoDup (map id (events s)) ->
  Forall (fun e => id e <> uuid) (events s) ->
  NoDup (map id (events (addEvent uuid event s)))
  /\ NoDup (map id (events (updateEvent i u s)))
  /\ NoDup (map id (events (deleteEvent i s)))
  /\ last (events (addEvent uuid event s)) = Some (withId event uuid)
  /\ deleteEvent uuid (addEvent uuid event s) = s
  /\ (length (events s) <= length (events (deleteEvent i s)) + 1)%nat.
Proof.
  intros Hnd Hfresh.
  split; [| split; [| split; [| split; [| split]]]].
  - unfold addEvent. cbn [events]. rewrite map_app. cbn [map withId id].
    apply NoDup_app. split; [exact Hnd |]. split; [| apply NoDup_singleton].
    intros x Hx Hx'. apply list_elem_of_singleton in Hx'. subst x.
    apply list_elem_of_In, in_map_iff in Hx as (e & E & He).
    apply (proj1 (Forall_forall _ _) Hfresh e); [apply list_elem_of_In, He |].
    exact E.
  - rewrite updateEvent_ids. exact Hnd.
  - unfold deleteEvent. cbn [events]. apply map_id_filter_NoDup, Hnd.
  - unfold addEvent. cbn [events]. apply last_snoc.
  - destruct s as [cfg evs]. unfold deleteEvent, addEvent.
    cbn [config events] in *. f_equal. rewrite List.filter_app.
    cbn [List.filter withId id]. rewrite String.eqb_refl. cbn [negb].
    rewrite app_nil_r. clear Hnd.
    induction Hfresh as [| e evs He _ IH]; [reflexivity |].
    simpl. apply String.eqb_neq in He. rewrite He, IH. reflexivity.
  - unfold deleteEvent. cbn [events]. clear Hfresh.
    induction (events s) as [| e evs IH]; [simpl; lia |].
    simpl in Hnd. apply NoDup_cons in Hnd as [Hn Hd]. simpl.
    destruct (String.eqb_spec (id e) i) as [E | E]; simpl.
    + assert (List.filter (fun e0 => negb (id e0 =? i)%string) evs = evs)
        as ->; [| lia].
      clear IH Hd. induction evs as [| x evs IH]; [reflexivity |]. simpl.
      destruct (String.eqb_spec (id x) i) as [Ex | Ex].
      * exfalso. apply Hn. simpl. rewrite Ex, E. left.
      * simpl. rewrite IH; [reflexivity |]. intros Hin. apply Hn. simpl.
        right. exact Hin.
    + specialize (IH Hd). lia.
Qed.

(** Two sample events, and a third with a fresh identifier. *)
Lemma distinct_identifiers_witness :
  NoDup (map id (events (addEvent "c"
                           (NewEvent.mk "2024-01-12" "red" "pivot" (Some 1))
                           Sample.goodState)))
  /\ NoDup (map id (events (updateEvent "a"
                              (Updates.mk None None (Some "scan") None)
                              Sample.goodState)))
  /\ NoDup (map id (events (deleteEvent "a" Sample.goodState)))
  /\ last (events (addEvent "c"
                     (NewEvent.mk "2024-01-12" "red" "pivot" (Some 1))
                     Sample.goodState))
     = Some (withId (NewEvent.mk "2024-01-12" "red" "pivot" (Some 1)) "c")
  /\ deleteEvent "c"
       (addEvent "c" (NewEvent.mk "2024-01-12" "red" "pivot" (Some 1))
          Sample.goodState)
     = Sample.goodState
  /\ (length (events Sample.goodState)
      <= length (events (deleteEvent "a" Sample.goodState)) + 1)%nat.
Proof.
  apply (distinct_identifiers_are_kept "c" "a"
           (NewEvent.mk "2024-01-12" "red" "pivot" (Some 1))
           (Updates.mk None None (Some "scan") None) Sample.goodState).
  - apply (bool_decide_unpack _). vm_compute. reflexivity.
  - repeat constructor; discriminate.
Defined.

(** * The forms *)

Section FormFacts.
Variable parseISO : string -> option Date.
Variable isWithinInterval :
  option Date -> option Date -> option Date -> option bool.
Variable trim : string -> string.

(** The three checks of [validate] pass. *)
Lemma validate_passes (cfg : TimelineConfig) (date description : string) :
  date <> EmptyString ->
  isWithinInterval (parseISO date) (parseISO (startDate cfg))
                   (parseISO (endDate cfg)) = Some true ->
  trim description <> EmptyString ->
  validate parseISO isWithinInterval trim cfg date description
  = Some (FieldErrors.mk None None).
Proof.
  intros Hd Hw Hx. unfold validate.
  apply String.eqb_neq in Hd, Hx. rewrite Hd, Hx.
  cbn [mbind option_bind]. rewrite Hw. reflexivity.
Qed.

(** One of the checks fails, or [isWithinInterval] throws. *)
Lemma validate_fails (cfg : TimelineConfig) (date description : string) :
  ~ (date <> EmptyString
     /\ isWithinInterval (parseISO date) (parseISO (startDate cfg))
                         (parseISO (endDate cfg)) = Some true
     /\ trim description <> EmptyString) ->
  validate parseISO isWithinInterval trim cfg date description = None
  \/ exists next : FieldErrors.t,
       validate parseISO isWithinInterval trim cfg date description
       = Some next
       /\ noErrors next = false.
Proof.
  intros H. unfold validate.
  destruct (String.eqb_spec date EmptyString) as [Hd | Hd].
  - right. eexists. split; reflexivity.
  - cbn [mbind option_bind].
    destruct (isWithinInterval (parseISO date) (parseISO (startDate cfg))
                (parseISO (endDate cfg))) as [[|] |] eqn:Hw.
    + destruct (String.eqb_spec (trim description) EmptyString) as [Hx | Hx].
      * right. eexists. split; reflexivity.
      * exfalso. apply H. repeat split; assumption.
    + right. eexists. split; [reflexivity |].
      destruct (trim description =? EmptyString)%string; reflexivity.
    + left. reflexivity.
Qed.
End FormFacts.

(** The form adds an event exactly when the date is given and within the
    range and the description is not blank.  It then adds one event, at
    the end, with the drawn identifier, the date, the team and the lane
    of the form and the description trimmed, and it clears the date and
    the description and sets the lane to 1 but keeps the team.  Otherwise
    the document and the fields of the form stay as they are. *)
Theorem form_adds_only_checked_events (parseISO : string -> option Date)
    (isWithinInterval :
       option Date -> option Date -> option Date -> option bool)
    (trim : string -> string) (cfg : TimelineConfig) (uuid : string)
    (form : Form.t) (state : AppState) :
  (Form.date form <> EmptyString
   /\ isWithinInterval (parseISO (Form.date form))
        (parseISO (startDate cfg)) (parseISO (endDate cfg))
      = Some true
   /\ trim (Form.description form) <> EmptyString ->
   handleSubmit parseISO isWithinInterval trim cfg uuid form state
   = (Form.mk EmptyString (Form.team form) EmptyString 1
        (FieldErrors.mk None None),
      {| config := config state;
         events :=
           events state
           ++ [{| id := uuid;
                  date := Form.date form;
                  team := Form.team form;
                  description := trim (Form.description form);
                  lane := Some (Form.lane form) |}] |}))
  /\ (~ (Form.date form <> EmptyString
         /\ isWithinInterval (parseISO (Form.date form))
              (parseISO (startDate cfg)) (parseISO (endDate cfg))
            = Some true
         /\ trim (Form.description form) <> EmptyString) ->
      (handleSubmit parseISO isWithinInterval trim cfg uuid form state).2
      = state
      /\ Form.date
           (handleSubmit parseISO isWithinInterval trim cfg uuid form
              state).1
         = Form.date form
      /\ Form.team
           (handleSubmit parseISO isWithinInterval trim cfg uuid form
              state).1
         = Form.team form
      /\ Form.description
           (handleSubmit parseISO isWithinInterval trim cfg uuid form
              state).1
         = Form.description form
      /\ Form.lane
           (handleSubmit parseISO isWithinInterval trim cfg uuid form
              state).1
         = Form.lane form).
Proof.
  split.
  - intros (Hd & Hw & Hx). unfold handleSubmit.
    rewrite (validate_passes parseISO isWithinInterval trim cfg _ _
               Hd Hw Hx).
    reflexivity.
  - intros H. unfold handleSubmit.
    destruct (validate_fails parseISO isWithinInterval trim cfg _ _ H)
      as [-> | (next & -> & ->)]; repeat split; reflexivity.
Qed.

(** Saving in the editor never changes the config, the number of events,
    their order or their identifiers, nor an event with another
    identifier than the edited one.  When the date is given and within
    the range and the description is not blank, it updates the edited
    event with the date, the team and the lane of the editor and the
    description trimmed, and closes the editor; otherwise the document
    stays as it is and the editor stays open. *)
Theorem editor_saves_only_checked_events (parseISO : string -> option Date)
    (isWithinInterval :
       option Date -> option Date -> option Date -> option bool)
    (trim : string -> string) (cfg : TimelineConfig)
    (event : TimelineEvent) (ed : Editor.t) (state : AppState) :
  config
    (handleSave parseISO isWithinInterval trim cfg event ed state).2
  = config state
  /\ map id
       (events
          (handleSave parseISO isWithinInterval trim cfg event ed state).2)
     = map id (events state)
  /\ (forall (k : nat) (e : TimelineEvent),
        events state !! k = Some e -> id e <> id event ->
        events
          (handleSave parseISO isWithinInterval trim cfg event ed state).2
        !! k
        = Some e)
  /\ (Editor.date ed <> EmptyString
      /\ isWithinInterval (parseISO (Editor.date ed))
           (parseISO (startDate cfg)) (parseISO (endDate cfg))
         = Some true
      /\ trim (Editor.description ed) <> EmptyString ->
      Editor.isOpen
        (handleSave parseISO isWithinInterval trim cfg event ed state).1
      = false
      /\ forall (k : nat) (e : TimelineEvent),
           events state !! k = Some e -> id e = id event ->
           events
             (handleSave parseISO isWithinInterval trim cfg event ed
                state).2
           !! k
           = Some {| id := id event;
                     date := Editor.date ed;
                     team := Editor.team ed;
                     description := trim (Editor.description ed);
                     lane := Some (Editor.lane ed) |})
  /\ (~ (Editor.date ed <> EmptyString
         /\ isWithinInterval (parseISO (Editor.date ed))
              (parseISO (startDate cfg)) (parseISO (endDate cfg))
            = Some true
         /\ trim (Editor.description ed) <> EmptyString) ->
      (handleSave parseISO isWithinInterval trim cfg event ed state).2
      = state
      /\ Editor.isOpen
           (handleSave parseISO isWithinInterval trim cfg event ed
              state).1
         = Editor.isOpen ed).
Proof.
  assert ((handleSave parseISO isWithinInterval trim cfg event ed state).2
          = state
          \/ (handleSave parseISO isWithinInterval trim cfg event ed
                state).2
             = updateEvent (id event)
                 (Updates.mk (Some (Editor.date ed)) (Some (Editor.team ed))
                    (Some (trim (Editor.description ed)))
                    (Some (Editor.lane ed)))
                 state) as Hcases.
  { unfold handleSave.
    destruct (validate parseISO isWithinInterval trim cfg _ _)
      as [next |]; [| left; reflexivity].
    destruct (negb (noErrors next)); [left | right]; reflexivity. }
  split; [| split; [| split; [| split]]].
  - destruct Hcases as [-> | ->]; reflexivity.
  - destruct Hcases as [-> | ->]; [reflexivity | apply updateEvent_ids].
  - intros k e Hk Hne. destruct Hcases as [-> | ->]; [exact Hk |].
    rewrite updateEvent_lookup, Hk. cbn [option_map].
    apply String.eqb_neq in Hne. rewrite Hne. reflexivity.
  - intros (Hd & Hw & Hx). unfold handleSave.
    rewrite (validate_passes parseISO isWithinInterval trim cfg _ _
               Hd Hw Hx).
    cbn [noErrors FieldErrors.date FieldErrors.description negb fst snd].
    split; [reflexivity |]. intros k e Hk He.
    rewrite updateEvent_lookup, Hk. cbn [option_map].
    apply String.eqb_eq in He as He'. rewrite He'.
    unfold applyUpdates. cbn. rewrite He. reflexivity.
  - intros H. unfold handleSave.
    destruct (validate_fails parseISO isWithinInterval trim cfg _ _ H)
      as [-> | (next & -> & ->)]; split; reflexivity.
Qed.

(** ** The delete button of the editor *)

Lemma deleteButton_cons (event : TimelineEvent) (a : DeleteButton)
    (actions : list DeleteButton) (st : Editor.t * AppState) :
  deleteButton event (a :: actions) st
  = deleteButton event actions (deleteButtonStep event st a).
Proof. reflexivity. Qed.

Lemma deleteButton_closed (event : TimelineEvent)
    (actions : list DeleteButton) (ed : Editor.t) (state : AppState) :
  Editor.isOpen ed = false ->
  deleteButton event actions (ed, state) = (ed, state).
Proof.
  intros H. induction actions as [| a actions IH]; [reflexivity |].
  rewrite deleteButton_cons. unfold deleteButtonStep. cbn [fst snd].
  rewrite H. exact IH.
Qed.

Lemma double_click_cons (a : DeleteButton) (actions : list DeleteButton) :
  (exists l1 l2 : list DeleteButton, a :: actions = l1 ++ click :: click :: l2)
  <-> (a = click /\ exists l2, actions = click :: l2)
      \/ exists l1 l2 : list DeleteButton,
           actions = l1 ++ click :: click :: l2.
Proof.
  split.
  - intros (l1 & l2 & E). destruct l1 as [| b l1]; simpl in E.
    + injection E as -> ->. left. split; [reflexivity |]. exists l2.
      reflexivity.
    + injection E as -> ->. right. exists l1, l2. reflexivity.
  - intros [[-> (l2 & ->)] | (l1 & l2 & ->)].
    + exists [], l2. reflexivity.
    + exists (a :: l1), l2. reflexivity.
Qed.

Lemma deleteButton_spec (event : TimelineEvent) (actions : list DeleteButton)
    (ed : Editor.t) (state : AppState) :
  Editor.isOpen ed = true ->
  ((Editor.confirmDelete ed = true /\ exists l, actions = click :: l)
   \/ (exists l1 l2 : list DeleteButton,
         actions = l1 ++ click :: click :: l2) ->
   (deleteButton event actions (ed, state)).2 = deleteEvent (id event) state
   /\ Editor.isOpen (deleteButton event actions (ed, state)).1 = false)
  /\ (~ ((Editor.confirmDelete ed = true /\ exists l, actions = click :: l)
         \/ (exists l1 l2 : list DeleteButton,
               actions = l1 ++ click :: click :: l2)) ->
      (deleteButton event actions (ed, state)).2 = state
      /\ Editor.isOpen (deleteButton event actions (ed, state)).1 = true).
Proof.
  revert ed. induction actions as [| a actions IH]; intros ed Hopen.
  - split.
    + intros [(_ & l & E) | (l1 & l2 & E)]; [discriminate |].
      destruct l1; discriminate.
    + intros _. split; [reflexivity | exact Hopen].
  - rewrite deleteButton_cons. unfold deleteButtonStep. cbn [fst snd].
    rewrite Hopen. cbn [negb].
    destruct a.
    + unfold handleDelete.
      destruct (Editor.confirmDelete ed) eqn:Hc; cbn [negb].
      * rewrite deleteButton_closed by reflexivity. cbn [fst snd].
        split; [intros _; split; reflexivity |].
        intros H. exfalso. apply H. left. split; [reflexivity |].
        exists actions. reflexivity.
      * destruct (IH (setConfirmDelete ed true) Hopen) as [IH1 IH2].
        cbn [setConfirmDelete Editor.confirmDelete] in IH1, IH2.
        rewrite double_click_cons. split.
        -- intros [(Hf & _) | [(_ & l2 & E) | H]]; [discriminate | |].
           ++ apply IH1. left. split; [reflexivity |]. exists l2. exact E.
           ++ apply IH1. right. exact H.
        -- intros H. apply IH2. intros [(_ & l & E) | H'].
           ++ apply H. right. left. split; [reflexivity |]. exists l.
              exact E.
           ++ apply H. right. right. exact H'.
    + destruct (IH (setConfirmDelete ed false) Hopen) as [IH1 IH2].
      cbn [setConfirmDelete Editor.confirmDelete] in IH1, IH2.
      rewrite double_click_cons. split.
      * intros [(_ & l & E) | [(E & _) | H]]; try discriminate.
        apply IH1. right. exact H.
      * intros H. apply IH2. intros [(Hf & _) | H']; [discriminate |].
        apply H. right. right. exact H'.
Qed.

(** The editor deletes its event exactly when the delete button is
    clicked twice with nothing in between: after any uses of the button,
    clicks and losses of focus, the event is deleted and the editor is
    closed when two clicks followed one another, and otherwise the
    document is as before and the editor is open.  A single click and a
    click after a loss of focus delete nothing. *)
Theorem editor_deletes_on_the_second_click (event : TimelineEvent)
    (actions : list DeleteButton) (state : AppState) :
  ((exists l1 l2 : list DeleteButton, actions = l1 ++ click :: click :: l2) ->
   (deleteButton event actions (openEditor event, state)).2
   = deleteEvent (id event) state
   /\ Editor.isOpen (deleteButton event actions (openEditor event, state)).1
      = false)
  /\ (~ (exists l1 l2 : list DeleteButton,
           actions = l1 ++ click :: click :: l2) ->
      (deleteButton event actions (openEditor event, state)).2 = state
      /\ Editor.isOpen
           (deleteButton event actions (openEditor event, state)).1
         = true).
Proof.
  destruct (deleteButton_spec event actions (openEditor event) state
              eq_refl) as [H1 H2].
  split.
  - intros H. apply H1. right. exact H.
  - intros H. apply H2. intros [(Hf & _) | H']; [discriminate | exact (H H')].
Qed.

(** * The list view *)

Lemma sortInsert_sorted_rel {A} (cmp : A -> A -> Z) (a : A) (l : list A) :
  (forall x y, 0 < cmp x y -> cmp y x <= 0) ->
  (forall x y z, cmp x y <= 0 -> cmp y z <= 0 -> cmp x z <= 0) ->
  StronglySorted (fun x y => cmp x y <= 0) l ->
  StronglySorted (fun x y => cmp x y <= 0) (sortInsert cmp a l).
Proof.
  intros Htot Htrans. induction 1 as [| x l Hs IH Hall]; simpl.
  - repeat constructor.
  - destruct (Z.ltb_spec 0 (cmp a x)) as [Hlt | Hge].
    + constructor; [exact IH |].
      apply Forall_forall. intros y Hy.
      assert (y ∈ a :: l) as Hy' by (rewrite <- sortInsert_perm; exact Hy).
      apply elem_of_cons in Hy' as [-> | Hy']; [apply Htot, Hlt |].
      apply (proj1 (Forall_forall _ _) Hall), Hy'.
    + constructor; [constructor; assumption |].
      constructor; [exact Hge |].
      apply Forall_forall. intros y Hy.
      apply (Htrans a x y Hge).
      apply (proj1 (Forall_forall _ _) Hall), Hy.
Qed.

Lemma sort_sorted_rel {A} (cmp : A -> A -> Z) (l : list A) :
  (forall x y, 0 < cmp x y -> cmp y x <= 0) ->
  (forall x y z, cmp x y <= 0 -> cmp y z <= 0 -> cmp x z <= 0) ->
  StronglySorted (fun x y => cmp x y <= 0) (sort cmp l).
Proof.
  intros Htot Htrans. induction l as [| a l IH]; simpl; [constructor |].
  apply sortInsert_sorted_rel; assumption.
Qed.

(** The rows of the list view are the events, each one once, whatever
    the comparison of strings is.  When [localeCompare] is an order on
    strings (its sign turns around with its arguments, and it is
    transitive), the rows are in the order of the chosen column: no row
    comes before a row whose string compares less in the ascending
    direction, nor before one whose string compares greater in the
    descending direction. *)
Theorem list_view_shows_the_events_in_order
    (localeCompare : string -> string -> Z) (events : list TimelineEvent)
    (sortField : SortField) :
  (forall a b : string, localeCompare a b < 0 <-> 0 < localeCompare b a) ->
  (forall a b c : string,
     localeCompare a b <= 0 -> localeCompare b c <= 0 ->
     localeCompare a c <= 0) ->
  (forall sortDirection : SortDirection,
     sortedEvents localeCompare events sortField sortDirection ≡ₚ events)
  /\ StronglySorted
       (fun x y => localeCompare (column sortField x) (column sortField y)
                   <= 0)
       (sortedEvents localeCompare events sortField asc)
  /\ StronglySorted
       (fun x y => 0 <= localeCompare (column sortField x)
                                      (column sortField y))
       (sortedEvents localeCompare events sortField desc).
Proof.
  intros Hanti Htrans.
  assert (forall a b, 0 <= localeCompare a b -> localeCompare b a <= 0)
    as Hflip.
  { intros a b H. destruct (Z.le_gt_cases (localeCompare b a) 0) as [L | G];
      [exact L |].
    apply Hanti in G. lia. }
  assert (forall a b, localeCompare b a <= 0 -> 0 <= localeCompare a b)
    as Hflip'.
  { intros a b H. destruct (Z.le_gt_cases 0 (localeCompare a b)) as [L | G];
      [exact L |].
    apply Hanti in G. lia. }
  assert (forall (d : SortDirection) (x y : TimelineEvent),
            compareRows localeCompare sortField d x y
            = match d with
              | asc => localeCompare (column sortField x) (column sortField y)
              | desc =>
                  - localeCompare (column sortField x) (column sortField y)
              end) as Hrows.
  { intros d x y. destruct sortField, d; reflexivity. }
  split; [intros d; apply sort_perm |]. split.
  - apply StronglySorted_weaken
      with (R := fun x y => compareRows localeCompare sortField asc x y <= 0);
      [| apply sort_sorted_rel].
    + intros x y H. rewrite Hrows in H. exact H.
    + intros x y. rewrite !Hrows. cbv beta iota. intros H.
      assert (localeCompare (column sortField y) (column sortField x) < 0)
        as H'; [apply Hanti, H | lia].
    + intros x y z. rewrite !Hrows. cbv beta iota. apply Htrans.
  - apply StronglySorted_weaken
      with (R := fun x y => compareRows localeCompare sortField desc x y <= 0);
      [| apply sort_sorted_rel].
    + intros x y H. rewrite Hrows in H. cbv beta iota in H. lia.
    + intros x y. rewrite !Hrows. cbv beta iota. intros H.
      assert (0 < localeCompare (column sortField y) (column sortField x))
        as H'; [apply Hanti; lia | lia].
    + intros x y z. rewrite !Hrows. cbv beta iota. intros H1 H2.
      assert (localeCompare (column sortField y) (column sortField x) <= 0)
        as F1 by (apply Hflip; lia).
      assert (localeCompare (column sortField z) (column sortField y) <= 0)
        as F2 by (apply Hflip; lia).
      pose proof (Hflip' _ _ (Htrans _ _ _ F2 F1)). lia.
Qed.

(** The two sample events by the length of their descriptions. *)
Lemma list_view_witness :
  (forall sortDirection : SortDirection,
     sortedEvents Demo.byLength (events Sample.goodState) descriptionField
       sortDirection
     ≡ₚ events Sample.goodState)
  /\ StronglySorted
       (fun x y => Demo.byLength (column descriptionField x)
                            (column descriptionField y) <= 0)
       (sortedEvents Demo.byLength (events Sample.goodState) descriptionField
          asc)
  /\ StronglySorted
       (fun x y => 0 <= Demo.byLength (column descriptionField x)
                                 (column descriptionField y))
       (sortedEvents Demo.byLength (events Sample.goodState) descriptionField
          desc).
Proof.
  apply (list_view_shows_the_events_in_order Demo.byLength
           (events Sample.goodState) descriptionField).
  - intros a b. unfold Demo.byLength. lia.
  - intros a b c. unfold Demo.byLength. lia.
Defined.

(** ** The selection *)

Lemma size_list_to_set_le (l : list string) :
  (size (list_to_set (C := gset string) l) <= length l)%nat.
Proof.
  induction l as [| x l IH];
    [rewrite list_to_set_nil, size_empty; simpl; lia |].
  rewrite list_to_set_cons. cbn [length].
  pose proof (size_union_alt {[x]} (list_to_set (C := gset string) l)) as E.
  rewrite E, size_singleton.
  assert (list_to_set (C := gset string) l ∖ {[x]} ⊆ list_to_set l) as Hsub.
  { intros y Hy. apply elem_of_difference in Hy as [Hy _]. exact Hy. }
  pose proof (subseteq_size _ _ Hsub) as Hle.
  lia.
Qed.

Lemma size_list_to_set_NoDup (l : list string) :
  size (list_to_set (C := gset string) l) = length l <-> NoDup l.
Proof.
  split; [| apply size_list_to_set].
  induction l as [| x l IH]; [intros _; constructor |].
  rewrite list_to_set_cons. cbn [length]. intros H.
  pose proof (size_list_to_set_le l) as Hle.
  destruct (decide (x ∈ l)) as [Hin | Hnin].
  - exfalso.
    assert ({[x]} ∪ list_to_set (C := gset string) l = list_to_set l) as E.
    { apply set_eq. intros y. rewrite elem_of_union, elem_of_singleton,
        !elem_of_list_to_set.
      split; [intros [-> | Hy]; assumption | intros Hy; right; exact Hy]. }
    rewrite E in H. lia.
  - apply NoDup_cons. split; [exact Hnin |]. apply IH.
    rewrite size_union in H.
    + rewrite size_singleton in H. lia.
    + intros y Hy Hy'. apply elem_of_singleton in Hy. subst y.
      apply elem_of_list_to_set in Hy'. contradiction.
Qed.

(** Ticking the box of a row twice leaves the selection as it was; it
    changes whether that row is selected and no other row, and the boxes
    of two rows can be ticked in either order. *)
Theorem toggling_a_row_twice_restores_the_selection (i j : string)
    (selected : gset string) :
  toggleOne i (toggleOne i selected) = selected
  /\ (i ∈ toggleOne i selected <-> i ∉ selected)
  /\ (j <> i -> (j ∈ toggleOne i selected <-> j ∈ selected))
  /\ toggleOne i (toggleOne j selected) = toggleOne j (toggleOne i selected).
Proof.
  assert (forall (k x : string) (s : gset string),
            x ∈ toggleOne k s <-> (x = k /\ k ∉ s) \/ (x <> k /\ x ∈ s))
    as Hmem.
  { intros k x s. unfold toggleOne. case_bool_decide as Hk.
    - rewrite elem_of_difference, elem_of_singleton. split.
      + intros [Hx Hne]. right. split; assumption.
      + intros [[-> Hn] | [Hne Hx]]; [contradiction | split; assumption].
    - rewrite elem_of_union, elem_of_singleton. split.
      + intros [Hx | ->]; [| left; split; [reflexivity | exact Hk]].
        destruct (decide (x = k)) as [-> | Hne]; [contradiction |].
        right. split; assumption.
      + intros [[-> _] | [_ Hx]]; [right; reflexivity | left; exact Hx]. }
  split; [| split; [| split]].
  - apply set_eq. intros x. rewrite !Hmem.
    destruct (decide (x = i)) as [-> | Hne].
    + split.
      * intros [[_ Hn] | [Hne _]]; [| contradiction].
        destruct (decide (i ∈ selected)) as [Hi | Hi]; [exact Hi |].
        exfalso. apply Hn. left. split; [reflexivity | exact Hi].
      * intros Hi. left. split; [reflexivity |].
        intros [[_ Hn] | [Hne _]]; contradiction.
    + split.
      * intros [[E _] | [_ [[E _] | [_ Hx]]]]; try contradiction. exact Hx.
      * intros Hx. right. split; [exact Hne |]. right. split; assumption.
  - rewrite Hmem. split.
    + intros [[_ Hn] | [Hne _]]; [exact Hn | contradiction].
    + intros Hn. left. split; [reflexivity | exact Hn].
  - intros Hne. rewrite Hmem. split.
    + intros [[E _] | [_ Hx]]; [contradiction | exact Hx].
    + intros Hx. right. split; assumption.
  - apply set_eq. intros x. rewrite !Hmem.
    destruct (decide (x = i)), (decide (x = j)), (decide (i ∈ selected)),
      (decide (j ∈ selected)), (decide (x ∈ selected));
      clear Hmem; subst; intuition congruence.
Qed.

(** After the box of the header is ticked, it shows as checked exactly
    when there are events, the selection did not already have as many
    identifiers as there are events, and the identifiers of the events
    are distinct: with two events of one identifier "select all" never
    shows as checked.  The selection is then the identifiers of all the
    events, or empty when the selection had as many identifiers as there
    are events. *)
Theorem select_all_counts_identifiers (events : list TimelineEvent)
    (selected : gset string) :
  (allChecked events (toggleAll events selected) = true
   <-> events <> []
       /\ size selected <> length events
       /\ NoDup (map id events))
  /\ (size selected = length events -> toggleAll events selected = ∅)
  /\ (size selected <> length events ->
      forall i : string,
        i ∈ toggleAll events selected <-> exists e, e ∈ events /\ id e = i).
Proof.
  unfold allChecked, toggleAll.
  destruct (Nat.eqb_spec (size selected) (length events)) as [E | E].
  - split; [| split; [reflexivity | contradiction]].
    rewrite size_empty. split.
    + intros H. apply andb_true_iff in H as [H1 H2].
      apply Nat.ltb_lt in H1. apply Nat.eqb_eq in H2. lia.
    + intros (_ & H & _). contradiction.
  - split; [| split; [contradiction |]].
    + rewrite andb_true_iff, Nat.ltb_lt, Nat.eqb_eq.
      rewrite <- (length_map id events) at 2.
      rewrite size_list_to_set_NoDup. split.
      * intros [H1 H2]. split; [| split; assumption].
        intros ->. simpl in H1. lia.
      * intros (H1 & _ & H3). split; [| exact H3].
        destruct events; [contradiction | simpl; lia].
    + intros _ i. rewrite elem_of_list_to_set, list_elem_of_In, in_map_iff.
      split; intros (e & H1 & H2); exists e.
      * split; [apply list_elem_of_In, H2 | exact H1].
      * split; [exact H2 | apply list_elem_of_In, H1].
Qed.

(** * The layout and the events it is given *)

Lemma sortInsert_map {A B} (f : A -> B) (cmpA : A -> A -> Z)
    (cmpB : B -> B -> Z) (a : A) (l : list A) :
  (forall x y, cmpB (f x) (f y) = cmpA x y) ->
  sortInsert cmpB (f a) (map f l) = map f (sortInsert cmpA a l).
Proof.
  intros H. induction l as [| x l IH]; [reflexivity |].
  simpl. rewrite H. destruct (0 <? cmpA a x); [| reflexivity].
  simpl. rewrite IH. reflexivity.
Qed.

Lemma sort_map {A B} (f : A -> B) (cmpA : A -> A -> Z) (cmpB : B -> B -> Z)
    (l : list A) :
  (forall x y, cmpB (f x) (f y) = cmpA x y) ->
  sort cmpB (map f l) = map f (sort cmpA l).
Proof.
  intros H. induction l as [| a l IH]; [reflexivity |].
  cbn [map sort foldr]. fold (sort cmpB (map f l)). fold (sort cmpA l).
  rewrite IH. apply sortInsert_map, H.
Qed.

Lemma filter_map_list {A B} (f : A -> B) (p : B -> bool) (q : A -> bool)
    (l : list A) :
  (forall x, p (f x) = q x) ->
  List.filter p (map f l) = map f (List.filter q l).
Proof.
  intros H. induction l as [| a l IH]; [reflexivity |].
  simpl. rewrite H. destruct (q a); simpl; rewrite IH; reflexivity.
Qed.

Section SameLayout.
Variable f : TimelineEvent -> TimelineEvent.
Hypothesis f_date : forall e, date (f e) = date e.
Hypothesis f_team : forall e, team (f e) = team e.

Lemma clusterStep_map (clusters : list (list TeamEvent.t))
    (ev : TeamEvent.t) :
  clusterStep (map (map (mapEvent f)) clusters) (mapEvent f ev)
  = map (map (mapEvent f)) (clusterStep clusters ev).
Proof.
  destruct clusters as [| c cs _] using rev_ind; [reflexivity |].
  rewrite map_app. cbn [map]. destruct c as [| first rest]; cbn [map].
  - unfold clusterStep. rewrite !last_snoc, !map_app. reflexivity.
  - rewrite !clusterStep_open.
    change (near (mapEvent f first) (mapEvent f ev)) with (near first ev).
    destruct (near first ev); rewrite !map_app; cbn [map];
      rewrite ?map_app; reflexivity.
Qed.

Lemma formClusters_map (tes : list TeamEvent.t) :
  formClusters (map (mapEvent f) tes)
  = map (map (mapEvent f)) (formClusters tes).
Proof.
  induction tes as [| ev tes IH] using rev_ind; [reflexivity |].
  rewrite map_app. cbn [map]. rewrite !formClusters_snoc, IH.
  apply clusterStep_map.
Qed.

Lemma imap_map_list {A B C} (g : nat -> B -> C) (h : A -> B) (l : list A) :
  imap g (map h l) = imap (fun i x => g i (h x)) l.
Proof.
  revert g. induction l as [| x l IH]; intros g; [reflexivity |].
  simpl. rewrite IH. reflexivity.
Qed.

Lemma map_imap_list {A B C} (g : nat -> A -> B) (h : B -> C) (l : list A) :
  map h (imap g l) = imap (fun i x => h (g i x)) l.
Proof.
  revert g. induction l as [| x l IH]; intros g; [reflexivity |].
  simpl. rewrite IH. reflexivity.
Qed.

Lemma stackCluster_map (cluster : list TeamEvent.t) :
  stackCluster (map (mapEvent f) cluster)
  = map (withEvent f) (stackCluster cluster).
Proof.
  unfold stackCluster. rewrite length_map, imap_map_list, map_imap_list.
  reflexivity.
Qed.

Lemma assignPositions_map (tes : list TeamEvent.t) :
  assignPositions (map (mapEvent f) tes)
  = map (withEvent f) (assignPositions tes).
Proof.
  rewrite !assignPositions_concat, formClusters_map.
  induction (formClusters tes) as [| c cs IH]; [reflexivity |].
  cbn [map concat]. rewrite map_app, stackCluster_map, IH. reflexivity.
Qed.

Lemma getEventPositions_map (parseISO : string -> Date)
    (toPercent : Date -> Q) (events : list TimelineEvent) :
  Positions.red (getEventPositions parseISO (map f events) toPercent)
  = map (withEvent f)
        (Positions.red (getEventPositions parseISO events toPercent))
  /\ Positions.blue (getEventPositions parseISO (map f events) toPercent)
     = map (withEvent f)
           (Positions.blue (getEventPositions parseISO events toPercent)).
Proof.
  rewrite !getEventPositions_red, !getEventPositions_blue.
  rewrite (sort_map f (byDate parseISO) (byDate parseISO))
    by (intros x y; unfold byDate; rewrite !f_date; reflexivity).
  rewrite (filter_map_list f isRed isRed)
    by (intros x; unfold isRed; rewrite f_team; reflexivity).
  rewrite (filter_map_list f notRed notRed)
    by (intros x; unfold notRed, isRed; rewrite f_team; reflexivity).
  rewrite !map_map.
  assert (forall l,
            map (fun x => withPercent parseISO toPercent (f x)) l
            = map (mapEvent f) (map (withPercent parseISO toPercent) l)) as E.
  { intros l. rewrite map_map. apply map_ext. intros e.
    unfold withPercent, mapEvent. cbn. rewrite f_date. reflexivity. }
  rewrite !E, !assignPositions_map. split; reflexivity.
Qed.

Lemma overflowLoop_map (all todo : list PositionedEvent)
    (seen : gset string) :
  map (fun o => (Overflow.percent o, Overflow.count o, Overflow.offset o))
      (overflowLoop (map (withEvent f) all) seen (map (withEvent f) todo))
  = map (fun o => (Overflow.percent o, Overflow.count o, Overflow.offset o))
        (overflowLoop all seen todo).
Proof.
  revert seen. induction todo as [| p todo IH]; intros seen; [reflexivity |].
  cbn [map overflowLoop withEvent truncated event percent]. rewrite f_date.
  destruct (negb (truncated p) || bool_decide (date (event p) ∈ seen));
    [apply IH |].
  cbv zeta. cbn [map Overflow.percent Overflow.count Overflow.offset].
  rewrite IH. f_equal. f_equal. f_equal.
  rewrite (filter_map_list (withEvent f) _ (hiddenOn (date (event p)))).
  - apply length_map.
  - intros x. unfold hiddenOn. cbn [withEvent truncated event].
    rewrite f_date. reflexivity.
Qed.

Hypothesis f_lane : forall e, default 1 (lane (f e)) = default 1 (lane e).

Lemma renderTeam_map (positions : list PositionedEvent) (name : string) :
  renderTeam (map (withEvent f) positions) name = renderTeam positions name.
Proof.
  unfold renderTeam.
  rewrite (sort_map (withEvent f) byLaneDesc byLaneDesc).
  - rewrite map_map. apply map_ext. intros p. unfold renderEvent.
    cbn [withEvent truncated event percent]. rewrite f_lane. reflexivity.
  - intros x y. unfold byLaneDesc. cbn [withEvent event].
    rewrite !f_lane. reflexivity.
Qed.
End SameLayout.

(** The layout reads the date, the team and the lane of an event and
    nothing else: when the events are changed in a way that keeps the
    date, the team and the lane (read as 1 when it is missing) of each,
    as an edit of the descriptions does, every placement record stays
    what it was but for its event, and the same flags are drawn. *)
Theorem layout_reads_date_team_and_lane
    (f : TimelineEvent -> TimelineEvent) (parseISO : string -> Date)
    (toPercent : Date -> Q) (events : list TimelineEvent) :
  (forall e, date (f e) = date e) ->
  (forall e, team (f e) = team e) ->
  (forall e, default 1 (lane (f e)) = default 1 (lane e)) ->
  Positions.red (getEventPositions parseISO (map f events) toPercent)
  = map (withEvent f)
        (Positions.red (getEventPositions parseISO events toPercent))
  /\ Positions.blue (getEventPositions parseISO (map f events) toPercent)
     = map (withEvent f)
           (Positions.blue (getEventPositions parseISO events toPercent))
  /\ (forall name : string,
        renderTeam
          (Positions.red
             (getEventPositions parseISO (map f events) toPercent)) name
        = renderTeam
            (Positions.red (getEventPositions parseISO events toPercent))
            name
        /\ renderTeam
             (Positions.blue
                (getEventPositions parseISO (map f events) toPercent)) name
           = renderTeam
               (Positions.blue (getEventPositions parseISO events toPercent))
               name).
Proof.
  intros Hd Ht Hl.
  destruct (getEventPositions_map f Hd Ht parseISO toPercent events)
    as [Er Eb].
  split; [exact Er |]. split; [exact Eb |].
  intros name. rewrite Er, Eb. split; apply renderTeam_map; assumption.
Qed.

(** The five sample events with their descriptions blanked out. *)
Lemma layout_reads_witness :
  Positions.red
    (getEventPositions IsoDate.parseValid
       (map Demo.blanked Sample.fiveCloseDays)
       (fun day => dayToLinearPercent day 19723 200))
  = map (withEvent Demo.blanked)
        (Positions.red
           (getEventPositions IsoDate.parseValid Sample.fiveCloseDays
              (fun day => dayToLinearPercent day 19723 200)))
  /\ Positions.blue
       (getEventPositions IsoDate.parseValid
          (map Demo.blanked Sample.fiveCloseDays)
          (fun day => dayToLinearPercent day 19723 200))
     = map (withEvent Demo.blanked)
           (Positions.blue
              (getEventPositions IsoDate.parseValid Sample.fiveCloseDays
                 (fun day => dayToLinearPercent day 19723 200)))
  /\ (forall name : string,
        renderTeam
          (Positions.red
             (getEventPositions IsoDate.parseValid
                (map Demo.blanked Sample.fiveCloseDays)
                (fun day => dayToLinearPercent day 19723 200))) name
        = renderTeam
            (Positions.red
               (getEventPositions IsoDate.parseValid Sample.fiveCloseDays
                  (fun day => dayToLinearPercent day 19723 200)))
            name
        /\ renderTeam
             (Positions.blue
                (getEventPositions IsoDate.parseValid
                   (map Demo.blanked Sample.fiveCloseDays)
                   (fun day => dayToLinearPercent day 19723 200))) name
           = renderTeam
               (Positions.blue
                  (getEventPositions IsoDate.parseValid Sample.fiveCloseDays
                     (fun day => dayToLinearPercent day 19723 200)))
               name).
Proof.
  apply (layout_reads_date_team_and_lane Demo.blanked IsoDate.parseValid
           (fun day => dayToLinearPercent day 19723 200)
           Sample.fiveCloseDays); intros e; reflexivity.
Defined.

(** The migration of [loadState], which gives every event a lane, does
    not change the picture: the placement records of both teams put the
    events at the same places, in the same clusters, the flags that are
    drawn are the same, and so are the place, the count and the height of
    every overflow badge.  Loading a loaded state changes nothing. *)
Theorem loading_keeps_the_picture (parseISO : string -> Date)
    (toPercent : Date -> Q) (state : AppState) :
  map placement
      (Positions.red
         (getEventPositions parseISO (events (loadState state)) toPercent))
  = map placement
        (Positions.red
           (getEventPositions parseISO (events state) toPercent))
  /\ map placement
         (Positions.blue
            (getEventPositions parseISO (events (loadState state))
               toPercent))
     = map placement
           (Positions.blue
              (getEventPositions parseISO (events state) toPercent))
  /\ (forall name : string,
        renderTeam
          (Positions.red
             (getEventPositions parseISO (events (loadState state))
                toPercent)) name
        = renderTeam
            (Positions.red
               (getEventPositions parseISO (events state) toPercent)) name
        /\ renderTeam
             (Positions.blue
                (getEventPositions parseISO (events (loadState state))
                   toPercent)) name
           = renderTeam
               (Positions.blue
                  (getEventPositions parseISO (events state) toPercent))
               name)
  /\ map (fun o => (Overflow.percent o, Overflow.count o, Overflow.offset o))
         (redOverflows
            (getEventPositions parseISO (events (loadState state))
               toPercent))
     = map (fun o => (Overflow.percent o, Overflow.count o, Overflow.offset o))
           (redOverflows
              (getEventPositions parseISO (events state) toPercent))
  /\ map (fun o => (Overflow.percent o, Overflow.count o, Overflow.offset o))
         (blueOverflows
            (getEventPositions parseISO (events (loadState state))
               toPercent))
     = map (fun o => (Overflow.percent o, Overflow.count o, Overflow.offset o))
           (blueOverflows
              (getEventPositions parseISO (events state) toPercent))
  /\ loadState (loadState state) = loadState state.
Proof.
  change (events (loadState state)) with (map migrated (events state)).
  unfold redOverflows, blueOverflows, overflows.
  destruct (getEventPositions_map migrated (fun _ => eq_refl)
              (fun _ => eq_refl) parseISO toPercent (events state))
    as [-> ->].
  assert (forall ps, map placement (map (withEvent migrated) ps)
                     = map placement ps) as Hp.
  { intros ps. rewrite map_map. apply map_ext. intros p. reflexivity. }
  assert (forall e, default 1 (lane (migrated e)) = default 1 (lane e))
    as Hlane.
  { intros e. reflexivity. }
  split; [apply Hp |]. split; [apply Hp |]. split.
  { intros name.
    split; apply (renderTeam_map migrated); exact Hlane. }
  split; [apply (overflowLoop_map migrated); reflexivity |].
  split; [apply (overflowLoop_map migrated); reflexivity |].
  destruct state as [cfg evs]. unfold loadState. cbn [config events].
  f_equal. rewrite map_map. apply map_ext. intros e. reflexivity.
Qed.
